(** * CipherDock: a shallow embedding of the LUKS container manager

    The program under study is [CipherDock.py], a Tk front end that drives
    [cryptsetup], [udisksctl], [mkfs.ext4], [e2label], [chown], [truncate]
    and [df] through [subprocess].  The development has these layers:

    - [Py]: the pieces of the Python runtime the program calls ([str]
      methods, [os.path] helpers, [int] and [float] conversions, the
      latter through binary64);
    - [prog]: programs as finite trees of environment events, with
      exceptions, and [exec], which runs a program against an arbitrary
      environment and records every event with its answer;
    - the methods of [SecureContainerApp], transcribed statement by
      statement;
    - [Sim]: a simulated device-mapper namespace and mount table, used
      where a statement is about what exists after a run;
    - [list_containers], the start of the application and the passphrase
      dialog, with the callbacks of the dialog as state transformers;
    - the statements, each proved for every environment, or for every
      script of the simulation.

    What is outside the model: code points above 127 (strings are
    sequences of ASCII characters); a child process that cannot be
    started, and time-outs, of which the source sets none (a child
    process always runs to an exit status); exceptions of the file-system
    calls other than [os.makedirs], the one the source guards; the
    environment variables handed to [udisksctl] ([EXTRA_ENV] is empty in
    the source); the layout of the Tk windows. *)

From Stdlib Require Import String Ascii List ZArith Bool Lia.
From Stdlib Require Import DecimalString.
From Stdlib Require Import Floats.SpecFloat.
From Stdlib Require Sorted Permutation.
Import ListNotations.

Local Open Scope list_scope.
Local Open Scope string_scope.

(* ===================================================================== *)
(** * The Python runtime, as far as the program uses it                  *)
(* ===================================================================== *)

Module Py.

(** ** [str] methods *)

(** [str.isspace] on one ASCII character: TAB, LF, VT, FF, CR, the four
    separators FS GS RS US, and the space. *)
Definition isspace (c : ascii) : bool :=
  let n := nat_of_ascii c in
  (Nat.leb 9 n && Nat.leb n 13) || (Nat.leb 28 n && Nat.leb n 32).

Definition is_empty (s : string) : bool :=
  match s with EmptyString => true | _ => false end.

Fixpoint lstrip (s : string) : string :=
  match s with
  | String c r => if isspace c then lstrip r else s
  | EmptyString => EmptyString
  end.

Fixpoint rstrip (s : string) : string :=
  match s with
  | String c r =>
      let r' := rstrip r in
      if isspace c && is_empty r' then EmptyString else String c r'
  | EmptyString => EmptyString
  end.

(** [s.strip()] *)
Definition strip (s : string) : string := rstrip (lstrip s).

Definition upper_char (c : ascii) : ascii :=
  let n := nat_of_ascii c in
  if Nat.leb 97 n && Nat.leb n 122 then ascii_of_nat (n - 32) else c.

(** [s.upper()] *)
Fixpoint upper (s : string) : string :=
  match s with
  | String c r => String (upper_char c) (upper r)
  | EmptyString => EmptyString
  end.

(** [s.startswith(p)] *)
Definition startswith (s p : string) : bool := prefix p s.

(** [s.endswith(suf)] *)
Definition endswith (s suf : string) : bool :=
  let n := String.length s in
  let m := String.length suf in
  Nat.leb m n && String.eqb (substring (n - m) m s) suf.

(** [s[:-1]] *)
Definition drop_last (s : string) : string :=
  substring 0 (String.length s - 1) s.

(** [s[n:]] *)
Fixpoint drop (n : nat) (s : string) : string :=
  match n, s with
  | S k, String _ r => drop k r
  | _, _ => s
  end.

(** [sub in s] *)
Fixpoint contains (s sub : string) : bool :=
  prefix sub s ||
  match s with
  | String _ r => contains r sub
  | EmptyString => false
  end.

(** [s.split(sep, 1)[1]] for a non-empty [sep]: what follows the first
    occurrence of [sep]; [None] stands for the [IndexError] Python raises
    when [sep] does not occur. *)
Fixpoint after_first (sep s : string) : option string :=
  if prefix sep s then Some (drop (String.length sep) s)
  else match s with
       | String _ r => after_first sep r
       | EmptyString => None
       end.

Fixpoint replace_from (old new s : string) (skip : nat) : string :=
  match s with
  | EmptyString => EmptyString
  | String c r =>
      match skip with
      | S k => replace_from old new r k
      | O =>
          if prefix old s
          then new ++ replace_from old new r (String.length old - 1)
          else String c (replace_from old new r 0)
      end
  end.

(** [s.replace(old, new)] for a non-empty [old]. *)
Definition replace (s old new : string) : string := replace_from old new s 0.

(** [s.split(c)] for a one-character separator: never the empty list. *)
Fixpoint split_char (c : ascii) (s : string) : list string :=
  match s with
  | EmptyString => [EmptyString]
  | String a r =>
      let l := split_char c r in
      if Ascii.eqb a c then EmptyString :: l
      else match l with
           | h :: t => String a h :: t
           | [] => [String a EmptyString]
           end
  end.

Fixpoint split_ws_from (s cur : string) : list string :=
  match s with
  | EmptyString => if is_empty cur then [] else [cur]
  | String c r =>
      if isspace c
      then (if is_empty cur then split_ws_from r EmptyString
            else cur :: split_ws_from r EmptyString)
      else split_ws_from r (cur ++ String c EmptyString)
  end.

(** [s.split()]: the maximal runs of non-space characters. *)
Definition split (s : string) : list string := split_ws_from s EmptyString.

(** [sep.join(l)] *)
Definition join (sep : string) (l : list string) : string := String.concat sep l.

(** [x in l] for a list of strings *)
Definition mem (x : string) (l : list string) : bool :=
  existsb (String.eqb x) l.

(** [sorted(l)] on strings: code-point order.  Equal strings are
    indistinguishable, so any sorting algorithm gives Python's result. *)
Fixpoint insert_sorted (x : string) (l : list string) : list string :=
  match l with
  | [] => [x]
  | y :: t => if String.leb x y then x :: l else y :: insert_sorted x t
  end.

Definition sorted (l : list string) : list string :=
  fold_right insert_sorted [] l.

(** [str(n)] for an integer *)
Definition str_int (n : Z) : string := NilZero.string_of_int (Z.to_int n).

(** ** [os.path] helpers (posixpath) *)

Fixpoint rfind_from (c : ascii) (s : string) (i acc : Z) : Z :=
  match s with
  | EmptyString => acc
  | String a r => rfind_from c r (i + 1) (if Ascii.eqb a c then i else acc)
  end.

(** [s.rfind(c)] for a one-character [c]: the last index, or [-1]. *)
Definition rfind (s : string) (c : ascii) : Z := rfind_from c s 0 (-1).

Fixpoint all_dots (s : string) : bool :=
  match s with
  | EmptyString => true
  | String c r => Ascii.eqb c "." && all_dots r
  end.

(** [os.path.splitext(p)]: the extension starts at the last dot of the
    last path component, unless that component has only dots before it. *)
Definition splitext (p : string) : string * string :=
  let sepIndex := rfind p "/" in
  let dotIndex := rfind p "." in
  if (sepIndex <? dotIndex)%Z
     && negb (all_dots (substring (Z.to_nat (sepIndex + 1))
                                 (Z.to_nat (dotIndex - sepIndex - 1)) p))
  then (substring 0 (Z.to_nat dotIndex) p, drop (Z.to_nat dotIndex) p)
  else (p, EmptyString).

(** [os.path.join(a, b)] *)
Definition path_join (a b : string) : string :=
  if startswith b "/" then b
  else if is_empty a || endswith a "/" then a ++ b
  else a ++ "/" ++ b.

(** Path components as [commonpath] sees them: split on [/], empty and
    [.] components dropped. *)
Definition components (p : string) : list string :=
  filter (fun c => negb (is_empty c) && negb (String.eqb c "."))
         (split_char "/" p).

Fixpoint common_prefix (a b : list string) : list string :=
  match a, b with
  | x :: a', y :: b' => if String.eqb x y then x :: common_prefix a' b' else []
  | _, _ => []
  end.

(** [os.path.commonpath([a, b])]; [None] is the [ValueError] raised when
    one path is absolute and the other is not.  The library takes the
    longest common prefix of the least and the greatest component list,
    which for two paths is the longest common prefix of the two. *)
Definition commonpath2 (a b : string) : option string :=
  let isabs_a := startswith a "/" in
  let isabs_b := startswith b "/" in
  if Bool.eqb isabs_a isabs_b
  then Some ((if isabs_a then "/" else "")
             ++ join "/" (common_prefix (components a) (components b)))
  else None.

(** ** Exceptions *)

Inductive value_error : Type :=
| BadIntLiteral (s : string)      (* int(s) on a malformed literal *)
| DigitLimit (s : string)         (* int(s) on more digits than the limit *)
| BadFloatLiteral (s : string)    (* float(s) on a malformed literal *)
| NanToInt                        (* int(float('nan')) *)
| MixedPaths.                     (* commonpath on absolute and relative *)

Inductive exn : Type :=
| CalledProcessError (returncode : Z) (cmd : list string) (output : option string)
| ValueError (what : value_error)
| OverflowError.                  (* int(float('inf')) *)

(** ** [int(s)] and [float(s)] on strings *)

Definition is_digit (c : ascii) : bool :=
  let n := nat_of_ascii c in Nat.leb 48 n && Nat.leb n 57.

Definition digit_val (c : ascii) : Z := Z.of_nat (nat_of_ascii c - 48).

(** The longest prefix made of digits and underscores, and the rest. *)
Fixpoint span_digits (s : string) : string * string :=
  match s with
  | String c r =>
      if is_digit c || Ascii.eqb c "_"
      then let (d, t) := span_digits r in (String c d, t)
      else (EmptyString, s)
  | EmptyString => (EmptyString, EmptyString)
  end.

(** [digitpart ::= digit (["_"] digit)*] on a string of digits and
    underscores; [prev] tells whether the previous character was a digit. *)
Fixpoint digitpart_ok (s : string) (prev : bool) : bool :=
  match s with
  | EmptyString => prev
  | String c r => if is_digit c then digitpart_ok r true
                  else prev && digitpart_ok r false
  end.

Fixpoint digits_val (s : string) (acc : Z) : Z :=
  match s with
  | EmptyString => acc
  | String c r => if is_digit c then digits_val r (10 * acc + digit_val c)
                  else digits_val r acc
  end.

Fixpoint count_digits (s : string) : Z :=
  match s with
  | EmptyString => 0
  | String c r => (if is_digit c then 1 else 0) + count_digits r
  end.

Definition split_sign (s : string) : bool * string :=
  match s with
  | String "+" r => (false, r)
  | String "-" r => (true, r)
  | _ => (false, s)
  end.

(** The white space [int] and [float] skip around a literal: TAB, LF,
    VT, FF, CR and the space.  The four separators, which [str.strip] and
    [str.split] take for white space, are not skipped. *)
Definition is_literal_space (c : ascii) : bool :=
  let n := nat_of_ascii c in
  (Nat.leb 9 n && Nat.leb n 13) || Nat.eqb n 32.

Fixpoint trim_left (s : string) : string :=
  match s with
  | String c r => if is_literal_space c then trim_left r else s
  | EmptyString => EmptyString
  end.

Fixpoint trim_right (s : string) : string :=
  match s with
  | String c r =>
      let r' := trim_right r in
      if is_literal_space c && is_empty r' then EmptyString else String c r'
  | EmptyString => EmptyString
  end.

Definition trim (s : string) : string := trim_right (trim_left s).

(** [sys.int_info.default_max_str_digits]: the most digits [int] reads
    from a string; the program leaves the limit as it is. *)
Definition max_str_digits : Z := 4300.

(** [int(s)], base ten.  The digits are counted once the underscores are
    known to be well placed, before what follows them is looked at. *)
Definition int_of_str (s : string) : exn + Z :=
  let (neg, body) := split_sign (trim s) in
  let (d, rest) := span_digits body in
  if digitpart_ok d false
  then if (max_str_digits <? count_digits d)%Z
       then inl (ValueError (DigitLimit s))
       else if is_empty rest
            then inr (if neg then - digits_val d 0 else digits_val d 0)%Z
            else inl (ValueError (BadIntLiteral s))
  else inl (ValueError (BadIntLiteral s)).

(** What a float literal denotes before rounding. *)
Inductive float_literal : Type :=
| LitInf (neg : bool)
| LitNan
| LitDec (neg : bool) (m : Z) (e : Z).   (* (-1)^neg * m * 10^e, 0 <= m *)

Definition parse_exponent (s : string) : option Z :=
  match s with
  | EmptyString => Some 0%Z
  | String c r =>
      if Ascii.eqb c "e" || Ascii.eqb c "E"
      then let (neg, r') := split_sign r in
           let (d, rest) := span_digits r' in
           if digitpart_ok d false && is_empty rest
           then Some (if neg then - digits_val d 0 else digits_val d 0)%Z
           else None
      else None
  end.

Definition parse_float (s : string) : option float_literal :=
  let (neg, body) := split_sign (trim s) in
  let u := upper body in
  if String.eqb u "INF" || String.eqb u "INFINITY" then Some (LitInf neg)
  else if String.eqb u "NAN" then Some LitNan
  else
    let (ip, r1) := span_digits body in
    let (fp, r2) := match r1 with
                    | String "." r => span_digits r
                    | _ => (EmptyString, r1)
                    end in
    if (is_empty ip || digitpart_ok ip false)
       && (is_empty fp || digitpart_ok fp false)
       && negb (is_empty ip && is_empty fp)
    then match parse_exponent r2 with
         | Some ex => Some (LitDec neg (digits_val fp (digits_val ip 0))
                                       (ex - count_digits fp))
         | None => None
         end
    else None.

(** Binary64. *)
Definition prec : Z := 53.
Definition emax : Z := 1024.

(** Round-to-nearest-even of a decimal: an integer is normalised, a proper
    fraction is the correctly rounded quotient of two integers. *)
Definition round_dec (neg : bool) (m e : Z) : spec_float :=
  match m with
  | Zpos p =>
      if (0 <=? e)%Z
      then binary_normalize prec emax
             (if neg then - (m * 10 ^ e) else m * 10 ^ e) 0 neg
      else SFdiv prec emax (S754_finite neg p 0)
                           (S754_finite false (Z.to_pos (10 ^ (- e))) 0)
  | _ => S754_zero neg
  end.

(** [float(s)] *)
Definition float_of_str (s : string) : exn + spec_float :=
  match parse_float s with
  | Some (LitInf neg) => inr (S754_infinity neg)
  | Some LitNan => inr S754_nan
  | Some (LitDec neg m e) => inr (round_dec neg m e)
  | None => inl (ValueError (BadFloatLiteral s))
  end.

(** [float(n)] for an integer and [x * y] on floats. *)
Definition float_of_int (n : Z) : spec_float :=
  binary_normalize prec emax n 0 false.

Definition float_mul (x y : spec_float) : spec_float := SFmul prec emax x y.

(** [int(x)] on a float: truncation toward zero. *)
Definition int_of_float (x : spec_float) : exn + Z :=
  match x with
  | S754_zero _ => inr 0%Z
  | S754_infinity _ => inl OverflowError
  | S754_nan => inl (ValueError NanToInt)
  | S754_finite s m e =>
      let v := match e with
               | Zneg k => Z.shiftr (Zpos m) (Zpos k)
               | _ => Z.shiftl (Zpos m) e
               end in
      inr (if s then - v else v)%Z
  end.

End Py.

(* ===================================================================== *)
(** * Programs over the environment                                      *)
(* ===================================================================== *)

Import Py.

(** The newline character, for the messages the program formats. *)
Definition nl : string := String (ascii_of_nat 10) EmptyString.

(** What a finished child process hands back ([subprocess.run]'s
    [CompletedProcess]); [stdout] is meaningful when output was captured. *)
Record CompletedProcess : Type := {
  returncode : Z;
  stdout : string
}.

Inductive level : Type := INFO | WARNING | ERROR.

(** Every way the program touches its environment: the file system, child
    processes, the Tk dialogs and the log.  The index is the type of the
    answer.  [os_makedirs] answers [Some text] when the call raised, [text]
    being the exception's message; [passphrase_dialog], [string_dialog] and
    [choice_dialog] answer [None] when the user cancels. *)
Inductive event : Type -> Type :=
| os_path_exists (p : string) : event bool
| os_path_isdir (p : string) : event bool
| os_listdir (p : string) : event (list string)
| os_makedirs (p : string) : event (option string)
| os_path_realpath (p : string) : event string
| read_lines (p : string) : event (list string)
| spawn (argv : list string) (input : option string) (capture : bool)
    : event CompletedProcess
| showerror (title msg : string) : event unit
| showinfo (title msg : string) : event unit
| showwarning (title msg : string) : event unit
| askyesno (title msg : string) : event bool
| passphrase_dialog (title : string) (confirm : bool) : event (option string)
| string_dialog (title prompt default : string) : event (option string)
| choice_dialog (title : string) (options : list string) : event (option string)
| logging (lvl : level) (msg : string) : event unit
| destroy : event unit.

(** A program is a finite tree: it returns, raises, or performs an event
    and continues with the answer. *)
Inductive prog (A : Type) : Type :=
| Ret (a : A)
| Raise (e : exn)
| Vis (X : Type) (ev : event X) (k : X -> prog A).

Arguments Ret {A} a.
Arguments Raise {A} e.
Arguments Vis {A X} ev k.

Fixpoint bind {A B : Type} (p : prog A) (f : A -> prog B) : prog B :=
  match p with
  | Ret a => f a
  | Raise e => Raise e
  | Vis ev k => Vis ev (fun x => bind (k x) f)
  end.

(** [try: p except ...: h e]; a handler that does not match re-raises. *)
Fixpoint catch {A : Type} (p : prog A) (h : exn -> prog A) : prog A :=
  match p with
  | Ret a => Ret a
  | Raise e => h e
  | Vis ev k => Vis ev (fun x => catch (k x) h)
  end.

Definition trigger {X : Type} (ev : event X) : prog X := Vis ev Ret.

Declare Scope prog_scope.
Delimit Scope prog_scope with prog.
Notation "x <- p ;; q" := (bind p (fun x => q))
  (at level 61, p at next level, right associativity) : prog_scope.
Notation "p ;; q" := (bind p (fun _ => q))
  (at level 61, right associativity) : prog_scope.
Local Open Scope prog_scope.

(** [for x in l: body x] *)
Fixpoint for_each {A : Type} (l : list A) (body : A -> prog unit) : prog unit :=
  match l with
  | [] => Ret tt
  | x :: t => body x ;; for_each t body
  end.

(** A pure computation that may raise. *)
Definition lift {A : Type} (r : exn + A) : prog A :=
  match r with inl e => Raise e | inr a => Ret a end.

(** ** Running a program *)

(** One entry of the record of a run: the event and its answer. *)
Inductive io : Type :=
| io_exists (p : string) (b : bool)
| io_isdir (p : string) (b : bool)
| io_listdir (p : string) (l : list string)
| io_makedirs (p : string) (r : option string)
| io_realpath (p : string) (r : string)
| io_lines (p : string) (l : list string)
| io_spawn (argv : list string) (input : option string) (capture : bool)
    (cp : CompletedProcess)
| io_showerror (title msg : string)
| io_showinfo (title msg : string)
| io_showwarning (title msg : string)
| io_askyesno (title msg : string) (b : bool)
| io_passphrase (title : string) (confirm : bool) (r : option string)
| io_string (title prompt default : string) (r : option string)
| io_choice (title : string) (options : list string) (r : option string)
| io_logging (lvl : level) (msg : string)
| io_destroy.

Definition record {X : Type} (ev : event X) : X -> io :=
  match ev in event X return X -> io with
  | os_path_exists p => io_exists p
  | os_path_isdir p => io_isdir p
  | os_listdir p => io_listdir p
  | os_makedirs p => io_makedirs p
  | os_path_realpath p => io_realpath p
  | read_lines p => io_lines p
  | spawn argv input capture => io_spawn argv input capture
  | showerror t m => fun _ => io_showerror t m
  | showinfo t m => fun _ => io_showinfo t m
  | showwarning t m => fun _ => io_showwarning t m
  | askyesno t m => io_askyesno t m
  | passphrase_dialog t c => io_passphrase t c
  | string_dialog t p d => io_string t p d
  | choice_dialog t o => io_choice t o
  | logging l m => fun _ => io_logging l m
  | destroy => fun _ => io_destroy
  end.

(** An environment: a state and, for each event, an answer and a new
    state. *)
Definition handler (W : Type) : Type := forall X : Type, event X -> W -> X * W.

Inductive outcome (A : Type) : Type :=
| Returned (a : A)
| Raised (e : exn).

Arguments Returned {A} a.
Arguments Raised {A} e.

Record run (A W : Type) : Type := {
  result : outcome A;
  final : W;
  trace : list io
}.

Arguments result {A W} r.
Arguments final {A W} r.
Arguments trace {A W} r.

(** The same run, with one more entry in front of its record. *)
Definition after {A W : Type} (e : io) (r : run A W) : run A W :=
  {| result := result r; final := final r; trace := e :: trace r |}.

Fixpoint exec {W A : Type} (h : handler W) (p : prog A) (w : W) : run A W :=
  match p with
  | Ret a => {| result := Returned a; final := w; trace := [] |}
  | Raise e => {| result := Raised e; final := w; trace := [] |}
  | Vis ev k =>
      let (x, w') := h _ ev w in
      after (record ev x) (exec h (k x) w')
  end.

(** ** Reading a record *)

(** The child processes started, in order, with their exit status. *)
Fixpoint spawned (t : list io) : list (list string * Z) :=
  match t with
  | io_spawn argv _ _ cp :: t' => (argv, returncode cp) :: spawned t'
  | _ :: t' => spawned t'
  | [] => []
  end.

(** The command lines alone. *)
Definition commands (t : list io) : list (list string) := map fst (spawned t).

Definition is_dialog (e : io) : bool :=
  match e with
  | io_showerror _ _ | io_showinfo _ _ | io_showwarning _ _ => true
  | _ => false
  end.

(** The message boxes shown, in order. *)
Definition dialogs (t : list io) : list io := filter is_dialog t.

Definition is_logging (e : io) : bool :=
  match e with io_logging _ _ => true | _ => false end.

(** The log lines written, in order. *)
Definition logged (t : list io) : list io := filter is_logging t.

(* ===================================================================== *)
(** * SecureContainerApp                                                 *)
(* ===================================================================== *)

(** The fields [__init__] copies out of [CONFIG].  The configuration
    module is not part of the program text, so its values are parameters. *)
Record SecureContainerApp : Type := {
  partition_device : string;
  container_dir : string;
  default_size : string;
  username : string
}.

(** [subprocess.run(argv, input=..., check=..., capture_output=...)]: with
    [check], a non-zero exit status raises [CalledProcessError], whose
    [output] is the captured text, or [None] when nothing was captured. *)
Definition subprocess_run (argv : list string) (input : option string)
    (check capture : bool) : prog CompletedProcess :=
  cp <- trigger (spawn argv input capture) ;;
  if check && negb (returncode cp =? 0)%Z
  then Raise (CalledProcessError (returncode cp) argv
                (if capture then Some (stdout cp) else None))
  else Ret cp.

(** [subprocess.check_output(argv, text=True)] *)
Definition subprocess_check_output (argv : list string) : prog string :=
  cp <- subprocess_run argv None true true ;;
  Ret (stdout cp).

(** [ask_passphrase(parent, title, confirm)] *)
Definition ask_passphrase (title : string) (confirm : bool) : prog (option string) :=
  trigger (passphrase_dialog title confirm).

(** [_parse_size_to_bytes(s)]: [None] for a malformed number.  The final
    [int(...)] sits outside the [try], so what it raises escapes. *)
Definition _parse_size_to_bytes (s : string) : exn + option Z :=
  let s := upper (strip s) in
  let '(mult, s) :=
    if endswith s "G" then ((1024 ^ 3)%Z, drop_last s)
    else if endswith s "M" then ((1024 ^ 2)%Z, drop_last s)
    else if endswith s "K" then (1024%Z, drop_last s)
    else (1%Z, s) in
  match float_of_str s with
  | inl (ValueError _) => inr None
  | inl e => inl e
  | inr val =>
      match int_of_float (float_mul val (float_of_int mult)) with
      | inl e => inl e
      | inr n => inr (Some n)
      end
  end.

(** [f"{e.output}"] *)
Definition str_output (o : option string) : string :=
  match o with Some s => s | None => "None" end.

Definition exn_output (e : exn) : option string :=
  match e with CalledProcessError _ _ o => o | _ => None end.

(** Lines 291-295 of [mount_container]: the mount point named by
    [udisksctl]'s confirmation line ([stdout] already stripped). *)
Definition mount_path_of (stdout : string) : option string :=
  if contains stdout " at "
  then match after_first " at " stdout with
       | Some after_at => Some (strip (replace after_at "." ""))
       | None => None
       end
  else None.

Section Methods.

(** [str(e)] for an exception, as the Python library renders it. *)
Variable str_exn : exn -> string.

Variable self : SecureContainerApp.

(** [_ask_for_string]: the entry's text stripped, or [None] on cancel. *)
Definition _ask_for_string (title prompt default : string) : prog (option string) :=
  r <- trigger (string_dialog title prompt default) ;;
  Ret (option_map strip r).

Definition _ask_user_choice (title : string) (options : list string)
  : prog (option string) :=
  trigger (choice_dialog title options).

Definition _detect_open_mappers : prog (list string) :=
  let mapper_dir := "/dev/mapper" in
  d <- trigger (os_path_isdir mapper_dir) ;;
  if negb d then Ret []
  else
    entries <- trigger (os_listdir mapper_dir) ;;
    Ret (filter (fun m => endswith m "_mapper" && negb (String.eqb m "control"))
                entries).

Definition _get_container_files : prog (list string) :=
  d <- trigger (os_path_isdir (container_dir self)) ;;
  if negb d then Ret []
  else
    all_files <- trigger (os_listdir (container_dir self)) ;;
    Ret (sorted (filter (fun f => endswith f ".img" || endswith f ".luks")
                        all_files)).

(** The [/proc/mounts] loop: the mount points of [part_dev]. *)
Definition mountpoints_of (part_dev : string) (lines : list string) : list string :=
  flat_map (fun line =>
              match split line with
              | dev :: mntp :: _ => if String.eqb dev part_dev then [mntp] else []
              | _ => []
              end) lines.

(** [any(os.path.commonpath([mnt, real_cdir]) == mnt for mnt in ...)] *)
Fixpoint any_commonpath (mountpoints : list string) (real_cdir : string)
  : exn + bool :=
  match mountpoints with
  | [] => inr false
  | mnt :: rest =>
      match commonpath2 mnt real_cdir with
      | None => inl (ValueError MixedPaths)
      | Some c => if String.eqb c mnt then inr true
                  else any_commonpath rest real_cdir
      end
  end.

Definition _verify_container_dir_on_partition : prog bool :=
  let cdir := container_dir self in
  let part_dev := partition_device self in
  ex <- trigger (os_path_exists cdir) ;;
  failed <- (if negb ex then trigger (os_makedirs cdir) else Ret None) ;;
  match failed with
  | Some e =>
      trigger (showerror "Error" ("Cannot create container directory:" ++ nl ++ e)) ;;
      Ret false
  | None =>
      lines <- trigger (read_lines "/proc/mounts") ;;
      let mountpoints := mountpoints_of part_dev lines in
      match mountpoints with
      | [] =>
          trigger (showerror "Error"
            (part_dev ++ " is not mounted." ++ nl
             ++ "Please mount it before using this app.")) ;;
          Ret false
      | _ =>
          real_cdir <- trigger (os_path_realpath cdir) ;;
          is_ok <- lift (any_commonpath mountpoints real_cdir) ;;
          if negb is_ok then
            trigger (showerror "Error"
              ("The container directory (" ++ cdir ++ ") is not on "
               ++ part_dev ++ "." ++ nl ++ "Aborting.")) ;;
            Ret false
          else Ret true
      end
  end.

Definition _check_free_space (directory size_str : string) : prog bool :=
  size_bytes <- lift (_parse_size_to_bytes size_str) ;;
  match size_bytes with
  | None =>
      trigger (showerror "Error" ("Invalid size format: " ++ size_str)) ;;
      Ret false
  | Some size_bytes =>
      catch
        (df_out <- subprocess_check_output ["df"; "--block-size=1"; directory] ;;
         let lines := split_char (ascii_of_nat 10) (strip df_out) in
         if (length lines <? 2)%nat then Ret true
         else
           let cols := split (nth 1 lines "") in
           if (length cols <? 5)%nat then Ret true
           else
             available <- lift (int_of_str (nth 3 cols "")) ;;
             if (available <? size_bytes)%Z then
               trigger (showerror "Error"
                 ("Not enough free space." ++ nl ++ "Requested: " ++ size_str
                  ++ nl ++ "Available: " ++ str_int available ++ " bytes.")) ;;
               Ret false
             else Ret true)
        (fun e =>
           trigger (logging WARNING ("Could not parse free space: " ++ str_exn e)) ;;
           Ret true)
  end.

Definition create_container : prog unit :=
  ok <- _verify_container_dir_on_partition ;;
  if negb ok then Ret tt else
  name <- _ask_for_string "Container Name"
            "Enter a container name (e.g. my_data):" "" ;;
  match name with
  | None | Some EmptyString => Ret tt
  | Some name =>
  size_str <- _ask_for_string "Container Size"
                ("Enter container size (e.g. 500M, 2G)" ++ nl ++ "Default: "
                 ++ default_size self)
                (default_size self) ;;
  match size_str with
  | None | Some EmptyString => Ret tt
  | Some size_str =>
  luks_pass <- ask_passphrase "LUKS Passphrase" true ;;
  match luks_pass with
  | None | Some EmptyString => Ret tt
  | Some luks_pass =>
  let container_path := path_join (container_dir self) (name ++ ".img") in
  present <- trigger (os_path_exists container_path) ;;
  if present then
    trigger (showerror "Error"
               ("Container file already exists:" ++ nl ++ container_path))
  else
  enough <- _check_free_space (container_dir self) size_str ;;
  if negb enough then Ret tt else
  confirm <- trigger (askyesno "Confirm"
               ("Create new LUKS container:" ++ nl ++ "File: " ++ container_path
                ++ nl ++ "Size: " ++ size_str ++ nl ++ nl ++ "Proceed?")) ;;
  if negb confirm then Ret tt else
  catch
    ((* 1) truncate *)
     subprocess_run ["truncate"; "-s"; size_str; container_path]
                    None true false ;;
     (* 2) luksFormat *)
     let cmd_format :=
       ["cryptsetup"; "-q"; "luksFormat"; "--type"; "luks2"; container_path] in
     subprocess_run cmd_format (Some (luks_pass ++ nl)) true false ;;
     (* 3) open *)
     let mapper_name := name ++ "_mapper" in
     subprocess_run ["cryptsetup"; "open"; container_path; mapper_name]
                    (Some (luks_pass ++ nl)) true false ;;
     let dev_mapper := "/dev/mapper/" ++ mapper_name in
     (* 4) mkfs.ext4 *)
     subprocess_run ["mkfs.ext4"; dev_mapper] None true false ;;
     (* label with container name *)
     subprocess_run ["e2label"; dev_mapper; name] None true false ;;
     (* 5) close *)
     subprocess_run ["cryptsetup"; "close"; mapper_name] None true false ;;
     trigger (showinfo "Success" ("Created container:" ++ nl ++ container_path)) ;;
     trigger (logging INFO ("Created container " ++ container_path
                            ++ ", size=" ++ size_str)))
    (fun e =>
       match e with
       | CalledProcessError _ _ _ =>
           let err := "Failed to create container:" ++ nl ++ str_exn e in
           trigger (showerror "Error" err) ;;
           trigger (logging ERROR err)
       | _ => Raise e
       end)
  end end end.

Definition mount_container : prog unit :=
  ok <- _verify_container_dir_on_partition ;;
  if negb ok then Ret tt else
  containers <- _get_container_files ;;
  match containers with
  | [] =>
      trigger (showinfo "No Containers" "No container files found to mount.")
  | _ =>
  cfile <- _ask_user_choice "Select Container to Mount" containers ;;
  match cfile with
  | None | Some EmptyString => Ret tt
  | Some cfile =>
  let base_name := fst (splitext cfile) in
  open_maps <- _detect_open_mappers ;;
  if mem (base_name ++ "_mapper") open_maps then
    trigger (showwarning "Already Open"
               ("Container '" ++ base_name
                ++ "' is already open. Unmount it first."))
  else
  luks_pass <- ask_passphrase ("LUKS Passphrase for " ++ cfile) false ;;
  match luks_pass with
  | None | Some EmptyString => Ret tt
  | Some luks_pass =>
  let container_path := path_join (container_dir self) cfile in
  confirm <- trigger (askyesno "Confirm"
               ("Mount container:" ++ nl ++ container_path ++ nl ++ nl
                ++ "Proceed?")) ;;
  if negb confirm then Ret tt else
  let mapper_name := base_name ++ "_mapper" in
  let dev_mapper := "/dev/mapper/" ++ mapper_name in
  catch
    ((* 1) cryptsetup open as root *)
     subprocess_run ["cryptsetup"; "open"; container_path; mapper_name]
                    (Some (luks_pass ++ nl)) true false ;;
     (* 2) mount as normal user => parse the output *)
     mount_proc <- subprocess_run
                     ["sudo"; "-u"; username self; "udisksctl"; "mount"; "-b";
                      dev_mapper]
                     None true true ;;
     let stdout := strip (stdout mount_proc) in
     trigger (logging INFO ("udisksctl mount output: " ++ stdout)) ;;
     let mount_path := mount_path_of stdout in
     is_dir <- match mount_path with
               | None | Some EmptyString => Ret false
               | Some mount_path => trigger (os_path_isdir mount_path)
               end ;;
     match mount_path, is_dir with
     | Some mount_path, true =>
         (* 3) chown to <username> *)
         subprocess_run ["chown"; "-R"; username self ++ ":" ++ username self;
                         mount_path]
                        None true false ;;
         trigger (showinfo "Success"
                    ("Mounted " ++ cfile ++ " at:" ++ nl ++ mount_path ++ nl
                     ++ "Chowned to " ++ username self ++ " for R/W.")) ;;
         trigger (logging INFO
                    ("Mounted " ++ container_path ++ ", chowned " ++ mount_path
                     ++ " to " ++ username self ++ "."))
     | _, _ =>
         trigger (showwarning "Mount Path Not Found"
                    ("Mount likely succeeded, but couldn't parse path from:"
                     ++ nl ++ stdout))
     end)
    (fun e =>
       match e with
       | CalledProcessError _ _ _ =>
           let err := "Mount failed:" ++ nl ++ str_exn e ++ nl ++ nl
                      ++ "Output:" ++ nl ++ str_output (exn_output e) in
           trigger (showerror "Error" err) ;;
           trigger (logging ERROR err)
       | _ => Raise e
       end)
  end end end.

Definition unmount_container : prog unit :=
  open_maps <- _detect_open_mappers ;;
  match open_maps with
  | [] =>
      trigger (showinfo "No Open Containers" "No container mappers are open.")
  | _ =>
  mapper_choice <- _ask_user_choice "Select Container to Unmount" open_maps ;;
  match mapper_choice with
  | None | Some EmptyString => Ret tt
  | Some mapper_choice =>
  let dev_mapper := "/dev/mapper/" ++ mapper_choice in
  confirm <- trigger (askyesno "Confirm Unmount"
               ("Unmount & close:" ++ nl ++ dev_mapper ++ nl ++ nl
                ++ "Proceed?")) ;;
  if negb confirm then Ret tt else
  catch
    ((* unmount as user *)
     subprocess_run ["sudo"; "-u"; username self; "udisksctl"; "unmount"; "-b";
                     dev_mapper]
                    None true false ;;
     (* close as root *)
     subprocess_run ["cryptsetup"; "close"; mapper_choice] None true false ;;
     trigger (showinfo "Success" ("Unmounted & closed " ++ mapper_choice)) ;;
     trigger (logging INFO ("Unmounted & closed " ++ mapper_choice)))
    (fun e =>
       match e with
       | CalledProcessError _ _ _ =>
           let err := "Failed to unmount:" ++ nl ++ str_exn e in
           trigger (showerror "Error" err) ;;
           trigger (logging ERROR err)
       | _ => Raise e
       end)
  end end.

(** The body shared by the two cleanup loops: unmount, then close, both
    with [check=False], then one log line. *)
Definition sweep_one (log_prefix mapper : string) : prog unit :=
  let dev_mapper := "/dev/mapper/" ++ mapper in
  subprocess_run ["sudo"; "-u"; username self; "udisksctl"; "unmount"; "-b";
                  dev_mapper]
                 None false false ;;
  subprocess_run ["cryptsetup"; "close"; mapper] None false false ;;
  trigger (logging INFO (log_prefix ++ mapper)).

Definition _startup_cleanup_check : prog unit :=
  leftover <- _detect_open_mappers ;;
  match leftover with
  | [] => Ret tt
  | _ =>
  let msg := "Found leftover open containers:" ++ nl ++ nl ++ join nl leftover in
  let msg := msg ++ nl ++ nl ++ "Close them now?" in
  do_cleanup <- trigger (askyesno "Startup Cleanup" msg) ;;
  if negb do_cleanup then Ret tt else
  for_each leftover (sweep_one "Closed leftover mapper ")
  end.

Definition _on_exit : prog unit :=
  leftover <- _detect_open_mappers ;;
  match leftover with
  | [] => Ret tt
  | _ =>
  let msg := "Still-open containers:" ++ nl ++ nl ++ join nl leftover in
  let msg := msg ++ nl ++ nl ++ "Unmount + close them now?" in
  do_cleanup <- trigger (askyesno "Clean Exit" msg) ;;
  if do_cleanup then
    for_each leftover (sweep_one "Auto-closed leftover mapper ")
  else Ret tt
  end ;;
  trigger (logging INFO "Exiting application (V5).") ;;
  trigger destroy.

End Methods.

(* ===================================================================== *)
(** * A simulated device-mapper namespace and mount table                *)
(* ===================================================================== *)

Module Sim.

(** The observable system state: the unlocked mappers (the entries of
    [/dev/mapper] besides [control]) and the live mount table (device,
    mount point).  [clock] counts the events answered so far. *)
Record world : Type := {
  mappers : list string;
  mounts : list (string * string);
  clock : nat
}.

Definition observed (w : world) : list string * list (string * string) :=
  (mappers w, mounts w).

(** Everything the simulation does not determine: for each instant and
    event an answer (what the user types, what the file system holds, how
    each child process exits and what it prints), and the mount point the
    mount manager picks for a device. *)
Record script : Type := {
  answer : forall X : Type, nat -> event X -> X;
  mount_point : string -> string
}.

Inductive action : Type :=
| Open (name : string)
| Close (name : string)
| Mount (dev : string)
| Unmount (dev : string)
| Other.

Definition classify (argv : list string) : action :=
  match argv with
  | [a; b; c] =>
      if String.eqb a "cryptsetup" && String.eqb b "close" then Close c
      else Other
  | [a; b; _; d] =>
      if String.eqb a "cryptsetup" && String.eqb b "open" then Open d
      else Other
  | [a; b; _; c; d; e; f] =>
      if String.eqb a "sudo" && String.eqb b "-u" && String.eqb c "udisksctl"
         && String.eqb e "-b"
      then if String.eqb d "mount" then Mount f
           else if String.eqb d "unmount" then Unmount f
           else Other
      else Other
  | _ => Other
  end.

Definition remove_mapper (name : string) (l : list string) : list string :=
  filter (fun m => negb (String.eqb m name)) l.

Definition remove_mounts (dev : string) (l : list (string * string))
  : list (string * string) :=
  filter (fun r => negb (String.eqb (fst r) dev)) l.

(** Modelled from the spec: the external tools [cryptsetup] and
    [udisksctl], which the program only invokes.  A MapperHandle "exists
    only between a successful open and a successful close"; a MountRecord
    is bound to the handle's device by a successful mount and dropped by
    a successful unmount.  A command that exits non-zero changes
    nothing; the other commands never touch the two tables.  The mapper
    table is a list, so that a second handle of the same name would
    show if a program opened one. *)
Definition effect (mp : string -> string) (argv : list string)
    (o : list string * list (string * string))
  : list string * list (string * string) :=
  let (ms, mt) := o in
  match classify argv with
  | Open name => (ms ++ [name], mt)%list
  | Close name => (remove_mapper name ms, mt)
  | Mount dev => (ms, mt ++ [(dev, mp dev)])%list
  | Unmount dev => (ms, remove_mounts dev mt)
  | Other => (ms, mt)
  end.

(** A child process that exits with status zero has its effect. *)
Definition apply (mp : string -> string) (o : list string * list (string * string))
    (c : list string * Z) : list string * list (string * string) :=
  if (snd c =? 0)%Z then effect mp (fst c) o else o.

(** One line of [/proc/mounts]. *)
Definition mount_line (r : string * string) : string :=
  fst r ++ " " ++ snd r ++ " ext4 rw,relatime 0 0" ++ nl.

Definition step (s : script) : handler world :=
  fun X ev w =>
    match ev in event X return X -> X * world with
    | os_path_isdir p => fun x =>
        (if String.eqb p "/dev/mapper" then true else x,
         {| mappers := mappers w; mounts := mounts w; clock := S (clock w) |})
    | os_listdir p => fun x =>
        (if String.eqb p "/dev/mapper" then "control" :: mappers w else x,
         {| mappers := mappers w; mounts := mounts w; clock := S (clock w) |})
    | read_lines p => fun x =>
        (if String.eqb p "/proc/mounts" then map mount_line (mounts w) else x,
         {| mappers := mappers w; mounts := mounts w; clock := S (clock w) |})
    | spawn argv _ _ => fun cp =>
        let o := apply (mount_point s) (observed w) (argv, returncode cp) in
        (cp, {| mappers := fst o; mounts := snd o; clock := S (clock w) |})
    | _ => fun x =>
        (x, {| mappers := mappers w; mounts := mounts w; clock := S (clock w) |})
    end (answer s X (clock w) ev).

(** What every record of a simulated run satisfies: [/dev/mapper] is a
    directory, listing it shows [control] and the mappers open at that
    instant, and [/proc/mounts] shows the mount table of that instant. *)
Fixpoint faithful (mp : string -> string)
    (o : list string * list (string * string)) (t : list io) : Prop :=
  match t with
  | [] => True
  | io_isdir p b :: t' =>
      (p = "/dev/mapper" -> b = true) /\ faithful mp o t'
  | io_listdir p l :: t' =>
      (p = "/dev/mapper" -> l = "control" :: fst o) /\ faithful mp o t'
  | io_lines p l :: t' =>
      (p = "/proc/mounts" -> l = map mount_line (snd o)) /\ faithful mp o t'
  | io_spawn argv _ _ cp :: t' =>
      faithful mp (apply mp o (argv, returncode cp)) t'
  | _ :: t' => faithful mp o t'
  end.

(** A time-independent script, convenient for concrete runs. *)
Record scenario : Type := {
  sc_exists : string -> bool;
  sc_isdir : string -> bool;
  sc_listdir : string -> list string;
  sc_realpath : string -> string;
  sc_makedirs : option string;
  sc_status : list string -> Z;
  sc_stdout : list string -> string;
  sc_yes : string -> bool;
  sc_passphrase : option string;
  sc_string : string -> option string;
  sc_choice : string -> option string;
  sc_mount_point : string -> string
}.

Definition script_of (sc : scenario) : script :=
  {| answer := fun X _ ev =>
       match ev in event X return X with
       | os_path_exists p => sc_exists sc p
       | os_path_isdir p => sc_isdir sc p
       | os_listdir p => sc_listdir sc p
       | os_makedirs _ => sc_makedirs sc
       | os_path_realpath p => sc_realpath sc p
       | read_lines _ => []
       | spawn argv _ _ =>
           {| returncode := sc_status sc argv; stdout := sc_stdout sc argv |}
       | showerror _ _ | showinfo _ _ | showwarning _ _ => tt
       | askyesno title _ => sc_yes sc title
       | passphrase_dialog _ _ => sc_passphrase sc
       | string_dialog title _ _ => sc_string sc title
       | choice_dialog title _ => sc_choice sc title
       | logging _ _ => tt
       | destroy => tt
       end;
     mount_point := sc_mount_point sc |}.

End Sim.

(* ===================================================================== *)
(** * Vocabulary of the statements                                       *)
(* ===================================================================== *)

(** The command lines of the program, by role. *)
Definition open_argv (container_path mapper : string) : list string :=
  ["cryptsetup"; "open"; container_path; mapper].

Definition close_argv (mapper : string) : list string :=
  ["cryptsetup"; "close"; mapper].

Definition mount_argv (self : SecureContainerApp) (mapper : string) : list string :=
  ["sudo"; "-u"; username self; "udisksctl"; "mount"; "-b"; "/dev/mapper/" ++ mapper].

Definition unmount_argv (self : SecureContainerApp) (mapper : string) : list string :=
  ["sudo"; "-u"; username self; "udisksctl"; "unmount"; "-b"; "/dev/mapper/" ++ mapper].

Definition chown_argv (self : SecureContainerApp) (path : string) : list string :=
  ["chown"; "-R"; username self ++ ":" ++ username self; path].

Definition df_argv (directory : string) : list string :=
  ["df"; "--block-size=1"; directory].

(** The six commands of the [try] block of [create_container], in the
    order the source issues them. *)
Definition create_commands (name size_str container_path : string)
  : list (list string) :=
  let mapper_name := name ++ "_mapper" in
  let dev_mapper := "/dev/mapper/" ++ mapper_name in
  [ ["truncate"; "-s"; size_str; container_path];
    ["cryptsetup"; "-q"; "luksFormat"; "--type"; "luks2"; container_path];
    ["cryptsetup"; "open"; container_path; mapper_name];
    ["mkfs.ext4"; dev_mapper];
    ["e2label"; dev_mapper; name];
    ["cryptsetup"; "close"; mapper_name] ].

(** What a cleanup loop issues for one mapper. *)
Definition sweep_argv (self : SecureContainerApp) (mapper : string)
  : list (list string) :=
  [unmount_argv self mapper; close_argv mapper].

(** Whether a character occurs in a string. *)
Fixpoint has_char (c : ascii) (s : string) : bool :=
  match s with
  | EmptyString => false
  | String a r => Ascii.eqb a c || has_char c r
  end.

(** The components [commonpath] keeps: non-empty and not [.]. *)
Definition is_component (c : string) : bool :=
  negb (is_empty c) && negb (String.eqb c ".").

(** The filter of [_detect_open_mappers]. *)
Definition is_open_mapper (m : string) : bool :=
  endswith m "_mapper" && negb (String.eqb m "control").

(** The answer to the first yes/no question of a run; [false] when none
    was asked. *)
Fixpoint agreed (t : list io) : bool :=
  match t with
  | io_askyesno _ _ b :: _ => b
  | _ :: t' => agreed t'
  | [] => false
  end.

(** What the first choice dialog of a run returned. *)
Fixpoint selection (t : list io) : option string :=
  match t with
  | io_choice _ _ r :: _ => r
  | _ :: t' => selection t'
  | [] => None
  end.

(** The part of a record that follows the first choice dialog. *)
Fixpoint after_selection (t : list io) : list io :=
  match t with
  | io_choice _ _ _ :: t' => t'
  | _ :: t' => after_selection t'
  | [] => []
  end.

(** The part of a record that follows the first yes/no question. *)
Fixpoint after_question (t : list io) : list io :=
  match t with
  | io_askyesno _ _ _ :: t' => t'
  | _ :: t' => after_question t'
  | [] => []
  end.

(** The first listing of [/dev/mapper] in a record; empty when the
    directory was never listed. *)
Fixpoint mapper_listing (t : list io) : list string :=
  match t with
  | io_listdir p l :: t' =>
      if String.eqb p "/dev/mapper" then l else mapper_listing t'
  | _ :: t' => mapper_listing t'
  | [] => []
  end.

(** The open mappers a run observed first. *)
Definition mappers_seen (t : list io) : list string :=
  filter is_open_mapper (mapper_listing t).

(** Whether a run ended on its "Success" box. *)
Definition reports_success (t : list io) : bool :=
  existsb (fun e => match e with
                    | io_showinfo title _ => String.eqb title "Success"
                    | _ => false
                    end) t.

(** Whether an entry is a yes/no question. *)
Definition is_question (e : io) : bool :=
  match e with io_askyesno _ _ _ => true | _ => false end.

(** No yes/no question in a record. *)
Definition unasked (t : list io) : bool :=
  forallb (fun e => negb (is_question e)) t.

(** The lines and columns [_check_free_space] reads off the output of
    [df]: the second line, split at white space. *)
Definition df_lines (cp : CompletedProcess) : list string :=
  split_char (ascii_of_nat 10) (strip (stdout cp)).

Definition df_cols (cp : CompletedProcess) : list string :=
  split (nth 1 (df_lines cp) "").

(** The query failed, or its output has fewer than two lines or fewer
    than five columns. *)
Definition df_unusable (cp : CompletedProcess) : bool :=
  negb (returncode cp =? 0)%Z
  || (length (df_lines cp) <? 2)%nat
  || (length (df_cols cp) <? 5)%nat.

(** What a run told the user or the log about something going wrong: the
    error and warning boxes and the log lines above [INFO]. *)
Definition is_complaint (e : io) : bool :=
  match e with
  | io_showerror _ _ | io_showwarning _ _ => true
  | io_logging WARNING _ | io_logging ERROR _ => true
  | _ => false
  end.

Definition complaints (t : list io) : list io := filter is_complaint t.

(** [attempt cmds sp]: [sp] is what issuing [cmds] in order gives when
    the sequence stops at the first command that exits non-zero. *)
Inductive attempt : list (list string) -> list (list string * Z) -> Prop :=
| attempt_done : attempt [] []
| attempt_next c cs sp : attempt cs sp -> attempt (c :: cs) ((c, 0%Z) :: sp)
| attempt_stop c cs rc : rc <> 0%Z -> attempt (c :: cs) [(c, rc)].

(** The first command of a run that exited non-zero, with its position
    in the run. *)
Fixpoint first_failure (sp : list (list string * Z)) (i : nat)
  : option (nat * list string) :=
  match sp with
  | [] => None
  | (c, rc) :: sp' => if (rc =? 0)%Z then first_failure sp' (S i) else Some (i, c)
  end.

(** A rendering of exceptions for concrete runs: the exit status alone. *)
Definition plain_str_exn (e : exn) : string :=
  match e with
  | CalledProcessError rc _ _ => "exit status " ++ str_int rc
  | ValueError _ => "ValueError"
  | OverflowError => "OverflowError"
  end.

(** The configuration of the concrete runs. *)
Definition alice_app : SecureContainerApp :=
  {| partition_device := "/dev/sdb1";
     container_dir := "/mnt/data/containers";
     default_size := "100M";
     username := "alice" |}.

(** ** Concrete runs *)

(** The state before anything is unlocked: the data partition is mounted,
    no mapper is open. *)
Definition locked_world : Sim.world :=
  {| Sim.mappers := [];
     Sim.mounts := [("/dev/sdb1", "/mnt/data")];
     Sim.clock := 0 |}.

(** The same with [vault.img] unlocked and mounted. *)
Definition mounted_world : Sim.world :=
  {| Sim.mappers := ["vault_mapper"];
     Sim.mounts := [("/dev/sdb1", "/mnt/data");
                    ("/dev/mapper/vault_mapper", "/run/media/alice/vault")];
     Sim.clock := 0 |}.

(** Two mappers left over by an earlier session. *)
Definition leftover_world : Sim.world :=
  {| Sim.mappers := ["a_mapper"; "b_mapper"];
     Sim.mounts := [("/dev/sdb1", "/mnt/data");
                    ("/dev/mapper/b_mapper", "/run/media/alice/b")];
     Sim.clock := 0 |}.

Definition argv_eqb (a b : list string) : bool :=
  if list_eq_dec string_dec a b then true else false.

Definition head_is (cmd : string) (argv : list string) : bool :=
  match argv with
  | c :: _ => String.eqb c cmd
  | [] => false
  end.

(** What [df --block-size=1] prints for a file system with 5 GB free. *)
Definition df_report : string :=
  "Filesystem 1B-blocks Used Available Use% Mounted on" ++ nl
  ++ "/dev/sdb1 10000000000 5000000000 5000000000 50% /mnt/data" ++ nl.

(** A session in which the user answers every dialog (container [vault],
    size [100M]), every command succeeds, and the container directory
    holds [vault.img]. *)
Definition calm : Sim.scenario :=
  {| Sim.sc_exists := fun p => String.eqb p "/mnt/data/containers";
     Sim.sc_isdir := fun _ => true;
     Sim.sc_listdir := fun _ => ["vault.img"; "notes.txt"];
     Sim.sc_realpath := fun p => p;
     Sim.sc_makedirs := None;
     Sim.sc_status := fun _ => 0%Z;
     Sim.sc_stdout := fun argv =>
       if head_is "df" argv then df_report
       else if head_is "sudo" argv
       then "Mounted /dev/mapper/vault_mapper at /run/media/alice/vault." ++ nl
       else "";
     Sim.sc_yes := fun _ => true;
     Sim.sc_passphrase := Some "correct horse";
     Sim.sc_string := fun title =>
       if String.eqb title "Container Name" then Some "vault" else Some "100M";
     Sim.sc_choice := fun title =>
       if String.eqb title "Select Container to Mount" then Some "vault.img"
       else Some "vault_mapper";
     Sim.sc_mount_point := fun _ => "/run/media/alice/vault" |}.

(** [calm], except that the commands selected by [bad] exit with status
    [rc]. *)
Definition failing (bad : list string -> bool) (rc : Z) (sc : Sim.scenario)
  : Sim.scenario :=
  {| Sim.sc_exists := Sim.sc_exists sc;
     Sim.sc_isdir := Sim.sc_isdir sc;
     Sim.sc_listdir := Sim.sc_listdir sc;
     Sim.sc_realpath := Sim.sc_realpath sc;
     Sim.sc_makedirs := Sim.sc_makedirs sc;
     Sim.sc_status := fun argv => if bad argv then rc else Sim.sc_status sc argv;
     Sim.sc_stdout := Sim.sc_stdout sc;
     Sim.sc_yes := Sim.sc_yes sc;
     Sim.sc_passphrase := Sim.sc_passphrase sc;
     Sim.sc_string := Sim.sc_string sc;
     Sim.sc_choice := Sim.sc_choice sc;
     Sim.sc_mount_point := Sim.sc_mount_point sc |}.

(** A session in which the container directory does not exist yet. *)
Definition fresh_disk : Sim.scenario :=
  {| Sim.sc_exists := fun _ => false;
     Sim.sc_isdir := Sim.sc_isdir calm;
     Sim.sc_listdir := Sim.sc_listdir calm;
     Sim.sc_realpath := Sim.sc_realpath calm;
     Sim.sc_makedirs := Sim.sc_makedirs calm;
     Sim.sc_status := Sim.sc_status calm;
     Sim.sc_stdout := Sim.sc_stdout calm;
     Sim.sc_yes := fun _ => false;
     Sim.sc_passphrase := Sim.sc_passphrase calm;
     Sim.sc_string := Sim.sc_string calm;
     Sim.sc_choice := Sim.sc_choice calm;
     Sim.sc_mount_point := Sim.sc_mount_point calm |}.

(** A session on a container that was created under the name [my.data]:
    the mount manager mounts it at [/run/media/alice/my.data], which
    exists; [/run/media/alice/mydata] does not. *)
Definition dotted : Sim.scenario :=
  {| Sim.sc_exists := Sim.sc_exists calm;
     Sim.sc_isdir := fun p => negb (String.eqb p "/run/media/alice/mydata");
     Sim.sc_listdir := fun _ => ["my.data.img"];
     Sim.sc_realpath := Sim.sc_realpath calm;
     Sim.sc_makedirs := Sim.sc_makedirs calm;
     Sim.sc_status := Sim.sc_status calm;
     Sim.sc_stdout := fun argv =>
       if head_is "sudo" argv
       then "Mounted /dev/mapper/my.data_mapper at /run/media/alice/my.data."
            ++ nl
       else "";
     Sim.sc_yes := Sim.sc_yes calm;
     Sim.sc_passphrase := Sim.sc_passphrase calm;
     Sim.sc_string := Sim.sc_string calm;
     Sim.sc_choice := fun _ => Some "my.data.img";
     Sim.sc_mount_point := fun _ => "/run/media/alice/my.data" |}.

(** A run of a method of [alice_app] in a scenario. *)
Definition play {A : Type} (sc : Sim.scenario) (p : prog A) (w : Sim.world)
  : run A Sim.world :=
  exec (Sim.step (Sim.script_of sc)) p w.

(* ===================================================================== *)
(** * The rest of the program                                            *)
(* ===================================================================== *)

Section Listing.

Variable self : SecureContainerApp.

Definition list_containers : prog unit :=
  ok <- _verify_container_dir_on_partition self ;;
  if negb ok then Ret tt else
  d <- trigger (os_path_isdir (container_dir self)) ;;
  if negb d then
    trigger (showerror "Error"
               ("Container directory not found:" ++ nl ++ container_dir self))
  else
    all_files <- trigger (os_listdir (container_dir self)) ;;
    let containers :=
      filter (fun f => endswith f ".img" || endswith f ".luks") all_files in
    match containers with
    | _ :: _ => trigger (showinfo "Containers Found" (join nl containers))
    | [] => trigger (showinfo "Containers Found" "No container files found.")
    end.

(** [SecureContainerApp.__init__], past the construction of the widgets;
    [euid] is what [os.geteuid()] answers. *)
Definition __init__ (euid : Z) : prog unit :=
  (if negb (euid =? 0)%Z
   then trigger (showwarning "Privilege Warning"
          "Please run this script as root (sudo) for cryptsetup operations.")
   else Ret tt) ;;
  trigger (logging INFO "App started (V5).") ;;
  _startup_cleanup_check self.

End Listing.

(* ===================================================================== *)
(** * The passphrase dialog                                              *)
(* ===================================================================== *)

Module PasswordDialog.

(** The attributes of the dialog, the text of its two entries, and
    whether the window is gone.  Without [confirm] there is no second
    entry. *)
Record dialog : Type := {
  confirm : bool;
  passphrase : option string;
  entry_pass : string;
  entry_confirm : string;
  destroyed : bool
}.

Definition __init__ (confirm : bool) : dialog :=
  {| confirm := confirm;
     passphrase := None;
     entry_pass := "";
     entry_confirm := "";
     destroyed := false |}.

(** [_on_ok]: the dialog afterwards, and the box shown. *)
Definition _on_ok (d : dialog) : dialog * list io :=
  let p1 := entry_pass d in
  let accept :=
    ({| confirm := confirm d;
        passphrase := Some p1;
        entry_pass := entry_pass d;
        entry_confirm := entry_confirm d;
        destroyed := true |}, []) in
  if confirm d then
    let p2 := entry_confirm d in
    if negb (String.eqb p1 p2)
    then (d, [io_showerror "Error" "Passphrases do not match."])
    else accept
  else accept.

Definition _on_cancel (d : dialog) : dialog :=
  {| confirm := confirm d;
     passphrase := None;
     entry_pass := entry_pass d;
     entry_confirm := entry_confirm d;
     destroyed := true |}.

(** What the user can do while the dialog is up: replace the text of an
    entry, press a button, or close the window. *)
Inductive gesture : Type :=
| Type_passphrase (s : string)
| Type_confirmation (s : string)
| Press_ok
| Press_cancel
| Close_window.

Definition react (d : dialog) (g : gesture) : dialog * list io :=
  match g with
  | Type_passphrase s =>
      ({| confirm := confirm d;
          passphrase := passphrase d;
          entry_pass := s;
          entry_confirm := entry_confirm d;
          destroyed := destroyed d |}, [])
  | Type_confirmation s =>
      ({| confirm := confirm d;
          passphrase := passphrase d;
          entry_pass := entry_pass d;
          entry_confirm := if confirm d then s else entry_confirm d;
          destroyed := destroyed d |}, [])
  | Press_ok => _on_ok d
  | Press_cancel => (_on_cancel d, [])
  | Close_window =>
      ({| confirm := confirm d;
          passphrase := passphrase d;
          entry_pass := entry_pass d;
          entry_confirm := entry_confirm d;
          destroyed := true |}, [])
  end.

(** [wait_window]: Tk hands each gesture to the dialog until the window
    is destroyed. *)
Fixpoint wait_window (d : dialog) (gestures : list gesture) : dialog * list io :=
  if destroyed d then (d, [])
  else match gestures with
       | [] => (d, [])
       | g :: rest =>
           let (d1, shown) := react d g in
           let (d2, shown') := wait_window d1 rest in
           (d2, (shown ++ shown')%list)
       end.

(** [ask_passphrase]: what the caller gets once the window is gone;
    [None] while the dialog is still up. *)
Definition ask_passphrase (confirm : bool) (gestures : list gesture)
  : option (option string) :=
  let (dlg, _) := wait_window (__init__ confirm) gestures in
  if destroyed dlg then Some (passphrase dlg) else None.

End PasswordDialog.

(* ===================================================================== *)
(** * More vocabulary                                                    *)
(* ===================================================================== *)

(** The filter of [_get_container_files] and [list_containers]. *)
Definition is_container_file (f : string) : bool :=
  endswith f ".img" || endswith f ".luks".

(** What each child process of a record was given on its standard
    input. *)
Fixpoint fed (t : list io) : list (list string * option string) :=
  match t with
  | io_spawn argv input _ _ :: t' => (argv, input) :: fed t'
  | _ :: t' => fed t'
  | [] => []
  end.

(** What the first passphrase dialog of a run returned. *)
Fixpoint passphrase_given (t : list io) : option string :=
  match t with
  | io_passphrase _ _ r :: _ => r
  | _ :: t' => passphrase_given t'
  | [] => None
  end.

(** What the string dialogs of a run returned, in order. *)
Fixpoint typed (t : list io) : list (option string) :=
  match t with
  | io_string _ _ _ r :: t' => r :: typed t'
  | _ :: t' => typed t'
  | [] => []
  end.

(** No mount record is left on a mapper that is not open. *)
Definition consistent (o : list string * list (string * string)) : Prop :=
  forall m p, In ("/dev/mapper/" ++ m, p) (snd o) -> In m (fst o).

(** Code-point order on strings. *)
Definition le_str (a b : string) : Prop := String.leb a b = true.

(** The existence tests of a run, in order, with their answers. *)
Fixpoint existence (t : list io) : list (string * bool) :=
  match t with
  | io_exists p b :: t' => (p, b) :: existence t'
  | _ :: t' => existence t'
  | [] => []
  end.

(** An entry that asks the user nothing and shows no information box. *)
Definition is_silent (e : io) : bool :=
  match e with
  | io_askyesno _ _ _ | io_passphrase _ _ _ | io_string _ _ _ _
  | io_choice _ _ _ | io_showinfo _ _ => false
  | _ => true
  end.

Definition silent (t : list io) : bool := forallb is_silent t.

(** What the commands of [create_container] are given on their
    standard input: the passphrase goes to [luksFormat] and [open]. *)
Definition create_feed (name size_str container_path pass : string)
  : list (list string * option string) :=
  combine (create_commands name size_str container_path)
          [None; Some (pass ++ nl); Some (pass ++ nl); None; None; None].

(** A float that holds the positive whole number [n] exactly: its
    exponent is not positive. *)
Definition holds (x : spec_float) (n : Z) : Prop :=
  exists m k, x = S754_finite false m (- Z.of_nat k)
              /\ Zpos m = (n * 2 ^ Z.of_nat k)%Z.

(** Whether every character of a string passes a test. *)
Fixpoint all_chars (P : ascii -> bool) (s : string) : bool :=
  match s with
  | EmptyString => true
  | String c r => P c && all_chars P r
  end.

(** The multiplier [_parse_size_to_bytes] takes for a suffix, in either
    case; no suffix means bytes. *)
Definition size_unit (suffix : string) : option Z :=
  if String.eqb suffix "" then Some 1%Z
  else if String.eqb suffix "K" || String.eqb suffix "k" then Some 1024%Z
  else if String.eqb suffix "M" || String.eqb suffix "m" then Some (1024 ^ 2)%Z
  else if String.eqb suffix "G" || String.eqb suffix "g" then Some (1024 ^ 3)%Z
  else None.

(** The selection dialogs of a run: title and options offered. *)
Fixpoint offered (t : list io) : list (string * list string) :=
  match t with
  | io_choice title options _ :: t' => (title, options) :: offered t'
  | _ :: t' => offered t'
  | [] => []
  end.

(** A session in which every path tested exists. *)
Definition occupied : Sim.scenario :=
  {| Sim.sc_exists := fun _ => true;
     Sim.sc_isdir := Sim.sc_isdir calm;
     Sim.sc_listdir := Sim.sc_listdir calm;
     Sim.sc_realpath := Sim.sc_realpath calm;
     Sim.sc_makedirs := Sim.sc_makedirs calm;
     Sim.sc_status := Sim.sc_status calm;
     Sim.sc_stdout := Sim.sc_stdout calm;
     Sim.sc_yes := Sim.sc_yes calm;
     Sim.sc_passphrase := Sim.sc_passphrase calm;
     Sim.sc_string := Sim.sc_string calm;
     Sim.sc_choice := Sim.sc_choice calm;
     Sim.sc_mount_point := Sim.sc_mount_point calm |}.

(** The questions of the two sweeps, as the source words them. *)
Definition startup_question (leftover : list string) : string :=
  ("Found leftover open containers:" ++ nl ++ nl ++ join nl leftover)
  ++ nl ++ nl ++ "Close them now?".

Definition exit_question (leftover : list string) : string :=
  ("Still-open containers:" ++ nl ++ nl ++ join nl leftover)
  ++ nl ++ nl ++ "Unmount + close them now?".

(** The command lines that start [cryptsetup open] and
    [cryptsetup -q luksFormat]. *)
Definition takes_passphrase (argv : list string) : bool :=
  match argv with
  | a :: b :: c :: _ =>
      String.eqb a "cryptsetup"
      && (String.eqb b "open" || (String.eqb b "-q" && String.eqb c "luksFormat"))
  | _ => false
  end.

(** An environment that answers from a fixed mount table: every path
    exists and is its own real path, [/proc/mounts] reads [lines], every
    command exits with status zero and every dialog is declined. *)
Definition reading (lines : list string) : handler unit :=
  fun X ev w =>
    (match ev in event X return X with
     | os_path_exists _ => true
     | os_path_isdir _ => true
     | os_listdir _ => []
     | os_makedirs _ => None
     | os_path_realpath p => p
     | read_lines _ => lines
     | spawn _ _ _ => {| returncode := 0; stdout := "" |}
     | showerror _ _ | showinfo _ _ | showwarning _ _ => tt
     | askyesno _ _ => false
     | passphrase_dialog _ _ => None
     | string_dialog _ _ _ => None
     | choice_dialog _ _ => None
     | logging _ _ => tt
     | destroy => tt
     end, w).

(** The data partition mounted at [/mnt/my data], and the container
    directory under it.  In [/proc/mounts] the kernel writes a space of a
    mount point as a backslash and the octal digits 040. *)
Definition spaced_app : SecureContainerApp :=
  {| partition_device := "/dev/sdb1";
     container_dir := "/mnt/my data/containers";
     default_size := "100M";
     username := "alice" |}.

Definition spaced_mounts : list string :=
  ["/dev/sda2 / ext4 rw,relatime 0 0" ++ nl;
   "/dev/sdb1 /mnt/my\040data ext4 rw,relatime 0 0" ++ nl].

(** ** Another passphrase in the same environment *)

(** An entry of a record with the secret blanked: the passphrase a
    dialog returned and the standard input of a child process. *)
Definition redact (e : io) : io :=
  match e with
  | io_spawn argv input capture cp =>
      io_spawn argv (option_map (fun _ => "") input) capture cp
  | io_passphrase title confirm r =>
      io_passphrase title confirm (option_map (fun _ => "") r)
  | _ => e
  end.

(** The environment [h], except that a passphrase dialog returns [g p]
    where [h] has it return [p]. *)
Definition retyped {W : Type} (g : string -> string) (h : handler W)
  : handler W :=
  fun X ev w =>
    match ev in event X return X * W -> X * W with
    | passphrase_dialog _ _ => fun a => (option_map g (fst a), snd a)
    | _ => fun a => a
    end (h X ev w).

(** An event that neither returns a passphrase nor carries a standard
    input. *)
Definition open_event {X : Type} (ev : event X) : bool :=
  match ev with
  | passphrase_dialog _ _ => false
  | spawn _ (Some _) _ => false
  | _ => true
  end.

(** Another passphrase for every passphrase that is not empty. *)
Definition other_words (p : string) : string :=
  if is_empty p then "" else "battery staple".

(** Two programs that do the same, event for event, when the second is
    given [g p] wherever the first is given the passphrase [p]: they may
    differ in the standard input of their child processes only. *)
Inductive related (g : string -> string) {A : Type}
  : prog A -> prog A -> Prop :=
| related_ret a : related g (Ret a) (Ret a)
| related_raise e : related g (Raise e) (Raise e)
| related_vis X (ev : event X) k k' :
    open_event ev = true ->
    (forall x, related g (k x) (k' x)) ->
    related g (Vis ev k) (Vis ev k')
| related_pass title confirm k k' :
    (forall x, related g (k x) (k' (option_map g x))) ->
    related g (Vis (passphrase_dialog title confirm) k)
              (Vis (passphrase_dialog title confirm) k')
| related_fed argv i i' capture k k' :
    (forall cp, related g (k cp) (k' cp)) ->
    related g (Vis (spawn argv (Some i) capture) k)
              (Vis (spawn argv (Some i') capture) k').

(* ===================================================================== *)
(** * Reasoning about runs                                               *)
(* ===================================================================== *)

(** Running [p] and then [f]: the records are concatenated, and an
    exception of [p] ends the run. *)
Lemma exec_bind {W A B : Type} (h : handler W) (p : prog A) (f : A -> prog B)
    (w : W) :
  exec h (bind p f) w =
  match result (exec h p w) with
  | Returned a =>
      {| result := result (exec h (f a) (final (exec h p w)));
         final := final (exec h (f a) (final (exec h p w)));
         trace := (trace (exec h p w)
                   ++ trace (exec h (f a) (final (exec h p w))))%list |}
  | Raised e =>
      {| result := Raised e;
         final := final (exec h p w);
         trace := trace (exec h p w) |}
  end.
Proof.
  revert w. induction p as [a|e|X ev k IH]; intros w;
    cbn [bind exec result final trace].
  - destruct (exec h (f a) w); reflexivity.
  - reflexivity.
  - destruct (h X ev w) as [x w']. rewrite IH.
    cbn [after result final trace].
    destruct (result (exec h (k x) w')); reflexivity.
Qed.

(** The child processes of two records put end to end. *)
Lemma spawned_app (t1 t2 : list io) :
  spawned (t1 ++ t2)%list = (spawned t1 ++ spawned t2)%list.
Proof.
  induction t1 as [|e t1 IH]; [reflexivity|].
  destruct e; cbn [spawned app]; rewrite IH; reflexivity.
Qed.

Lemma commands_app (t1 t2 : list io) :
  commands (t1 ++ t2)%list = (commands t1 ++ commands t2)%list.
Proof. unfold commands. rewrite spawned_app, map_app. reflexivity. Qed.

(** Symbolic execution: unfold the plumbing, then split on the next
    answer of the environment or on the next test of the program. *)
Ltac norm :=
  cbn [exec bind catch trigger lift after result final trace negb andb orb
       subprocess_run subprocess_check_output ask_passphrase _ask_for_string
       _ask_user_choice option_map].

Ltac exec_step h :=
  norm;
  match goal with
  | |- context [h ?X ?ev ?w] =>
      let x := fresh "x" in
      let w' := fresh "w" in
      destruct (h X ev w) as [x w']
  | |- context [exec h ?p _] =>
      match p with
      | context [lift ?d] => destruct d eqn:?
      | context [match ?d with _ => _ end] => destruct d eqn:?
      end
  end.

(** The run is set aside while it is executed, so that a statement that
    mentions it several times is not executed several times. *)
Ltac symex h :=
  match goal with
  | |- context [exec h ?p ?w] =>
      pattern (exec h p w);
      match goal with
      | |- ?P _ =>
          let Q := fresh "Q" in
          set (Q := P); repeat exec_step h; norm; subst Q; cbv beta;
          cbn [after result final trace]
      end
  end.

Ltac negbs :=
  repeat match goal with
    | H : negb _ = true |- _ => apply negb_true_iff in H
    | H : negb _ = false |- _ => apply negb_false_iff in H
    end.

(** Membership in an explicit list. *)
Ltac in_list := cbn [In]; repeat (first [left; reflexivity | right]).

(** Exit-status tests, as equations. *)
Ltac statuses :=
  repeat match goal with
    | H : negb _ = true |- _ => apply negb_true_iff in H
    | H : negb _ = false |- _ => apply negb_false_iff in H
    | H : (_ =? 0)%Z = true |- _ => apply Z.eqb_eq in H
    | H : (_ =? 0)%Z = false |- _ => apply Z.eqb_neq in H
    end.

(** Unfolding of the observers on an explicit record: in the goal, and
    everywhere. *)
Ltac observe_goal :=
  unfold mappers_seen, commands, complaints, logged;
  cbn [spawned map fst record agreed filter is_complaint is_logging
       mapper_listing String.eqb Ascii.eqb Bool.eqb app].

Ltac observe :=
  unfold mappers_seen, commands, complaints, logged, dialogs, is_open_mapper in *;
  cbn [spawned map fst record agreed filter is_complaint is_logging is_dialog
       selection after_selection after_question
       mapper_listing String.eqb Ascii.eqb Bool.eqb app] in *.

(** The effect of the child processes of a record on the two tables,
    and what a faithful record says. *)
Ltac sim_effects :=
  unfold Sim.apply, Sim.effect in *;
  cbn [spawned record fold_left fst snd Sim.classify String.eqb Ascii.eqb
       Bool.eqb andb Sim.faithful] in *;
  repeat match goal with
    | H : (returncode ?x =? 0)%Z = _ |- _ => rewrite !H in *; clear H
    end;
  cbn [spawned record fold_left fst snd Sim.classify String.eqb Ascii.eqb
       Bool.eqb andb Sim.faithful] in *.

Ltac sim_facts :=
  repeat match goal with
    | H : _ /\ _ |- _ => destruct H
    | H : ?a = ?a -> _ |- _ => specialize (H eq_refl)
    end.

(* ===================================================================== *)
(** * Strings, lists and records                                         *)
(* ===================================================================== *)

(** [endswith] on a string built by appending the suffix. *)
Lemma substring_all (b : string) : substring 0 (String.length b) b = b.
Proof. induction b as [|c b IH]; [reflexivity|]. cbn. rewrite IH. reflexivity. Qed.

Lemma substring_skip (a b : string) :
  substring (String.length a) (String.length b) (a ++ b) = b.
Proof. induction a as [|c a IH]; cbn; [apply substring_all | exact IH]. Qed.

Lemma length_app (a b : string) :
  String.length (a ++ b) = String.length a + String.length b.
Proof. induction a as [|c a IH]; cbn; [reflexivity | rewrite IH; reflexivity]. Qed.

Lemma endswith_app (a b : string) : endswith (a ++ b) b = true.
Proof.
  unfold endswith. rewrite length_app.
  replace (String.length a + String.length b - String.length b)
    with (String.length a) by lia.
  rewrite substring_skip, String.eqb_refl, andb_true_r.
  apply Nat.leb_le. lia.
Qed.

(** A name of the form [<base>_mapper] passes the filter of
    [_detect_open_mappers]. *)
Lemma mapper_name_is_open_mapper (base : string) :
  is_open_mapper (base ++ "_mapper") = true.
Proof.
  unfold is_open_mapper. rewrite endswith_app. cbn [andb].
  apply negb_true_iff, String.eqb_neq. intros H.
  assert (L := f_equal String.length H).
  rewrite length_app in L. cbn in L.
  destruct base; [discriminate H | cbn in L; lia].
Qed.

(** [mem] against [In]. *)
Lemma mem_false_not_in (x : string) (l : list string) :
  mem x l = false -> ~ In x l.
Proof.
  unfold mem. intros H I.
  assert (E : existsb (String.eqb x) l = true).
  { apply existsb_exists. exists x. split; [exact I | apply String.eqb_refl]. }
  congruence.
Qed.

Lemma mem_true_in (x : string) (l : list string) :
  mem x l = true -> In x l.
Proof.
  unfold mem. intros H. apply existsb_exists in H.
  destruct H as (y & I & E). apply String.eqb_eq in E. subst. exact I.
Qed.

(** Absent from the open mappers seen, while named like one: absent from
    the listing. *)
Lemma unseen_mapper_absent (base : string) (l : list string) :
  mem (base ++ "_mapper") (filter is_open_mapper l) = false ->
  ~ In (base ++ "_mapper") l.
Proof.
  intros H I. apply (mem_false_not_in _ _ H).
  apply filter_In. split; [exact I | apply mapper_name_is_open_mapper].
Qed.

(** A fresh name at the end keeps a list free of duplicates. *)
Lemma NoDup_snoc (x : string) (l : list string) :
  NoDup l -> ~ In x l -> NoDup (l ++ [x]).
Proof.
  intros ND NI. apply NoDup_app; [exact ND | repeat constructor; intros [] | ].
  intros y Hy [E|[]]. subst. tauto.
Qed.

(** Closing what was opened last, and unmounting what was mounted last,
    give back the tables of before. *)
Lemma remove_mapper_snoc (m : string) (ms : list string) :
  ~ In m ms -> Sim.remove_mapper m (ms ++ [m]) = ms.
Proof.
  intros NI. unfold Sim.remove_mapper. rewrite filter_app. cbn.
  rewrite String.eqb_refl. cbn. rewrite app_nil_r.
  apply forallb_filter_id, forallb_forall. intros x Hx.
  apply negb_true_iff, String.eqb_neq. intros ->. tauto.
Qed.

Lemma remove_mounts_snoc (dev p : string) (mt : list (string * string)) :
  (forall q, ~ In (dev, q) mt) -> Sim.remove_mounts dev (mt ++ [(dev, p)]) = mt.
Proof.
  intros NI. unfold Sim.remove_mounts. rewrite filter_app. cbn.
  rewrite String.eqb_refl. cbn. rewrite app_nil_r.
  apply forallb_filter_id, forallb_forall. intros [d q] Hx. cbn.
  apply negb_true_iff, String.eqb_neq. intros ->. exact (NI q Hx).
Qed.

(** The filter of [_detect_open_mappers] is [is_open_mapper]. *)
Lemma filter_open_mapper (l : list string) :
  filter (fun m => endswith m "_mapper" && negb (String.eqb m "control")) l
  = filter is_open_mapper l.
Proof. reflexivity. Qed.

(** When [any] answers [False], every mount point failed the test. *)
Lemma any_commonpath_false (l : list string) (real : string) :
  any_commonpath l real = inr false ->
  forall mnt, In mnt l -> commonpath2 mnt real <> Some mnt.
Proof.
  induction l as [|m l IH]; intros H mnt I; [destruct I|].
  cbn [any_commonpath] in H.
  destruct (commonpath2 m real) as [c|] eqn:E; [|discriminate].
  destruct (String.eqb c m) eqn:Ec; [discriminate|].
  destruct I as [<-|I]; [|exact (IH H mnt I)].
  rewrite E. intros X. inversion X; subst.
  rewrite String.eqb_refl in Ec. discriminate.
Qed.

(** A record without a question can be skipped when looking for what
    follows the first question. *)
Lemma after_question_app (t1 t2 : list io) :
  unasked t1 = true -> after_question (t1 ++ t2)%list = after_question t2.
Proof.
  induction t1 as [|e t1 IH]; intros H; [reflexivity|].
  cbn [unasked forallb] in H. apply andb_true_iff in H. destruct H as [He H].
  destruct e; try discriminate He; cbn [app after_question]; apply IH; exact H.
Qed.

(** A child process of the record is among the processes started. *)
Lemma in_spawned (argv : list string) (input : option string) (capture : bool)
    (cp : CompletedProcess) (t : list io) :
  In (io_spawn argv input capture cp) t -> In (argv, returncode cp) (spawned t).
Proof.
  induction t as [|e t IH]; intros H; [destruct H|].
  destruct H as [->|H]; [left; reflexivity|].
  destruct e; cbn [spawned]; try right; auto.
Qed.

(** In a sequence that stops at the first failure, the failing command is
    the last one issued, and the ones before it are the commands of the
    sequence in order, all with status zero. *)
Lemma attempt_first_failure (cmds : list (list string))
    (sp : list (list string * Z)) :
  attempt cmds sp ->
  forall k i c,
    first_failure sp k = Some (i, c) ->
    exists j rc,
      i = k + j /\
      nth_error cmds j = Some c /\
      rc <> 0%Z /\
      map fst sp = firstn (S j) cmds /\
      sp = (map (fun c' => (c', 0%Z)) (firstn j cmds) ++ [(c, rc)])%list.
Proof.
  induction 1 as [|c0 cs sp A IH|c0 cs rc Hrc]; intros k i c F.
  - discriminate F.
  - cbn [first_failure Z.eqb] in F.
    destruct (IH _ _ _ F) as (j & rc & -> & N & Hrc & M & E).
    exists (S j), rc.
    split; [lia|]. split; [exact N|]. split; [exact Hrc|]. split.
    + cbn [map fst firstn]. rewrite M. reflexivity.
    + cbn [firstn map app]. rewrite E. reflexivity.
  - cbn [first_failure] in F.
    destruct (rc =? 0)%Z eqn:E; [apply Z.eqb_eq in E; contradiction|].
    inversion F; subst. exists 0, rc. repeat split; auto.
Qed.

(** ** What the [commonpath] test means *)

(** [split_char] and [join] on pieces that do not hold the separator. *)
Lemma split_char_pieces (c : ascii) (p : string) :
  Forall (fun x => has_char c x = false) (split_char c p).
Proof.
  induction p as [|a r IH]; cbn [split_char].
  - repeat constructor.
  - destruct (Ascii.eqb a c) eqn:E.
    + constructor; [reflexivity | exact IH].
    + destruct (split_char c r) as [|x t].
      * repeat constructor. cbn. rewrite E. reflexivity.
      * inversion IH; subst. constructor; [|assumption].
        cbn. rewrite E. assumption.
Qed.

Lemma split_char_whole (c : ascii) (a : string) :
  has_char c a = false -> split_char c a = [a].
Proof.
  induction a as [|x a IH]; intros H; [reflexivity|].
  cbn in H. apply orb_false_iff in H. destruct H as [Hx Ha].
  cbn [split_char]. rewrite Hx, (IH Ha). reflexivity.
Qed.

Lemma split_char_sep (c : ascii) (a b : string) :
  has_char c a = false ->
  split_char c (a ++ String c b) = a :: split_char c b.
Proof.
  induction a as [|x a IH]; intros H.
  - cbn. rewrite Ascii.eqb_refl. reflexivity.
  - cbn in H. apply orb_false_iff in H. destruct H as [Hx Ha].
    cbn [append split_char]. rewrite Hx, (IH Ha). reflexivity.
Qed.

Lemma split_char_join (l : list string) :
  l <> [] ->
  Forall (fun x => has_char "/" x = false) l ->
  split_char "/" (join "/" l) = l.
Proof.
  induction l as [|x l IH]; intros NE F; [contradiction|].
  inversion F as [|? ? Hx Fl]; subst.
  destruct l as [|y l].
  - cbn. apply split_char_whole. exact Hx.
  - change (join "/" (x :: y :: l)) with (x ++ String "/" (join "/" (y :: l))).
    rewrite split_char_sep by exact Hx.
    rewrite IH; [reflexivity | discriminate | exact Fl].
Qed.

(** The components of a path hold no [/], are not empty and are not
    [.]; so do those of a common prefix. *)
Lemma components_good (p : string) :
  Forall (fun x => has_char "/" x = false /\ is_component x = true)
         (components p).
Proof.
  unfold components. apply Forall_forall. intros x Hx.
  apply filter_In in Hx. destruct Hx as [Hx Hc]. split; [|exact Hc].
  exact (proj1 (Forall_forall _ _) (split_char_pieces "/" p) x Hx).
Qed.

Lemma common_prefix_good (P : string -> Prop) (a b : list string) :
  Forall P a -> Forall P (common_prefix a b).
Proof.
  revert b. induction a as [|x a IH]; intros b F; [constructor|].
  inversion F; subst. destruct b as [|y b]; [constructor|].
  cbn. destruct (String.eqb x y); [constructor; auto | constructor].
Qed.

(** A list that is its own common prefix with another starts the
    other. *)
Lemma common_prefix_whole (a b : list string) :
  common_prefix a b = a -> exists rest, b = (a ++ rest)%list.
Proof.
  revert b. induction a as [|x a IH]; intros b H; [exists b; reflexivity|].
  destruct b as [|y b]; [discriminate H|].
  cbn in H. destruct (String.eqb x y) eqn:E; [|discriminate H].
  apply String.eqb_eq in E. subst y. inversion H as [H'].
  destruct (IH _ H') as (rest & ->). exists rest. rewrite H'. reflexivity.
Qed.

(** Joining components and splitting again gives the components back. *)
Lemma components_of_joined (absolute : bool) (l : list string) :
  Forall (fun x => has_char "/" x = false /\ is_component x = true) l ->
  components ((if absolute then "/" else "") ++ join "/" l) = l.
Proof.
  intros F.
  assert (G : filter is_component l = l).
  { apply forallb_filter_id, forallb_forall. intros x Hx.
    exact (proj2 (proj1 (Forall_forall _ _) F x Hx)). }
  assert (S : l <> [] -> split_char "/" (join "/" l) = l).
  { intros NE. apply split_char_join; [exact NE|].
    apply Forall_forall. intros x Hx.
    exact (proj1 (proj1 (Forall_forall _ _) F x Hx)). }
  unfold components. fold is_component.
  destruct l as [|x l].
  - destruct absolute; reflexivity.
  - destruct absolute.
    + change ("/" ++ join "/" (x :: l)) with (String "/" (join "/" (x :: l))).
      cbn [split_char]. rewrite Ascii.eqb_refl, S by discriminate.
      cbn [filter is_component is_empty negb andb]. exact G.
    + change ("" ++ join "/" (x :: l)) with (join "/" (x :: l)).
      rewrite S by discriminate. exact G.
Qed.

(** A mount point that passes the test of
    [_verify_container_dir_on_partition] is, component by component, a
    prefix of the real path of the directory. *)
Lemma commonpath_under (mnt real : string) :
  commonpath2 mnt real = Some mnt ->
  exists rest, components real = (components mnt ++ rest)%list.
Proof.
  unfold commonpath2. intros H.
  destruct (Bool.eqb (startswith mnt "/") (startswith real "/"));
    [|discriminate H].
  injection H as E.
  apply common_prefix_whole.
  set (cp := common_prefix (components mnt) (components real)) in *.
  assert (C : components ((if startswith mnt "/" then "/" else "")
                          ++ join "/" cp) = cp).
  { apply components_of_joined, common_prefix_good, components_good. }
  rewrite E in C. symmetry. exact C.
Qed.

(* ===================================================================== *)
(** * Facts about simulated runs                                         *)
(* ===================================================================== *)

Section SimFacts.

Variable s : Sim.script.

(** The tables after a run are the tables before it, changed by the
    child processes of the run, in order. *)
Lemma sim_frame {A : Type} (p : prog A) (w : Sim.world) :
  Sim.observed (final (exec (Sim.step s) p w))
  = fold_left (Sim.apply (Sim.mount_point s))
              (spawned (trace (exec (Sim.step s) p w))) (Sim.observed w).
Proof.
  revert w. induction p as [a|e|X ev k IH]; intros w; try reflexivity.
  destruct ev; cbn [exec Sim.step after final trace record spawned fold_left];
    rewrite IH; try reflexivity.
  unfold Sim.observed at 2. cbn [Sim.mappers Sim.mounts fst snd].
  destruct (Sim.apply _ _ _); reflexivity.
Qed.

(** Every record of a simulated run is faithful to the tables. *)
Lemma sim_faithful {A : Type} (p : prog A) (w : Sim.world) :
  Sim.faithful (Sim.mount_point s) (Sim.observed w)
               (trace (exec (Sim.step s) p w)).
Proof.
  revert w. induction p as [a|e|X ev k IH]; intros w; try exact I.
  destruct ev;
    cbn [exec Sim.step after final trace record Sim.faithful];
    try apply (IH _ {| Sim.mappers := Sim.mappers w;
                       Sim.mounts := Sim.mounts w;
                       Sim.clock := S (Sim.clock w) |}).
  - split; [intros ->; reflexivity|].
    apply (IH _ {| Sim.mappers := Sim.mappers w;
                   Sim.mounts := Sim.mounts w;
                   Sim.clock := S (Sim.clock w) |}).
  - split; [intros ->; reflexivity|].
    apply (IH _ {| Sim.mappers := Sim.mappers w;
                   Sim.mounts := Sim.mounts w;
                   Sim.clock := S (Sim.clock w) |}).
  - split; [intros ->; reflexivity|].
    apply (IH _ {| Sim.mappers := Sim.mappers w;
                   Sim.mounts := Sim.mounts w;
                   Sim.clock := S (Sim.clock w) |}).
  - match goal with
    | |- Sim.faithful _ ?o (trace (exec _ _ ?w')) =>
        replace o with (Sim.observed w');
        [apply IH | unfold Sim.observed; cbn [Sim.mappers Sim.mounts];
                    symmetry; apply surjective_pairing]
    end.
Qed.

End SimFacts.

(* ===================================================================== *)
(** * Size parsing                                                       *)
(* ===================================================================== *)

(** [float] rounds to the nearest binary64, ties to even. *)
Example float_tenth :
  float_of_str "0.1" = inr (S754_finite false 7205759403792794 (-56)).
Proof. vm_compute. reflexivity. Qed.

Example float_1e23 :
  float_of_str "1e23" = inr (S754_finite false 5960464477539062 24).
Proof. vm_compute. reflexivity. Qed.

Example float_halfway :
  float_of_str "9007199254740993" = inr (S754_finite false 4503599627370496 1).
Proof. vm_compute. reflexivity. Qed.

(** The one exception of [float] is [ValueError]. *)
Lemma float_raises_value_error (s : string) (e : exn) :
  float_of_str s = inl e -> exists v, e = ValueError v.
Proof.
  unfold float_of_str.
  destruct (parse_float s) as [[neg| |neg m x]|]; intros H;
    inversion H; subst. eexists. reflexivity.
Qed.

(** X3: A text that [float] rejects, with and without its last character,
    is reported as [None]: the function raises nothing on it. *)
Lemma size_without_number (s : string) (e1 e2 : exn) :
  float_of_str (upper (strip s)) = inl e1 ->
  float_of_str (drop_last (upper (strip s))) = inl e2 ->
  _parse_size_to_bytes s = inr None.
Proof.
  intros H1 H2. unfold _parse_size_to_bytes.
  destruct (float_raises_value_error _ _ H1) as (v1 & ->).
  destruct (float_raises_value_error _ _ H2) as (v2 & ->).
  destruct (endswith _ "G"); [rewrite H2; reflexivity|].
  destruct (endswith _ "M"); [rewrite H2; reflexivity|].
  destruct (endswith _ "K"); [rewrite H2; reflexivity|].
  rewrite H1. reflexivity.
Qed.

(** C8: ["500M"] is 524288000 bytes, ["2G"] is 2147483648 bytes, and
    ["abc"], which holds no number, parses to [None]; the free-space check
    then reports an invalid size and answers [False] without querying
    [df]. *)
Theorem size_parsing_examples :
  _parse_size_to_bytes "500M" = inr (Some 524288000%Z) /\
  _parse_size_to_bytes "2G" = inr (Some 2147483648%Z) /\
  _parse_size_to_bytes "abc" = inr None /\
  forall (str_exn : exn -> string) (W : Type) (h : handler W) (w : W)
         (directory : string),
    result (exec h (_check_free_space str_exn directory "abc") w)
      = Returned false /\
    trace (exec h (_check_free_space str_exn directory "abc") w)
      = [io_showerror "Error" "Invalid size format: abc"].
Proof.
  repeat split; try (vm_compute; reflexivity).
  all: unfold _check_free_space;
    change (_parse_size_to_bytes "abc") with (@inr exn _ (@None Z));
    repeat exec_step h; reflexivity.
Qed.

(** Fractions and exponents go through binary64, as in Python. *)
Example size_fraction : _parse_size_to_bytes "0.1G" = inr (Some 107374182%Z).
Proof. vm_compute. reflexivity. Qed.

(** [float] accepts ["nan"] and ["inf"]; the conversion to [int] that
    follows is outside the [try], and what it raises leaves the
    function. *)
Example size_nan : _parse_size_to_bytes "nan" = inl (ValueError NanToInt).
Proof. vm_compute. reflexivity. Qed.

Example size_inf : _parse_size_to_bytes "inf" = inl OverflowError.
Proof. vm_compute. reflexivity. Qed.

(* ===================================================================== *)
(** * The mount-path parser                                              *)
(* ===================================================================== *)

(** The confirmation line of the documentation. *)
Lemma mount_path_documented :
  mount_path_of "Mounted /dev/mapper/foo_mapper at /run/media/alice/foo."
  = Some "/run/media/alice/foo".
Proof. vm_compute. reflexivity. Qed.

(** Without [" at "] there is no path, and no exception either. *)
Lemma mount_path_unparseable (stdout : string) :
  contains stdout " at " = false -> mount_path_of stdout = None.
Proof. intros H. unfold mount_path_of. rewrite H. reflexivity. Qed.

(** C6, at the input where the code departs from it: the line
    [udisksctl] prints for a container named [my.data].  The parser
    removes every period, not only the final one, and yields a path that
    is not the mount point. *)
Theorem mount_path_loses_inner_periods :
  mount_path_of
    "Mounted /dev/mapper/my.data_mapper at /run/media/alice/my.data."
  = Some "/run/media/alice/mydata".
Proof. vm_compute. reflexivity. Qed.

(** In [mount_container] the same line leaves the mount point with its
    owner unchanged: unlock and mount succeed, the path without its
    periods is not a directory, [chown] is not run, and the user is told
    that the path could not be parsed. *)
Example dotted_name_is_not_chowned :
  let r := play dotted (mount_container plain_str_exn alice_app) locked_world in
  spawned (trace r)
  = [(open_argv "/mnt/data/containers/my.data.img" "my.data_mapper", 0%Z);
     (mount_argv alice_app "my.data_mapper", 0%Z)] /\
  Sim.mounts (final r)
  = [("/dev/sdb1", "/mnt/data");
     ("/dev/mapper/my.data_mapper", "/run/media/alice/my.data")] /\
  dialogs (trace r)
  = [io_showwarning "Mount Path Not Found"
       ("Mount likely succeeded, but couldn't parse path from:" ++ nl
        ++ "Mounted /dev/mapper/my.data_mapper at /run/media/alice/my.data.")].
Proof. vm_compute. repeat split; reflexivity. Qed.

(* ===================================================================== *)
(** * Validation of the container directory                              *)
(* ===================================================================== *)

Section Validation.

Variable str_exn : exn -> string.
Variable self : SecureContainerApp.
Variable W : Type.
Variable h : handler W.

(** The validation, in every environment: how its record starts, that
    it asks no question and starts no child process, and what must have
    happened when it answers [False]. *)
Lemma verify_cases (w : W) :
  let r := exec h (_verify_container_dir_on_partition self) w in
  let t := trace r in
  (exists b rest,
     t = io_exists (container_dir self) b :: rest /\
     (b = false ->
      exists res rest', rest = io_makedirs (container_dir self) res :: rest')) /\
  unasked t = true /\
  spawned t = [] /\
  (result r = Returned false ->
   (exists e, In (io_makedirs (container_dir self) (Some e)) t) \/
   (exists lines,
      In (io_lines "/proc/mounts" lines) t /\
      mountpoints_of (partition_device self) lines = []) \/
   (exists lines real,
      In (io_lines "/proc/mounts" lines) t /\
      In (io_realpath (container_dir self) real) t /\
      forall mnt, In mnt (mountpoints_of (partition_device self) lines) ->
                  commonpath2 mnt real <> Some mnt)).
Proof.
  cbv zeta. unfold _verify_container_dir_on_partition.
  symex h.
  all: negbs; subst; cbn [record unasked forallb is_question negb andb spawned].
  all: repeat split; try (eexists _, _; split; [reflexivity|]; intros E;
                          try discriminate E; eexists _, _; reflexivity).
  all: intros R; try discriminate R.
  - left. eexists. in_list.
  - right. left. eexists. split; [in_list | assumption].
  - right. right. eexists _, _. split; [in_list|]. split; [in_list|].
    apply any_commonpath_false.
    match goal with H : mountpoints_of _ _ = _ |- _ => rewrite H end.
    assumption.
  - right. left. eexists. split; [in_list | assumption].
  - right. right. eexists _, _. split; [in_list|]. split; [in_list|].
    apply any_commonpath_false.
    match goal with H : mountpoints_of _ _ = _ |- _ => rewrite H end.
    assumption.
Qed.

(** X24: the validation creates a missing container directory as its
    second step, ahead of reading the mount table; it asks no question,
    and both [create_container] and [mount_container] begin with it, so
    the directory is made before any confirmation.  It answers [False]
    only when [makedirs] raised, when no line of the mount table is for
    the configured device, or when no mount point of the device passes
    the [commonpath] test against the real path of the directory. *)
Theorem validation_creates_directory_first (w : W) :
  let r := exec h (_verify_container_dir_on_partition self) w in
  let t := trace r in
  (exists b rest,
     t = io_exists (container_dir self) b :: rest /\
     (b = false ->
      exists res rest', rest = io_makedirs (container_dir self) res :: rest')) /\
  unasked t = true /\
  (exists rest, trace (exec h (create_container str_exn self) w) = (t ++ rest)%list) /\
  (exists rest, trace (exec h (mount_container str_exn self) w) = (t ++ rest)%list) /\
  (result r = Returned false ->
   (exists e, In (io_makedirs (container_dir self) (Some e)) t) \/
   (exists lines,
      In (io_lines "/proc/mounts" lines) t /\
      mountpoints_of (partition_device self) lines = []) \/
   (exists lines real,
      In (io_lines "/proc/mounts" lines) t /\
      In (io_realpath (container_dir self) real) t /\
      forall mnt, In mnt (mountpoints_of (partition_device self) lines) ->
                  commonpath2 mnt real <> Some mnt)).
Proof.
  cbv zeta. destruct (verify_cases w) as (H1 & H2 & _ & H4).
  split; [exact H1|]. split; [exact H2|].
  split; [|split; [|exact H4]].
  - unfold create_container. rewrite exec_bind.
    destruct (result (exec h (_verify_container_dir_on_partition self) w));
      cbn [trace]; [eexists; reflexivity | exists []; symmetry; apply app_nil_r].
  - unfold mount_container. rewrite exec_bind.
    destruct (result (exec h (_verify_container_dir_on_partition self) w));
      cbn [trace]; [eexists; reflexivity | exists []; symmetry; apply app_nil_r].
Qed.

(** When [any] answers [True], some mount point passed the test. *)
Lemma any_commonpath_true (l : list string) (real : string) :
  any_commonpath l real = inr true ->
  exists mnt, In mnt l /\ commonpath2 mnt real = Some mnt.
Proof.
  induction l as [|m l IH]; intros H; [discriminate H|].
  cbn [any_commonpath] in H.
  destruct (commonpath2 m real) as [c|] eqn:E; [|discriminate].
  destruct (String.eqb c m) eqn:Ec.
  - apply String.eqb_eq in Ec. subst c. exists m. split; [left; reflexivity | exact E].
  - destruct (IH H) as (mnt & I & T). exists mnt. split; [right; exact I | exact T].
Qed.

(** X8: When the validation answers [True], the real path of the container
    directory lies, component by component, under a mount point that the
    mount table gives for the configured device. *)
Lemma validation_passes_under_mount_point (w : W) :
  let r := exec h (_verify_container_dir_on_partition self) w in
  result r = Returned true ->
  exists lines real mnt rest,
    In (io_lines "/proc/mounts" lines) (trace r) /\
    In (io_realpath (container_dir self) real) (trace r) /\
    In mnt (mountpoints_of (partition_device self) lines) /\
    components real = (components mnt ++ rest)%list.
Proof.
  cbv zeta. unfold _verify_container_dir_on_partition.
  symex h.
  all: negbs; subst; intros R; try discriminate R.
  all: match goal with
       | H : any_commonpath _ _ = inr true |- _ =>
           destruct (any_commonpath_true _ _ H) as (mnt & I & T);
           destruct (commonpath_under _ _ T) as (rest & C)
       end.
  all: match goal with
       | H : mountpoints_of _ _ = _ |- _ => rewrite <- H in I
       end.
  all: eexists _, _, mnt, rest; cbn [record];
    split; [in_list|]; split; [in_list|]; split; [exact I | exact C].
Qed.

End Validation.

(** The user declines the creation, and the directory has been made. *)
Lemma validation_witness :
  let t := trace (play fresh_disk (create_container plain_str_exn alice_app)
                       locked_world) in
  agreed t = false /\
  exists rest,
    t = (trace (play fresh_disk (_verify_container_dir_on_partition alice_app)
                     locked_world) ++ rest)%list /\
    firstn 2 t = [io_exists "/mnt/data/containers" false;
                  io_makedirs "/mnt/data/containers" None].
Proof.
  cbv zeta. split; [vm_compute; reflexivity|].
  destruct (proj1 (proj2 (proj2
    (validation_creates_directory_first plain_str_exn alice_app _
       (Sim.step (Sim.script_of fresh_disk)) locked_world)))) as (rest & E).
  exists rest. split; [exact E | vm_compute; reflexivity].
Defined.

(** C10, where the code departs from it: the data partition is mounted
    at [/mnt/my data], which the mount table shows as the field
    [/mnt/my\040data], and the container directory lies under it.  The
    validation compares the field as it is written: the common path of
    the field and the real path is [/mnt], so the directory is reported
    as not being on the device and the validation answers [False]. *)
Theorem validation_rejects_mount_point_with_space :
  let r := exec (reading spaced_mounts)
                (_verify_container_dir_on_partition spaced_app) tt in
  mountpoints_of "/dev/sdb1" spaced_mounts = ["/mnt/my\040data"] /\
  components "/mnt/my data/containers"
  = (components "/mnt/my data" ++ ["containers"])%list /\
  commonpath2 "/mnt/my\040data" "/mnt/my data/containers" = Some "/mnt" /\
  result r = Returned false /\
  trace r
  = [io_exists "/mnt/my data/containers" true;
     io_lines "/proc/mounts" spaced_mounts;
     io_realpath "/mnt/my data/containers" "/mnt/my data/containers";
     io_showerror "Error"
       ("The container directory (/mnt/my data/containers) is not on /dev/sdb1."
        ++ nl ++ "Aborting.")].
Proof. vm_compute. repeat split; reflexivity. Qed.

(* ===================================================================== *)
(** * The free-space check                                               *)
(* ===================================================================== *)

Section FreeSpace.

Variable str_exn : exn -> string.
Variable self : SecureContainerApp.
Variable W : Type.
Variable h : handler W.

(** The free-space check, in every environment: it asks no question, it
    starts [df] or nothing, and its answer is read off the answer of
    [df]. *)
Lemma free_space_cases (directory size_str : string) (w : W) :
  let r := exec h (_check_free_space str_exn directory size_str) w in
  let t := trace r in
  unasked t = true /\
  (spawned t = [] \/
   exists cp, spawned t = [(df_argv directory, returncode cp)]) /\
  (forall cp,
     In (io_spawn (df_argv directory) None true cp) t ->
     exists n,
       _parse_size_to_bytes size_str = inr (Some n) /\
       (df_unusable cp = true -> result r = Returned true /\ dialogs t = []) /\
       (result r = Returned false ->
        df_unusable cp = false /\
        exists available,
          int_of_str (nth 3 (df_cols cp) "") = inr available /\
          (available < n)%Z)).
Proof.
  cbv zeta. unfold _check_free_space.
  symex h.
  all: cbn [record unasked forallb is_question negb andb spawned].
  all: (split; [reflexivity|]).
  all: (split; [first [left; reflexivity | right; eexists; reflexivity]|]).
  all: intros cp Hin.
  all: cbn [In] in Hin;
    repeat match goal with H : _ \/ _ |- _ => destruct H end;
    try contradiction; try discriminate.
  all: match goal with H : io_spawn _ _ _ _ = io_spawn _ _ _ _ |- _ =>
         inversion H; subst; clear H end.
  all: eexists; split; [reflexivity|].
  all: unfold df_unusable, df_cols, df_lines, dialogs;
    cbn [filter is_dialog record].
  all: negbs.
  all: repeat match goal with
         | H : (_ =? _)%Z = _ |- _ => rewrite H
         | H : (_ <? _)%nat = _ |- _ => rewrite H
         end; cbn [negb orb].
  all: split; [intros U; try discriminate U; auto | intros R; try discriminate R].
  all: split; [reflexivity|].
  all: eexists; split; [eassumption|].
  all: apply Z.ltb_lt; congruence.
Qed.

End FreeSpace.

(* ===================================================================== *)
(** * Creating a container                                               *)
(* ===================================================================== *)

Section Creation.

Variable str_exn : exn -> string.
Variable self : SecureContainerApp.
Variable W : Type.
Variable h : handler W.

(** [create_container], in every environment: a [df] without usable
    answer is followed by the confirmation question; before the
    question only [df] is started; after it, the six commands in order up
    to the first that exits non-zero. *)
Lemma create_cases (w : W) :
  let t := trace (exec h (create_container str_exn self) w) in
  (forall cp,
     In (io_spawn (df_argv (container_dir self)) None true cp) t ->
     df_unusable cp = true ->
     exists msg b, In (io_askyesno "Confirm" msg b) t) /\
  (exists pre,
     spawned t = (pre ++ spawned (after_question t))%list /\
     (pre = [] \/ exists rc, pre = [(df_argv (container_dir self), rc)])) /\
  (spawned (after_question t) = [] \/
   exists name size_str,
     attempt (create_commands name size_str
                (path_join (container_dir self) (name ++ ".img")))
             (spawned (after_question t))).
Proof.
  cbv zeta. unfold create_container.
  destruct (verify_cases self W h w) as (_ & Vq & Vs & _).
  rewrite exec_bind.
  set (rv := exec h (_verify_container_dir_on_partition self) w) in *.
  assert (Vn : after_question (trace rv) = []).
  { rewrite <- (app_nil_r (trace rv)), after_question_app by exact Vq.
    reflexivity. }
  assert (Vi : forall cp,
             ~ In (io_spawn (df_argv (container_dir self)) None true cp)
                  (trace rv)).
  { intros cp Hin. apply in_spawned in Hin. rewrite Vs in Hin. destruct Hin. }
  destruct (result rv) as [[|]|e]; cbn [result final trace negb].
  all: cycle 1.
  - (* the validation answered False *)
    cbn [exec trace]. rewrite app_nil_r, Vn, Vs.
    split; [intros cp Hin; destruct (Vi cp Hin) | split; [exists []; auto | auto]].
  - (* the validation raised *)
    rewrite Vn, Vs.
    split; [intros cp Hin; destruct (Vi cp Hin) | split; [exists []; auto | auto]].
  - symex h.
    all: rewrite ?spawned_app, ?Vs;
      rewrite after_question_app by exact Vq;
      cbn [app spawned after_question record In].
    all: try (split; [intros cp Hin; apply in_app_or in Hin;
                      destruct Hin as [Hin|Hin]; [destruct (Vi cp Hin)|];
                      cbn [In] in Hin;
                      repeat match goal with H : _ \/ _ |- _ => destruct H end;
                      try contradiction; discriminate
                     | split; [exists []; auto | auto]]; fail).
    rewrite exec_bind.
    match goal with
    | |- context [exec h (_check_free_space str_exn ?d ?sz) ?w1] =>
        destruct (free_space_cases str_exn W h d sz w1) as (Fq & Fs & Fd);
        set (rf := exec h (_check_free_space str_exn d sz) w1) in *
    end.
    assert (Fn : after_question (trace rf) = []).
    { rewrite <- (app_nil_r (trace rf)), after_question_app by exact Fq.
      reflexivity. }
    destruct (result rf) as [[|]|e] eqn:Er; cbn [result final trace negb].
    + (* enough space, or no usable answer *)
      symex h.
      all: rewrite ?spawned_app, ?Vs;
        rewrite ?after_question_app by first [exact Vq | exact Fq];
        cbn [app spawned after_question record].
      all: rewrite ?spawned_app;
        rewrite ?after_question_app by first [exact Vq | exact Fq];
        cbn [app spawned after_question record].
      all: split;
        [intros cp _ _; eexists _, _; apply in_or_app; right;
         do 4 right; apply in_or_app; right; left; reflexivity|].
      all: split; [exists (spawned (trace rf)); split; [reflexivity|];
                   destruct Fs as [->|[cp ->]]; eauto|].
      all: statuses;
        repeat match goal with
          | H : returncode _ = 0%Z |- _ => rewrite !H; clear H
          end.
      all: try (left; reflexivity).
      all: right; eexists _, _; unfold create_commands;
        repeat apply attempt_next;
        first [apply attempt_done | apply attempt_stop; assumption].
    + (* the check answered False *)
      cbn [exec trace]. rewrite !app_nil_r, Fn.
      split; [|split; [exists (spawned (trace rf)); split;
                        [symmetry; apply app_nil_r|];
                        destruct Fs as [->|[cp ->]]; eauto
                      | left; reflexivity]].
      intros cp Hin U. apply in_app_or in Hin.
      destruct Hin as [Hin|Hin]; [destruct (Vi cp Hin)|].
      cbn [In] in Hin.
      repeat (destruct Hin as [Hin|Hin]; [discriminate Hin|]).
      destruct (Fd cp Hin) as (n & _ & HU & _).
      destruct (HU U) as [R _]. congruence.
    + (* the size conversion raised *)
      rewrite Fn.
      split; [|split; [exists (spawned (trace rf)); split;
                        [symmetry; apply app_nil_r|];
                        destruct Fs as [->|[cp ->]]; eauto
                      | left; reflexivity]].
      intros cp Hin U. apply in_app_or in Hin.
      destruct Hin as [Hin|Hin]; [destruct (Vi cp Hin)|].
      cbn [In] in Hin.
      repeat (destruct Hin as [Hin|Hin]; [discriminate Hin|]).
      destruct (Fd cp Hin) as (n & _ & HU & _).
      destruct (HU U) as [R _]. congruence.
Qed.

(** C9: once [df] has been run, the check answers [True] whenever the
    command exited non-zero or its output has fewer than two lines or
    fewer than five columns, and shows no box; it answers [False] only
    when the command succeeded, the fourth column of the second line is
    an integer, and that integer is below the requested size.  In
    [create_container] such a run goes on to the confirmation question. *)
Theorem free_space_check_passes_without_usable_answer
    (w : W) (directory size_str : string) :
  (forall cp,
     let r := exec h (_check_free_space str_exn directory size_str) w in
     In (io_spawn (df_argv directory) None true cp) (trace r) ->
     exists n,
       _parse_size_to_bytes size_str = inr (Some n) /\
       (df_unusable cp = true ->
        result r = Returned true /\ dialogs (trace r) = []) /\
       (result r = Returned false ->
        df_unusable cp = false /\
        exists available,
          int_of_str (nth 3 (df_cols cp) "") = inr available /\
          (available < n)%Z)) /\
  (forall cp,
     let t := trace (exec h (create_container str_exn self) w) in
     In (io_spawn (df_argv (container_dir self)) None true cp) t ->
     df_unusable cp = true ->
     exists msg b, In (io_askyesno "Confirm" msg b) t).
Proof.
  split.
  - apply free_space_cases.
  - apply create_cases.
Qed.

End Creation.

(** A run in which [df] exits with status 1: the container is created
    all the same. *)
Lemma free_space_witness :
  let t := trace (play (failing (head_is "df") 1 calm)
                       (create_container plain_str_exn alice_app) locked_world) in
  (exists msg b, In (io_askyesno "Confirm" msg b) t) /\
  reports_success t = true.
Proof.
  cbv zeta. split; [|vm_compute; reflexivity].
  apply (proj2 (free_space_check_passes_without_usable_answer
                  plain_str_exn alice_app _
                  (Sim.step (Sim.script_of (failing (head_is "df") 1 calm)))
                  locked_world "" "")
               {| returncode := 1; stdout := df_report |}).
  - vm_compute. in_list.
  - vm_compute. reflexivity.
Defined.

Section CreationSim.

Variable str_exn : exn -> string.
Variable self : SecureContainerApp.

(** C2, as the code has it: when a step of the creation sequence exits
    non-zero, exactly the steps up to and including it were issued, in
    order - no later step and no undoing command.  The mount table is
    untouched.  The mapper table is unchanged when the failing step is
    [truncate], [luksFormat] or [open]; when it is [mkfs.ext4],
    [e2label] or [close], the mapper opened by the third step is still
    there when [create_container] returns. *)
Theorem create_stops_at_first_failure
    (s : Sim.script) (w : Sim.world) (i : nat) (c : list string) :
  let r := exec (Sim.step s) (create_container str_exn self) w in
  let sp := spawned (after_question (trace r)) in
  first_failure sp 0 = Some (i, c) ->
  exists name size_str,
    let cmds := create_commands name size_str
                  (path_join (container_dir self) (name ++ ".img")) in
    nth_error cmds i = Some c /\
    map fst sp = firstn (S i) cmds /\
    Sim.mounts (final r) = Sim.mounts w /\
    Sim.mappers (final r)
    = if (i <? 3)%nat then Sim.mappers w
      else (Sim.mappers w ++ [(name ++ "_mapper")%string])%list.
Proof.
  cbv zeta. intros F.
  destruct (create_cases str_exn self _ (Sim.step s) w)
    as (_ & (pre & Esp & Hpre) & [E|(name & size_str & A)]).
  { rewrite E in F. discriminate F. }
  destruct (attempt_first_failure _ _ A _ _ _ F) as (j & rc & -> & N & Hrc & M & E).
  exists name, size_str. cbn [Nat.add].
  split; [exact N|]. split; [exact M|].
  assert (O : Sim.observed
                (final (exec (Sim.step s) (create_container str_exn self) w))
              = (if (j <? 3)%nat then Sim.mappers w
                 else (Sim.mappers w ++ [(name ++ "_mapper")%string])%list,
                 Sim.mounts w)).
  { rewrite sim_frame, Esp, E, fold_left_app.
    assert (P : fold_left (Sim.apply (Sim.mount_point s)) pre (Sim.observed w)
                = Sim.observed w).
    { destruct Hpre as [->|[rc0 ->]]; [reflexivity|].
      unfold Sim.observed, Sim.apply, Sim.effect, df_argv.
      cbn [fold_left fst snd Sim.classify String.eqb Ascii.eqb Bool.eqb andb].
      destruct (rc0 =? 0)%Z; reflexivity. }
    rewrite P. apply Z.eqb_neq in Hrc.
    unfold create_commands in N |- *.
    do 6 (destruct j as [|j]; [cbn in N; inversion N; subst; clear N;
      unfold Sim.observed, Sim.apply, Sim.effect;
      cbn [firstn map app fold_left fst snd Z.eqb Sim.classify String.eqb
           Ascii.eqb Bool.eqb andb Nat.ltb Nat.leb];
      rewrite Hrc; reflexivity|]).
    destruct j; discriminate N. }
  split; [exact (f_equal snd O) | exact (f_equal fst O)].
Qed.

End CreationSim.

(** C2 fails at this run: the first three steps succeed and [mkfs.ext4]
    exits with status 1.  No later step and no undoing command is issued,
    and the mapper opened by the third step is still open when
    [create_container] returns. *)
Lemma create_failure_leaves_mapper_open :
  let r := play (failing (head_is "mkfs.ext4") 1 calm)
                (create_container plain_str_exn alice_app) locked_world in
  spawned (after_question (trace r))
  = [(["truncate"; "-s"; "100M"; "/mnt/data/containers/vault.img"], 0%Z);
     (["cryptsetup"; "-q"; "luksFormat"; "--type"; "luks2";
       "/mnt/data/containers/vault.img"], 0%Z);
     (open_argv "/mnt/data/containers/vault.img" "vault_mapper", 0%Z);
     (["mkfs.ext4"; "/dev/mapper/vault_mapper"], 1%Z)] /\
  Sim.mappers locked_world = [] /\
  Sim.mappers (final r) = ["vault_mapper"].
Proof. vm_compute. repeat split; reflexivity. Qed.

(** The same run, through the theorem: the failing step is the fourth. *)
Lemma create_failure_witness :
  let r := play (failing (head_is "mkfs.ext4") 1 calm)
                (create_container plain_str_exn alice_app) locked_world in
  let sp := spawned (after_question (trace r)) in
  exists name size_str,
    let cmds := create_commands name size_str
                  (path_join (container_dir alice_app) (name ++ ".img")) in
    nth_error cmds 3 = Some ["mkfs.ext4"; "/dev/mapper/vault_mapper"] /\
    map fst sp = firstn 4 cmds /\
    Sim.mounts (final r) = Sim.mounts locked_world /\
    Sim.mappers (final r)
    = if (3 <? 3)%nat then Sim.mappers locked_world
      else (Sim.mappers locked_world ++ [(name ++ "_mapper")%string])%list.
Proof.
  cbv zeta.
  apply (create_stops_at_first_failure plain_str_exn alice_app
           (Sim.script_of (failing (head_is "mkfs.ext4") 1 calm)) locked_world
           3 ["mkfs.ext4"; "/dev/mapper/vault_mapper"]).
  vm_compute. reflexivity.
Defined.

(* ===================================================================== *)
(** * Opening a container                                                *)
(* ===================================================================== *)

Section Opening.

Variable str_exn : exn -> string.
Variable self : SecureContainerApp.

(** The guard of [mount_container], in every environment. *)
Lemma mount_refuses (W : Type) (h : handler W) (w : W) (cfile : string) :
  let r := exec h (mount_container str_exn self) w in
  selection (trace r) = Some cfile ->
  mem (fst (splitext cfile) ++ "_mapper")
      (mappers_seen (after_selection (trace r))) = true ->
  result r = Returned tt /\
  commands (trace r) = [] /\
  after_selection (trace r)
  = [io_isdir "/dev/mapper" true;
     io_listdir "/dev/mapper" (mapper_listing (after_selection (trace r)));
     io_showwarning "Already Open"
       ("Container '" ++ fst (splitext cfile)
        ++ "' is already open. Unmount it first.")].
Proof.
  cbv zeta.
  unfold mount_container, _verify_container_dir_on_partition,
    _get_container_files, _detect_open_mappers.
  symex h.
  all: intros Hsel Hmem; statuses; observe; try discriminate.
  all: try congruence.
  all: inversion Hsel; subst.
  all: repeat match goal with u : unit |- _ => destruct u end; auto.
Qed.

(** Whatever a faithful run of [mount_container] starts, the mapper
    names stay apart: the only name it can add was absent from the
    listing it took. *)
Lemma mount_opens_fresh_name (W : Type) (h : handler W) (w : W)
    (mp : string -> string) (ms : list string) (mt : list (string * string)) :
  let r := exec h (mount_container str_exn self) w in
  Sim.faithful mp (ms, mt) (trace r) ->
  NoDup ms ->
  NoDup (fst (fold_left (Sim.apply mp) (spawned (trace r)) (ms, mt))).
Proof.
  cbv zeta.
  unfold mount_container, _verify_container_dir_on_partition,
    _get_container_files, _detect_open_mappers.
  symex h.
  all: intros F ND; negbs; subst.
  all: try (cbn [spawned record fold_left fst]; exact ND).
  all: cbn [Sim.faithful record fst snd] in F; sim_facts; subst.
  all: try discriminate.
  all: match goal with
       | H : mem _ (filter _ _) = false |- _ =>
           apply unseen_mapper_absent in H; cbn [In] in H
       end.
  all: sim_effects; try exact ND.
  all: apply NoDup_snoc; try tauto.
Qed.

End Opening.

(** C1: when the mapper of the selected container is among the open
    mappers observed after the selection, [mount_container] warns and
    returns: no passphrase is asked and no child process is started.
    Hence, in the simulated system, a run of [mount_container] never
    gives a name a second handle. *)
Theorem open_refused_when_mapper_present
    (str_exn : exn -> string) (self : SecureContainerApp) :
  (forall (W : Type) (h : handler W) (w : W) (cfile : string),
     let r := exec h (mount_container str_exn self) w in
     selection (trace r) = Some cfile ->
     mem (fst (splitext cfile) ++ "_mapper")
         (mappers_seen (after_selection (trace r))) = true ->
     result r = Returned tt /\
     commands (trace r) = [] /\
     after_selection (trace r)
     = [io_isdir "/dev/mapper" true;
        io_listdir "/dev/mapper" (mapper_listing (after_selection (trace r)));
        io_showwarning "Already Open"
          ("Container '" ++ fst (splitext cfile)
           ++ "' is already open. Unmount it first.")]) /\
  (forall (s : Sim.script) (w : Sim.world),
     NoDup (Sim.mappers w) ->
     NoDup (Sim.mappers (final (exec (Sim.step s) (mount_container str_exn self) w)))).
Proof.
  split.
  - intros W h w cfile. apply mount_refuses.
  - intros s w ND.
    change (Sim.mappers (final (exec (Sim.step s) (mount_container str_exn self) w)))
      with (fst (Sim.observed
                   (final (exec (Sim.step s) (mount_container str_exn self) w)))).
    rewrite sim_frame.
    apply mount_opens_fresh_name; [apply sim_faithful | exact ND].
Qed.

(** [vault.img] is selected while [vault_mapper] is open. *)
Lemma open_refused_witness :
  let r := play calm (mount_container plain_str_exn alice_app) mounted_world in
  (result r = Returned tt /\
   commands (trace r) = [] /\
   after_selection (trace r)
   = [io_isdir "/dev/mapper" true;
      io_listdir "/dev/mapper" (mapper_listing (after_selection (trace r)));
      io_showwarning "Already Open"
        ("Container '" ++ fst (splitext "vault.img")
         ++ "' is already open. Unmount it first.")]) /\
  NoDup (Sim.mappers (final r)).
Proof.
  cbv zeta. split.
  - apply (proj1 (open_refused_when_mapper_present plain_str_exn alice_app));
      vm_compute; reflexivity.
  - apply (proj2 (open_refused_when_mapper_present plain_str_exn alice_app)).
    repeat constructor. intros [].
Defined.

(* ===================================================================== *)
(** * Ownership of the mount point                                       *)
(* ===================================================================== *)

Section Ownership.
Variable str_exn : exn -> string.
Variable self : SecureContainerApp.

(** C3, as the code has it: [chown] runs only after unlock and mount have
    both succeeded, on the path parsed from the mount output, and only
    once [os.path.isdir] has confirmed that path; when it exits non-zero
    the run ends on the same "Mount failed" error box and error log line
    as a failed unlock or mount, and no success is reported. *)
Theorem chown_failure_is_reported_as_mount_failure
    (W : Type) (h : handler W) (w : W) (path : string) (rc : Z) :
  let r := exec h (mount_container str_exn self) w in
  let t := trace r in
  let err := "Mount failed:" ++ nl
             ++ str_exn (CalledProcessError rc (chown_argv self path) None)
             ++ nl ++ nl ++ "Output:" ++ nl ++ "None" in
  In (chown_argv self path, rc) (spawned t) ->
  (exists cfile cp,
     let m := fst (splitext cfile) ++ "_mapper" in
     selection t = Some cfile /\
     spawned t = [(open_argv (path_join (container_dir self) cfile) m, 0%Z);
                  (mount_argv self m, 0%Z);
                  (chown_argv self path, rc)] /\
     In (io_spawn (mount_argv self m) None true cp) t /\
     mount_path_of (strip (stdout cp)) = Some path /\
     In (io_isdir path true) t) /\
  (rc <> 0%Z ->
     result r = Returned tt /\
     dialogs t = [io_showerror "Error" err] /\
     In (io_logging ERROR err) t /\
     reports_success t = false).
Proof.
  cbv zeta.
  unfold mount_container, _verify_container_dir_on_partition,
    _get_container_files, _detect_open_mappers.
  symex h.
  all: cbn [spawned record In].
  all: intros Hin; repeat match goal with H : _ \/ _ |- _ => destruct H end;
    try contradiction; try discriminate.
  all: match goal with H : (_, _) = (_, _) |- _ => inversion H; subst; clear H end.
  all: statuses.
  all: repeat match goal with
         | H : returncode _ = 0%Z |- _ => rewrite !H
         end.
  all: (split; [eexists _, _; cbn [selection]; repeat split;
                 try reflexivity; try eassumption; in_list | ]).
  all: intros Hrc; try contradiction.
  all: unfold dialogs, chown_argv;
    cbn [after result trace filter is_dialog str_output exn_output
         reports_success existsb String.eqb Ascii.eqb Bool.eqb orb];
    repeat match goal with u : unit |- _ => destruct u end;
    repeat split; in_list.
Qed.
End Ownership.

(** C3 fails at this run: unlock and mount succeed, [chown] exits with
    status 1.  The mapper is open and the mount is in place, yet the one
    box shown is the "Mount failed" error and no success is reported. *)
Lemma chown_failure_shown_as_mount_failure :
  let r := play (failing (head_is "chown") 1 calm)
                (mount_container plain_str_exn alice_app) locked_world in
  spawned (trace r)
  = [(open_argv "/mnt/data/containers/vault.img" "vault_mapper", 0%Z);
     (mount_argv alice_app "vault_mapper", 0%Z);
     (chown_argv alice_app "/run/media/alice/vault", 1%Z)] /\
  Sim.observed (final r)
  = (["vault_mapper"],
     [("/dev/sdb1", "/mnt/data");
      ("/dev/mapper/vault_mapper", "/run/media/alice/vault")]) /\
  dialogs (trace r)
  = [io_showerror "Error"
       ("Mount failed:" ++ nl ++ "exit status 1" ++ nl ++ nl ++ "Output:"
        ++ nl ++ "None")] /\
  reports_success (trace r) = false.
Proof. vm_compute. repeat split; reflexivity. Qed.

(** The same run, through the theorem. *)
Lemma chown_failure_witness :
  let r := play (failing (head_is "chown") 1 calm)
                (mount_container plain_str_exn alice_app) locked_world in
  dialogs (trace r)
  = [io_showerror "Error"
       ("Mount failed:" ++ nl
        ++ plain_str_exn
             (CalledProcessError 1 (chown_argv alice_app "/run/media/alice/vault")
                None)
        ++ nl ++ nl ++ "Output:" ++ nl ++ "None")].
Proof.
  cbv zeta.
  refine (proj1 (proj2 (proj2
    (chown_failure_is_reported_as_mount_failure plain_str_exn alice_app _
       (Sim.step (Sim.script_of (failing (head_is "chown") 1 calm)))
       locked_world "/run/media/alice/vault" 1 _) _))).
  - vm_compute. auto.
  - discriminate.
Defined.

(* ===================================================================== *)
(** * Mounting, then unmounting                                          *)
(* ===================================================================== *)

Section RoundTrip.
Variable str_exn : exn -> string.
Variable self : SecureContainerApp.

(** A run of [mount_container] that shows its Success box has started
    exactly open, mount and chown, each with status zero. *)
Lemma mount_success (W : Type) (h : handler W) (w : W) (cfile : string) :
  let t := trace (exec h (mount_container str_exn self) w) in
  selection t = Some cfile ->
  reports_success t = true ->
  exists path p,
    spawned t = [(open_argv path (fst (splitext cfile) ++ "_mapper"), 0%Z);
                 (mount_argv self (fst (splitext cfile) ++ "_mapper"), 0%Z);
                 (chown_argv self p, 0%Z)].
Proof.
  cbv zeta.
  unfold mount_container, _verify_container_dir_on_partition,
    _get_container_files, _detect_open_mappers.
  symex h.
  all: cbn [reports_success existsb record String.eqb Ascii.eqb Bool.eqb orb
            selection spawned].
  all: intros Hsel Hok; try discriminate Hok.
  all: statuses; inversion Hsel; subst.
  all: repeat match goal with
         | H : returncode _ = 0%Z |- _ => rewrite !H; clear H
         end.
  all: eexists _, _; reflexivity.
Qed.

(** A run of [unmount_container] that shows its Success box has started
    exactly unmount and close on the selected mapper, each with status
    zero. *)
Lemma unmount_success (W : Type) (h : handler W) (w : W) (m : string) :
  let t := trace (exec h (unmount_container str_exn self) w) in
  selection t = Some m ->
  reports_success t = true ->
  spawned t = [(unmount_argv self m, 0%Z); (close_argv m, 0%Z)].
Proof.
  cbv zeta. unfold unmount_container, _detect_open_mappers.
  symex h.
  all: cbn [reports_success existsb record String.eqb Ascii.eqb Bool.eqb orb
            selection spawned].
  all: intros Hsel Hok; try discriminate Hok.
  all: statuses; inversion Hsel; subst.
  all: repeat match goal with
         | H : returncode _ = 0%Z |- _ => rewrite !H; clear H
         end.
  all: reflexivity.
Qed.

(** C7: from the Locked state, a mount that reports success followed at
    once by an unmount of the same mapper that reports success leaves the
    mapper table and the mount table exactly as they were. *)
Theorem mount_then_unmount_restores_tables (s : Sim.script) (w : Sim.world)
    (cfile : string) :
  let m := fst (splitext cfile) ++ "_mapper" in
  let r1 := exec (Sim.step s) (mount_container str_exn self) w in
  let r2 := exec (Sim.step s) (unmount_container str_exn self) (final r1) in
  ~ In m (Sim.mappers w) ->
  (forall p, ~ In ("/dev/mapper/" ++ m, p) (Sim.mounts w)) ->
  selection (trace r1) = Some cfile ->
  reports_success (trace r1) = true ->
  selection (trace r2) = Some m ->
  reports_success (trace r2) = true ->
  Sim.observed (final r2) = Sim.observed w.
Proof.
  cbv zeta. intros Hm Hmt S1 OK1 S2 OK2.
  rewrite sim_frame, (unmount_success _ _ _ _ S2 OK2).
  rewrite sim_frame.
  destruct (mount_success _ _ _ _ S1 OK1) as (path & p & E). rewrite E.
  unfold Sim.observed, Sim.apply, Sim.effect, open_argv, mount_argv,
    unmount_argv, close_argv, chown_argv.
  cbn [fold_left fst snd Z.eqb Sim.classify String.eqb Ascii.eqb Bool.eqb andb].
  rewrite remove_mapper_snoc, remove_mounts_snoc; auto.
Qed.

End RoundTrip.

(** [vault.img] is mounted, then unmounted, with every command
    succeeding. *)
Lemma mount_then_unmount_witness :
  let r1 := play calm (mount_container plain_str_exn alice_app) locked_world in
  let r2 := play calm (unmount_container plain_str_exn alice_app) (final r1) in
  Sim.observed (final r1)
  = (["vault_mapper"],
     [("/dev/sdb1", "/mnt/data");
      ("/dev/mapper/vault_mapper", "/run/media/alice/vault")]) /\
  Sim.observed (final r2) = Sim.observed locked_world.
Proof.
  cbv zeta. split; [vm_compute; reflexivity|].
  apply (mount_then_unmount_restores_tables plain_str_exn alice_app
           (Sim.script_of calm) locked_world "vault.img").
  - intros [].
  - intros p [H|[]]. discriminate H.
  - vm_compute; reflexivity.
  - vm_compute; reflexivity.
  - vm_compute; reflexivity.
  - vm_compute; reflexivity.
Defined.

(* ===================================================================== *)
(** * Unmounting and the cleanup sweeps                                  *)
(* ===================================================================== *)

Section Teardown.

Variable str_exn : exn -> string.
Variable self : SecureContainerApp.
Variable W : Type.
Variable h : handler W.

(** The loop body on one mapper: two child processes, whose exit statuses
    are not looked at, and one log line. *)
Lemma sweep_one_run (log_prefix m : string) (w : W) :
  exists cp1 cp2 w',
    exec h (sweep_one self log_prefix m) w =
    {| result := Returned tt;
       final := w';
       trace := [io_spawn (unmount_argv self m) None false cp1;
                 io_spawn (close_argv m) None false cp2;
                 io_logging INFO (log_prefix ++ m)] |}.
Proof.
  unfold sweep_one. repeat exec_step h.
  destruct x1. eexists _, _, _. reflexivity.
Qed.

(** One pass of a cleanup loop, whatever the exit statuses: both commands
    for every mapper, one [INFO] line each, no complaint, no exception. *)
Lemma sweep_loop (log_prefix : string) (l : list string) (w : W) :
  result (exec h (for_each l (sweep_one self log_prefix)) w) = Returned tt /\
  commands (trace (exec h (for_each l (sweep_one self log_prefix)) w))
    = flat_map (sweep_argv self) l /\
  complaints (trace (exec h (for_each l (sweep_one self log_prefix)) w)) = [] /\
  logged (trace (exec h (for_each l (sweep_one self log_prefix)) w))
    = map (fun m => io_logging INFO (log_prefix ++ m)) l.
Proof.
  revert w. induction l as [|m l IH]; intros w.
  - cbn. auto.
  - cbn [for_each]. rewrite exec_bind.
    destruct (sweep_one_run log_prefix m w) as (cp1 & cp2 & w' & E).
    rewrite E. cbn [result final trace].
    destruct (IH w') as (IH1 & IH2 & IH3 & IH4).
    rewrite IH1. unfold commands, complaints, logged in *.
    cbn [app spawned map fst filter is_complaint is_logging flat_map
         sweep_argv result trace].
    rewrite IH2, IH3, IH4. auto.
Qed.

(** The startup sweep, in every environment. *)
Lemma startup_sweep (w : W) :
  let r := exec h (_startup_cleanup_check self) w in
  result r = Returned tt /\
  commands (trace r)
    = (if agreed (trace r)
       then flat_map (sweep_argv self) (mappers_seen (trace r)) else []) /\
  complaints (trace r) = [] /\
  logged (trace r)
    = (if agreed (trace r)
       then map (fun m => io_logging INFO ("Closed leftover mapper " ++ m))
                (mappers_seen (trace r))
       else []).
Proof.
  cbv zeta. unfold _startup_cleanup_check, _detect_open_mappers.
  repeat exec_step h; statuses; subst; observe_goal; auto.
  rewrite <- filter_open_mapper, Heql.
  destruct (sweep_loop "Closed leftover mapper " (s :: l) w2)
    as (E1 & E2 & E3 & E4).
  unfold commands, complaints, logged in *. rewrite E1, E2, E3, E4. auto.
Qed.

(** The exit sweep, in every environment. *)
Lemma exit_sweep (w : W) :
  let r := exec h (_on_exit self) w in
  result r = Returned tt /\
  commands (trace r)
    = (if agreed (trace r)
       then flat_map (sweep_argv self) (mappers_seen (trace r)) else []) /\
  complaints (trace r) = [] /\
  logged (trace r)
    = ((if agreed (trace r)
        then map (fun m => io_logging INFO ("Auto-closed leftover mapper " ++ m))
                 (mappers_seen (trace r))
        else [])
       ++ [io_logging INFO "Exiting application (V5)."])%list.
Proof.
  cbv zeta. unfold _on_exit, _detect_open_mappers.
  repeat exec_step h; statuses; subst; observe_goal;
    repeat match goal with u : unit |- _ => destruct u end; auto.
  rewrite exec_bind.
  destruct (sweep_loop "Auto-closed leftover mapper " (s :: l) w2)
    as (E1 & E2 & E3 & E4).
  rewrite E1. cbn [result final trace].
  repeat exec_step h.
  cbn [result trace]. unfold commands, complaints, logged in *.
  rewrite spawned_app, !filter_app, map_app, E2, E3, E4.
  rewrite <- filter_open_mapper, Heql. cbn. rewrite app_nil_r.
  repeat match goal with u : unit |- _ => destruct u end; auto.
Qed.

(** The startup sweep in an environment where [/dev/mapper] is a
    directory and the user answers the question with Yes: both commands
    for every mapper of the listing. *)
Lemma startup_sweep_agreed (w w1 w2 w3 : W) (entries : list string) :
  h _ (os_path_isdir "/dev/mapper") w = (true, w1) ->
  h _ (os_listdir "/dev/mapper") w1 = (entries, w2) ->
  h _ (askyesno "Startup Cleanup"
         (startup_question (filter is_open_mapper entries))) w2 = (true, w3) ->
  commands (trace (exec h (_startup_cleanup_check self) w))
  = flat_map (sweep_argv self) (filter is_open_mapper entries).
Proof.
  intros D L Y. unfold _startup_cleanup_check, _detect_open_mappers.
  norm. rewrite D. norm. rewrite L. norm.
  change (filter (fun m => endswith m "_mapper" && negb (String.eqb m "control"))
                 entries)
    with (filter is_open_mapper entries).
  destruct (filter is_open_mapper entries) as [|m l] eqn:F; [reflexivity|].
  norm. unfold startup_question in Y. rewrite Y. norm.
  destruct (sweep_loop "Closed leftover mapper " (m :: l) w3) as (_ & C & _).
  unfold commands in *. cbn [spawned record]. exact C.
Qed.

(** The same for the exit sweep. *)
Lemma exit_sweep_agreed (w w1 w2 w3 : W) (entries : list string) :
  h _ (os_path_isdir "/dev/mapper") w = (true, w1) ->
  h _ (os_listdir "/dev/mapper") w1 = (entries, w2) ->
  h _ (askyesno "Clean Exit"
         (exit_question (filter is_open_mapper entries))) w2 = (true, w3) ->
  commands (trace (exec h (_on_exit self) w))
  = flat_map (sweep_argv self) (filter is_open_mapper entries).
Proof.
  intros D L Y. unfold _on_exit, _detect_open_mappers.
  norm. rewrite D. norm. rewrite L. norm.
  change (filter (fun m => endswith m "_mapper" && negb (String.eqb m "control"))
                 entries)
    with (filter is_open_mapper entries).
  destruct (filter is_open_mapper entries) as [|m l] eqn:F.
  - repeat exec_step h. reflexivity.
  - norm. unfold exit_question in Y. rewrite Y. norm.
    rewrite exec_bind.
    destruct (sweep_loop "Auto-closed leftover mapper " (m :: l) w3)
      as (R & C & _).
    rewrite R. cbn [result final trace].
    repeat exec_step h. cbn [trace].
    unfold commands in *. cbn [spawned record].
    rewrite spawned_app, map_app, C. cbn [spawned map]. apply app_nil_r.
Qed.

(** C4: [unmount_container] issues [cryptsetup close] only after
    [udisksctl unmount], on the mapper the user selected, has exited with
    status zero, and nothing after an unmount that failed.  The startup
    and exit sweeps issue both commands for every mapper they found,
    whatever any of them returns: read off the record of the run, and, in
    terms of the environment, whenever [/dev/mapper] is a directory and
    the user answers the question of the sweep with Yes, the commands of
    the run are the unmount and the close of every open mapper of the
    listing, in order. *)
Theorem close_waits_for_unmount_except_in_sweeps (w : W) :
  (let t := trace (exec h (unmount_container str_exn self) w) in
   spawned t = [] \/
   exists m rc,
     selection t = Some m /\
     ((rc <> 0%Z /\ spawned t = [(unmount_argv self m, rc)]) \/
      spawned t = [(unmount_argv self m, 0%Z); (close_argv m, rc)])) /\
  (let t := trace (exec h (_startup_cleanup_check self) w) in
   commands t
   = if agreed t then flat_map (sweep_argv self) (mappers_seen t) else []) /\
  (let t := trace (exec h (_on_exit self) w) in
   commands t
   = if agreed t then flat_map (sweep_argv self) (mappers_seen t) else []) /\
  (forall entries w1 w2 w3,
     let leftover := filter is_open_mapper entries in
     h _ (os_path_isdir "/dev/mapper") w = (true, w1) ->
     h _ (os_listdir "/dev/mapper") w1 = (entries, w2) ->
     h _ (askyesno "Startup Cleanup" (startup_question leftover)) w2
       = (true, w3) ->
     commands (trace (exec h (_startup_cleanup_check self) w))
     = flat_map (sweep_argv self) leftover) /\
  (forall entries w1 w2 w3,
     let leftover := filter is_open_mapper entries in
     h _ (os_path_isdir "/dev/mapper") w = (true, w1) ->
     h _ (os_listdir "/dev/mapper") w1 = (entries, w2) ->
     h _ (askyesno "Clean Exit" (exit_question leftover)) w2 = (true, w3) ->
     commands (trace (exec h (_on_exit self) w))
     = flat_map (sweep_argv self) leftover).
Proof.
  split; [|split; [apply startup_sweep | split; [apply exit_sweep|]]].
  - cbv zeta. unfold unmount_container, _detect_open_mappers.
    symex h.
    all: statuses; cbn [spawned record selection]; auto.
    all: right; eexists _, _; (split; [reflexivity|]).
    all: try (left; split; [eassumption | reflexivity]).
    all: right;
      repeat match goal with
        | H : returncode _ = 0%Z |- _ => rewrite !H; clear H
        end;
      reflexivity.
  - split; intros entries w1 w2 w3 leftover; subst leftover.
    + apply startup_sweep_agreed.
    + apply exit_sweep_agreed.
Qed.


End Teardown.

(** Two mappers are left over, the user agrees, and unmounting the first
    exits with status 32: each sweep still issues all four commands. *)
Lemma sweeps_attempt_both_witness :
  let sc := failing (argv_eqb (unmount_argv alice_app "a_mapper")) 32 calm in
  let four := [unmount_argv alice_app "a_mapper"; close_argv "a_mapper";
               unmount_argv alice_app "b_mapper"; close_argv "b_mapper"] in
  commands (trace (play sc (_startup_cleanup_check alice_app) leftover_world))
  = four /\
  commands (trace (play sc (_on_exit alice_app) leftover_world)) = four.
Proof.
  cbv zeta.
  destruct (close_waits_for_unmount_except_in_sweeps plain_str_exn alice_app _
              (Sim.step (Sim.script_of
                 (failing (argv_eqb (unmount_argv alice_app "a_mapper")) 32 calm)))
              leftover_world) as (_ & _ & _ & S & E).
  split.
  - exact (S _ _ _ _ eq_refl eq_refl eq_refl).
  - exact (E _ _ _ _ eq_refl eq_refl eq_refl).
Defined.


(* ===================================================================== *)
(** * The mount path and the stem of a file name                         *)
(* ===================================================================== *)

(** [rfind] on a string without the character, and on two strings put
    end to end. *)
Lemma rfind_from_absent (c : ascii) (s : string) (i acc : Z) :
  has_char c s = false -> rfind_from c s i acc = acc.
Proof.
  revert i acc. induction s as [|a s IH]; intros i acc H; [reflexivity|].
  cbn [has_char] in H. apply orb_false_iff in H. destruct H as [Ha Hs].
  cbn [rfind_from]. rewrite Ha. apply IH, Hs.
Qed.

Lemma rfind_from_app (c : ascii) (a b : string) (i acc : Z) :
  rfind_from c (a ++ b) i acc
  = rfind_from c b (i + Z.of_nat (String.length a)) (rfind_from c a i acc).
Proof.
  revert i acc. induction a as [|x a IH]; intros i acc.
  - cbn. rewrite Z.add_0_r. reflexivity.
  - cbn [append rfind_from String.length]. rewrite IH.
    f_equal. lia.
Qed.

(** The beginning and the rest of two strings put end to end. *)
Lemma substring_prefix (a b : string) :
  substring 0 (String.length a) (a ++ b) = a.
Proof. induction a as [|c a IH]; cbn; [destruct b; reflexivity | rewrite IH; reflexivity]. Qed.

Lemma drop_app (a b : string) : drop (String.length a) (a ++ b) = b.
Proof. induction a as [|c a IH]; [destruct b; reflexivity | exact IH]. Qed.

Lemma append_neq (a b : string) : b <> "" -> a ++ b <> a.
Proof.
  intros N E. apply (f_equal String.length) in E. rewrite length_app in E.
  destruct b; [contradiction N; reflexivity | cbn in E; lia].
Qed.

(** [splitext] on a file name made of a stem and an extension. *)
Lemma splitext_stem (name e : string) :
  has_char "/" name = false -> has_char "/" e = false -> has_char "." e = false ->
  splitext (name ++ "." ++ e)
  = if all_dots name then (name ++ "." ++ e, "") else (name, "." ++ e).
Proof.
  intros Hn He Hd. unfold splitext, rfind.
  rewrite !rfind_from_app.
  rewrite (rfind_from_absent "/" name) by exact Hn.
  cbn [append rfind_from Ascii.eqb Bool.eqb String.length].
  rewrite (rfind_from_absent "/" e) by exact He.
  rewrite (rfind_from_absent "." e) by exact Hd.
  change (-1 + 1)%Z with 0%Z. cbn [Z.to_nat].
  replace (0 + Z.of_nat (String.length name) - -1 - 1)%Z
    with (Z.of_nat (String.length name)) by lia.
  replace (0 + Z.of_nat (String.length name))%Z
    with (Z.of_nat (String.length name)) by lia.
  rewrite Nat2Z.id.
  assert (L : (-1 <? Z.of_nat (String.length name))%Z = true)
    by (apply Z.ltb_lt; lia).
  rewrite L. cbn [andb].
  rewrite (substring_prefix name (String "." e)), (drop_app name (String "." e)).
  destruct (all_dots name); reflexivity.
Qed.

(** Characters that [Ascii.eqb] tells apart differ. *)
Lemma ascii_eqb_false_neq (a b : ascii) : Ascii.eqb a b = false -> a <> b.
Proof. intros H E. subst. rewrite Ascii.eqb_refl in H. discriminate. Qed.

(** The empty string starts every string. *)
Lemma prefix_nil (s : string) : prefix "" s = true.
Proof. destruct s; reflexivity. Qed.

(** The first [" at "] of a text whose beginning holds no space. *)
Lemma after_first_at_skip (pre rest : string) :
  has_char " " pre = false ->
  after_first " at " (pre ++ " at " ++ rest) = Some rest.
Proof.
  induction pre as [|c p IH]; intros H.
  - cbn. rewrite prefix_nil. reflexivity.
  - cbn [has_char] in H. apply orb_false_iff in H. destruct H as [Hc Hp].
    apply ascii_eqb_false_neq in Hc.
    cbn [append after_first prefix].
    destruct (ascii_dec " " c) as [E|_]; [subst; contradiction Hc; reflexivity|].
    exact (IH Hp).
Qed.

Lemma contains_at_skip (pre rest : string) :
  contains (pre ++ " at " ++ rest) " at " = true.
Proof.
  induction pre as [|c p IH].
  - cbn. rewrite prefix_nil. reflexivity.
  - change (prefix " at " (String c (p ++ " at " ++ rest))
            || contains (p ++ " at " ++ rest) " at " = true).
    rewrite IH. apply orb_true_r.
Qed.

(** [replace(".", "")] takes the closing period away, and with it
    every other period. *)
Lemma replace_period_last (s : string) :
  has_char "." s = false -> replace (s ++ ".") "." "" = s.
Proof.
  unfold replace. induction s as [|c s IH]; intros H.
  - reflexivity.
  - cbn [has_char] in H. apply orb_false_iff in H. destruct H as [Hc Hs].
    apply ascii_eqb_false_neq in Hc.
    cbn [append replace_from prefix].
    destruct (ascii_dec "." c) as [E|_]; [subst; contradiction Hc; reflexivity|].
    rewrite (IH Hs). reflexivity.
Qed.

Lemma replace_period_none (s : string) :
  has_char "." (replace s "." "") = false.
Proof.
  unfold replace. induction s as [|c s IH].
  - reflexivity.
  - cbn [replace_from prefix].
    destruct (ascii_dec "." c) as [E|N].
    + rewrite prefix_nil. cbn. exact IH.
    + cbn [has_char]. rewrite IH.
      destruct (Ascii.eqb c ".") eqn:E; [|reflexivity].
      apply Ascii.eqb_eq in E. subst. contradiction N. reflexivity.
Qed.

(** Stripping adds no character. *)
Lemma has_char_lstrip (c : ascii) (s : string) :
  has_char c s = false -> has_char c (lstrip s) = false.
Proof.
  induction s as [|a s IH]; intros H; [reflexivity|].
  cbn [lstrip]. destruct (isspace a); [|exact H].
  cbn [has_char] in H. apply orb_false_iff in H. apply IH, H.
Qed.

Lemma has_char_rstrip (c : ascii) (s : string) :
  has_char c s = false -> has_char c (rstrip s) = false.
Proof.
  induction s as [|a s IH]; intros H; [reflexivity|].
  cbn [has_char] in H. apply orb_false_iff in H. destruct H as [Ha Hs].
  cbn [rstrip]. destruct (isspace a && is_empty (rstrip s)); [reflexivity|].
  cbn [has_char]. rewrite Ha, (IH Hs). reflexivity.
Qed.

(** X1: The path [mount_container] reads off the confirmation line
    [Mounted /dev/mapper/m at path.] is [path] exactly when [path] holds
    no period ([m] without a space, [path] without white space around
    it): the replacement meant for the closing period removes them
    all. *)
Theorem mount_path_recovered_iff_no_period (m path : string) :
  has_char " " m = false ->
  strip path = path ->
  mount_path_of ("Mounted /dev/mapper/" ++ m ++ " at " ++ path ++ ".") = Some path
  <-> has_char "." path = false.
Proof.
  intros Hm Hp.
  assert (A : after_first " at "
                ("Mounted /dev/mapper/" ++ m ++ " at " ++ path ++ ".")
              = Some (path ++ ".")).
  { change ("Mounted /dev/mapper/" ++ m ++ " at " ++ path ++ ".")
      with ("Mounted" ++ " " ++ ("/dev/mapper/" ++ m) ++ " at " ++ path ++ ".").
    cbn [append after_first prefix].
    repeat match goal with
      | |- context [ascii_dec ?a ?b] => destruct (ascii_dec a b); try discriminate
      end.
    all: apply (after_first_at_skip m), Hm. }
  unfold mount_path_of.
  change ("Mounted /dev/mapper/" ++ m ++ " at " ++ path ++ ".")
    with (("Mounted /dev/mapper/" ++ m) ++ " at " ++ path ++ ".") at 1.
  rewrite contains_at_skip, A.
  split.
  - intros E. injection E as E. rewrite <- E.
    apply has_char_rstrip, has_char_lstrip, replace_period_none.
  - intros N. rewrite (replace_period_last _ N), Hp. reflexivity.
Qed.

(** The line of the documentation. *)
Lemma mount_path_recovered_witness :
  mount_path_of ("Mounted /dev/mapper/" ++ "vault_mapper" ++ " at "
                 ++ "/run/media/alice/vault" ++ ".")
  = Some "/run/media/alice/vault".
Proof.
  apply (mount_path_recovered_iff_no_period "vault_mapper" "/run/media/alice/vault");
    reflexivity.
Defined.

(* ===================================================================== *)
(** * Sizes written as whole numbers                                     *)
(* ===================================================================== *)

(** ** Whole numbers go through binary64 unchanged *)

Lemma iter_pos_nat {A : Type} (f : A -> A) (p : positive) (x : A) :
  iter_pos f p x = Nat.iter (Pos.to_nat p) f x.
Proof.
  revert x. induction p as [p IH|p IH|]; intros x; cbn [iter_pos].
  - rewrite !IH, Pos2Nat.inj_xI.
    replace (S (2 * Pos.to_nat p)) with (Pos.to_nat p + (Pos.to_nat p + 1))%nat by lia.
    rewrite !Nat.iter_add. reflexivity.
  - rewrite !IH, Pos2Nat.inj_xO.
    replace (2 * Pos.to_nat p)%nat with (Pos.to_nat p + Pos.to_nat p)%nat by lia.
    rewrite Nat.iter_add. reflexivity.
  - reflexivity.
Qed.

(** Shifting out zero bits loses nothing. *)
Lemma shr_zeros (q : nat) (y : positive) (m : positive) :
  Zpos m = (Zpos y * 2 ^ Z.of_nat q)%Z ->
  Nat.iter q shr_1 {| shr_m := Zpos m; shr_r := false; shr_s := false |}
  = {| shr_m := Zpos y; shr_r := false; shr_s := false |}.
Proof.
  revert y m. induction q as [|q IH]; intros y m E.
  - change (Z.of_nat 0) with 0%Z in E. rewrite Z.pow_0_r, Z.mul_1_r in E.
    injection E as ->. reflexivity.
  - rewrite Nat.iter_succ_r.
    destruct m as [m|m|].
    + exfalso. rewrite Nat2Z.inj_succ, Z.pow_succ_r in E by lia. lia.
    + cbn [shr_1 orb]. apply IH.
      rewrite Nat2Z.inj_succ, Z.pow_succ_r in E by lia. lia.
    + exfalso. rewrite Nat2Z.inj_succ, Z.pow_succ_r in E by lia.
      assert (0 < 2 ^ Z.of_nat q)%Z by (apply Z.pow_pos_nonneg; lia). nia.
Qed.

Lemma digits2_size (p : positive) : digits2_pos p = Pos.size p.
Proof. induction p as [p IH|p IH|]; cbn; rewrite ?IH; reflexivity. Qed.

Lemma digits2_log2 (p : positive) :
  Zpos (digits2_pos p) = (Z.log2 (Zpos p) + 1)%Z.
Proof.
  rewrite digits2_size. destruct p as [p|p|]; cbn [Z.log2 Pos.size]; lia.
Qed.

Lemma digits_of_shifted (n : Z) (m : positive) (k : nat) :
  (0 < n)%Z ->
  Zpos m = (n * 2 ^ Z.of_nat k)%Z ->
  Zpos (digits2_pos m) = (Z.log2 n + 1 + Z.of_nat k)%Z.
Proof.
  intros Hn E. rewrite digits2_log2, E, Z.log2_mul_pow2 by lia. lia.
Qed.

(** Rounding a whole number below [2^53] to 53 bits only moves zero
    bits between mantissa and exponent, and doing it again changes
    nothing. *)
Lemma shr_fexp_exact (n : Z) (m : positive) (k : nat) :
  (0 < n < 2 ^ 53)%Z ->
  Zpos m = (n * 2 ^ Z.of_nat k)%Z ->
  exists m' k',
    shr_fexp prec emax (Zpos m) (- Z.of_nat k) loc_Exact
    = ({| shr_m := Zpos m'; shr_r := false; shr_s := false |}, (- Z.of_nat k')%Z) /\
    Zpos m' = (n * 2 ^ Z.of_nat k')%Z /\
    shr_fexp prec emax (Zpos m') (- Z.of_nat k') loc_Exact
    = ({| shr_m := Zpos m'; shr_r := false; shr_s := false |}, (- Z.of_nat k')%Z).
Proof.
  intros Hn E.
  set (D := (Z.log2 n + 1)%Z).
  assert (HD : (1 <= D <= 53)%Z).
  { unfold D. split; [pose proof (Z.log2_nonneg n); lia|].
    assert (Z.log2 n < 53)%Z by (apply Z.log2_lt_pow2; lia). lia. }
  assert (Sh : forall m1 k1,
             Zpos m1 = (n * 2 ^ Z.of_nat k1)%Z ->
             shr_fexp prec emax (Zpos m1) (- Z.of_nat k1) loc_Exact
             = shr {| shr_m := Zpos m1; shr_r := false; shr_s := false |}
                   (- Z.of_nat k1) (D - 53 + Z.of_nat k1)).
  { intros m1 k1 E1. unfold shr_fexp, Zdigits2, shr_record_of_loc.
    rewrite (digits_of_shifted n m1 k1) by (lia || exact E1).
    f_equal. unfold fexp, emin, prec, emax. fold D. lia. }
  destruct (D - 53 + Z.of_nat k)%Z as [|q|q] eqn:S.
  - exists m, k. rewrite (Sh m k E), S. cbn [shr]. auto.
  - set (k' := Z.to_nat (53 - D)).
    assert (Hk' : Z.of_nat k' = (53 - D)%Z) by (unfold k'; lia).
    assert (Pn : (0 < n * 2 ^ Z.of_nat k')%Z).
    { apply Z.mul_pos_pos; [lia | apply Z.pow_pos_nonneg; lia]. }
    destruct (n * 2 ^ Z.of_nat k')%Z as [|m'|m'] eqn:Em'; try lia.
    exists m', k'. split; [|split; [symmetry; exact Em'|]].
    + rewrite (Sh m k E), S. cbn [shr]. f_equal; [|lia].
      rewrite iter_pos_nat. apply shr_zeros.
      rewrite E, <- Em', <- Z.mul_assoc, <- Z.pow_add_r by lia.
      f_equal. f_equal. lia.
    + rewrite (Sh m' k') by (symmetry; exact Em').
      replace (D - 53 + Z.of_nat k')%Z with 0%Z by lia. reflexivity.
  - exists m, k. rewrite (Sh m k E), S. cbn [shr]. auto.
Qed.

Lemma round_aux_holds (n : Z) (m : positive) (k : nat) :
  (0 < n < 2 ^ 53)%Z ->
  Zpos m = (n * 2 ^ Z.of_nat k)%Z ->
  holds (binary_round_aux prec emax false (Zpos m) (- Z.of_nat k) loc_Exact) n.
Proof.
  intros Hn E.
  destruct (shr_fexp_exact n m k Hn E) as (m' & k' & S1 & E' & S2).
  unfold binary_round_aux. rewrite S1.
  cbn [shr_m loc_of_shr_record round_nearest_even]. rewrite S2.
  cbn [shr_m].
  assert (L : (- Z.of_nat k' <=? emax - prec)%Z = true)
    by (apply Z.leb_le; unfold emax, prec; lia).
  rewrite L. exists m', k'. auto.
Qed.

(** [float(n)] for a whole number below [2^53]. *)
Lemma float_of_int_holds (n : Z) :
  (0 < n < 2 ^ 53)%Z -> holds (float_of_int n) n.
Proof.
  intros Hn. unfold float_of_int, binary_normalize.
  destruct n as [|p|p]; try lia.
  unfold binary_round, shl_align.
  set (D := (Z.log2 (Zpos p) + 1)%Z).
  assert (HD : (1 <= D <= 53)%Z).
  { unfold D. split; [pose proof (Z.log2_nonneg (Zpos p)); lia|].
    assert (Z.log2 (Zpos p) < 53)%Z by (apply Z.log2_lt_pow2; lia). lia. }
  rewrite digits2_log2. fold D.
  replace (fexp prec emax (D + 0) - 0)%Z with (D - 53)%Z
    by (unfold fexp, emin, prec, emax; lia).
  replace (fexp prec emax (D + 0))%Z with (D - 53)%Z
    by (unfold fexp, emin, prec, emax; lia).
  destruct (D - 53)%Z as [|q|q] eqn:S; try lia.
  - apply (round_aux_holds (Zpos p) p 0 Hn). cbn. lia.
  - replace (Zneg q) with (- Z.of_nat (Pos.to_nat q))%Z by lia.
    apply round_aux_holds; [exact Hn|].
    rewrite positive_nat_Z. clear.
    induction q using Pos.peano_ind.
    + cbn [Pos.iter]. lia.
    + rewrite Pos.iter_succ, Pos2Z.inj_xO, IHq, Pos2Z.inj_succ, Z.pow_succ_r
        by lia.
      lia.
Qed.

(** The product of two floats that hold whole numbers holds the
    product, as long as it stays below [2^53]. *)
Lemma float_mul_holds (x y : spec_float) (a b : Z) :
  holds x a -> holds y b -> (0 < a)%Z -> (0 < b)%Z -> (a * b < 2 ^ 53)%Z ->
  holds (float_mul x y) (a * b).
Proof.
  intros (m1 & k1 & -> & E1) (m2 & k2 & -> & E2) Ha Hb Hab.
  unfold float_mul, SFmul. cbn [xorb].
  replace (- Z.of_nat k1 + - Z.of_nat k2)%Z with (- Z.of_nat (k1 + k2))%Z by lia.
  apply round_aux_holds; [lia|].
  rewrite Pos2Z.inj_mul, E1, E2, Nat2Z.inj_add, Z.pow_add_r by lia. ring.
Qed.

(** [int(x)] gives the number back. *)
Lemma int_of_float_holds (x : spec_float) (n : Z) :
  holds x n -> int_of_float x = inr n.
Proof.
  intros (m & k & -> & E). unfold int_of_float.
  destruct k as [|k].
  - cbn in E |- *. f_equal. lia.
  - cbn [Z.of_nat Z.opp]. f_equal. rewrite E.
    rewrite Z.shiftr_div_pow2 by lia.
    rewrite <- (Z.div_mul n (2 ^ Zpos (Pos.of_succ_nat k))) at 2
      by (apply Z.pow_nonzero; lia).
    reflexivity.
Qed.

(** ** Reading a string of digits *)

Lemma digit_not_space (c : ascii) : is_digit c = true -> isspace c = false.
Proof.
  unfold is_digit, isspace. intros H.
  apply andb_true_iff in H. destruct H as [H1 H2].
  apply Nat.leb_le in H1.
  replace (Nat.leb (nat_of_ascii c) 13) with false
    by (symmetry; apply Nat.leb_gt; lia).
  replace (Nat.leb (nat_of_ascii c) 32) with false
    by (symmetry; apply Nat.leb_gt; lia).
  rewrite !andb_false_r. reflexivity.
Qed.

Lemma digit_upper (c : ascii) : is_digit c = true -> upper_char c = c.
Proof.
  unfold is_digit, upper_char. intros H.
  apply andb_true_iff in H. destruct H as [H1 H2].
  apply Nat.leb_le in H2.
  replace (Nat.leb 97 (nat_of_ascii c)) with false
    by (symmetry; apply Nat.leb_gt; lia).
  reflexivity.
Qed.

Lemma digit_is_no (c x : ascii) :
  is_digit c = false -> is_digit x = true -> Ascii.eqb x c = false.
Proof.
  intros Hc Hx. destruct (Ascii.eqb x c) eqn:E; [|reflexivity].
  apply Ascii.eqb_eq in E. congruence.
Qed.

Lemma all_chars_app (P : ascii -> bool) (a b : string) :
  all_chars P (a ++ b) = all_chars P a && all_chars P b.
Proof.
  induction a as [|c a IH]; [reflexivity|].
  cbn [append all_chars]. rewrite IH. apply andb_assoc.
Qed.

Lemma all_chars_impl (P Q : ascii -> bool) (s : string) :
  (forall c, P c = true -> Q c = true) ->
  all_chars P s = true -> all_chars Q s = true.
Proof.
  intros I. induction s as [|c s IH]; [reflexivity|].
  cbn [all_chars]. intros H. apply andb_true_iff in H. destruct H as [H1 H2].
  rewrite (I c H1), (IH H2). reflexivity.
Qed.

(** A string without white space is its own [strip]. *)
Lemma rstrip_id (s : string) :
  all_chars (fun c => negb (isspace c)) s = true -> rstrip s = s.
Proof.
  induction s as [|c s IH]; [reflexivity|].
  cbn [all_chars rstrip]. intros H. apply andb_true_iff in H.
  destruct H as [H1 H2]. apply negb_true_iff in H1.
  rewrite H1, (IH H2). reflexivity.
Qed.

Lemma strip_id (s : string) :
  all_chars (fun c => negb (isspace c)) s = true -> strip s = s.
Proof.
  intros H. unfold strip.
  replace (lstrip s) with s; [apply rstrip_id, H|].
  destruct s as [|c s]; [reflexivity|].
  cbn [all_chars] in H. apply andb_true_iff in H. destruct H as [H1 _].
  apply negb_true_iff in H1. cbn [lstrip]. rewrite H1. reflexivity.
Qed.

(** A digit is none of the characters [int] and [float] skip, and a
    string without them is its own [trim]. *)
Lemma digit_not_literal_space (c : ascii) :
  is_digit c = true -> is_literal_space c = false.
Proof.
  unfold is_digit, is_literal_space. intros H.
  apply andb_true_iff in H. destruct H as [H1 H2].
  apply Nat.leb_le in H1.
  replace (Nat.leb (nat_of_ascii c) 13) with false
    by (symmetry; apply Nat.leb_gt; lia).
  replace (Nat.eqb (nat_of_ascii c) 32) with false
    by (symmetry; apply Nat.eqb_neq; lia).
  rewrite andb_false_r. reflexivity.
Qed.

Lemma trim_right_id (s : string) :
  all_chars (fun c => negb (is_literal_space c)) s = true -> trim_right s = s.
Proof.
  induction s as [|c s IH]; [reflexivity|].
  cbn [all_chars trim_right]. intros H. apply andb_true_iff in H.
  destruct H as [H1 H2]. apply negb_true_iff in H1.
  rewrite H1, (IH H2). reflexivity.
Qed.

Lemma trim_id (s : string) :
  all_chars (fun c => negb (is_literal_space c)) s = true -> trim s = s.
Proof.
  intros H. unfold trim.
  replace (trim_left s) with s; [apply trim_right_id, H|].
  destruct s as [|c s]; [reflexivity|].
  cbn [all_chars] in H. apply andb_true_iff in H. destruct H as [H1 _].
  apply negb_true_iff in H1. cbn [trim_left]. rewrite H1. reflexivity.
Qed.

Lemma upper_app (a b : string) : upper (a ++ b) = upper a ++ upper b.
Proof.
  induction a as [|c a IH]; [reflexivity|].
  cbn [append upper]. rewrite IH. reflexivity.
Qed.

Lemma upper_digits (d : string) : all_chars is_digit d = true -> upper d = d.
Proof.
  induction d as [|c d IH]; [reflexivity|].
  cbn [all_chars upper]. intros H. apply andb_true_iff in H.
  destruct H as [H1 H2]. rewrite (digit_upper c H1), (IH H2). reflexivity.
Qed.

(** The last character decides [endswith] on a one-character suffix. *)
Lemma endswith_char (a : string) (x c : ascii) :
  endswith (a ++ String x "") (String c "") = Ascii.eqb x c.
Proof.
  unfold endswith. rewrite length_app. cbn [String.length].
  replace (String.length a + 1 - 1)%nat with (String.length a) by lia.
  replace (Nat.leb 1 (String.length a + 1)) with true
    by (symmetry; apply Nat.leb_le; lia).
  pose proof (substring_skip a (String x "")) as S.
  cbn [String.length] in S. rewrite S. cbn [andb String.eqb].
  destruct (Ascii.eqb x c); reflexivity.
Qed.

Lemma last_char (s : string) :
  s <> "" -> exists a x, s = a ++ String x "".
Proof.
  induction s as [|c s IH]; intros N; [contradiction N; reflexivity|].
  destruct s as [|c' s].
  - exists "", c. reflexivity.
  - destruct IH as (a & x & E); [discriminate|].
    exists (String c a), x. cbn [append]. rewrite <- E. reflexivity.
Qed.

Lemma digits_end_in_no_letter (d : string) (c : ascii) :
  all_chars is_digit d = true -> is_digit c = false ->
  endswith d (String c "") = false.
Proof.
  intros H Hc. destruct d as [|c0 d0] eqn:Ed; [reflexivity|].
  destruct (last_char (String c0 d0)) as (a & x & E); [discriminate|].
  rewrite E in H |- *. rewrite endswith_char.
  rewrite all_chars_app in H. apply andb_true_iff in H.
  destruct H as [_ H]. cbn [all_chars] in H. rewrite andb_true_r in H.
  apply digit_is_no; assumption.
Qed.

Lemma drop_last_app (d : string) (c : ascii) :
  drop_last (d ++ String c "") = d.
Proof.
  unfold drop_last. rewrite length_app. cbn [String.length].
  replace (String.length d + 1 - 1)%nat with (String.length d) by lia.
  apply substring_prefix.
Qed.

Lemma span_digits_all (d : string) :
  all_chars is_digit d = true -> span_digits d = (d, "").
Proof.
  induction d as [|c d IH]; [reflexivity|].
  cbn [all_chars span_digits]. intros H. apply andb_true_iff in H.
  destruct H as [H1 H2]. rewrite H1, (IH H2). reflexivity.
Qed.

Lemma digitpart_ok_all (d : string) :
  all_chars is_digit d = true -> digitpart_ok d true = true.
Proof.
  induction d as [|c d IH]; [reflexivity|].
  cbn [all_chars digitpart_ok]. intros H. apply andb_true_iff in H.
  destruct H as [H1 H2]. rewrite H1. exact (IH H2).
Qed.

Lemma digits_val_nonneg (s : string) (acc : Z) :
  (0 <= acc)%Z -> (0 <= digits_val s acc)%Z.
Proof.
  revert acc. induction s as [|c s IH]; intros acc H; [exact H|].
  cbn [digits_val]. destruct (is_digit c); apply IH; [|exact H].
  unfold digit_val. lia.
Qed.

Lemma split_sign_digit (c : ascii) (r : string) :
  is_digit c = true -> split_sign (String c r) = (false, String c r).
Proof.
  destruct c as [[] [] [] [] [] [] [] []]; intros H;
    try discriminate H; reflexivity.
Qed.

Lemma digit_string_is_no_word (c : ascii) (r w : string) (x : ascii) :
  is_digit c = true -> is_digit x = false ->
  String.eqb (String c r) (String x w) = false.
Proof.
  intros Hc Hx. cbn [String.eqb]. rewrite (digit_is_no x c Hx Hc). reflexivity.
Qed.

(** [float] on a string of digits. *)
Lemma float_of_digits (d : string) :
  d <> "" -> all_chars is_digit d = true ->
  float_of_str d = inr (round_dec false (digits_val d 0) 0).
Proof.
  intros N H. unfold float_of_str, parse_float.
  rewrite trim_id
    by (apply (all_chars_impl is_digit); [|exact H];
        intros c Hc; rewrite (digit_not_literal_space c Hc); reflexivity).
  destruct d as [|c r]; [contradiction N; reflexivity|].
  assert (Hc : is_digit c = true).
  { cbn [all_chars] in H. apply andb_true_iff in H. exact (proj1 H). }
  rewrite (split_sign_digit c r Hc), (upper_digits _ H).
  rewrite !(digit_string_is_no_word c r _ _ Hc) by reflexivity.
  cbn [orb]. rewrite (span_digits_all _ H).
  cbn [is_empty orb andb negb parse_exponent digits_val count_digits].
  replace (digitpart_ok (String c r) false) with true; [reflexivity|].
  cbn [digitpart_ok]. rewrite Hc. symmetry. apply digitpart_ok_all.
  cbn [all_chars] in H. apply andb_true_iff in H. exact (proj2 H).
Qed.

(** [int] on a string of digits: its value, unless there are more than
    [max_str_digits] of them. *)
Lemma count_digits_all (d : string) :
  all_chars is_digit d = true -> count_digits d = Z.of_nat (String.length d).
Proof.
  induction d as [|c d IH]; [reflexivity|].
  cbn [all_chars count_digits String.length]. intros H.
  apply andb_true_iff in H. destruct H as [H1 H2].
  rewrite H1, (IH H2). lia.
Qed.

Lemma int_of_digits (d : string) :
  d <> "" -> all_chars is_digit d = true ->
  int_of_str d
  = if (max_str_digits <? Z.of_nat (String.length d))%Z
    then inl (ValueError (DigitLimit d))
    else inr (digits_val d 0).
Proof.
  intros N H. unfold int_of_str.
  rewrite trim_id
    by (apply (all_chars_impl is_digit); [|exact H];
        intros c Hc; rewrite (digit_not_literal_space c Hc); reflexivity).
  destruct d as [|c r]; [contradiction N; reflexivity|].
  assert (Hc : is_digit c = true).
  { cbn [all_chars] in H. apply andb_true_iff in H. exact (proj1 H). }
  rewrite (split_sign_digit c r Hc), (span_digits_all _ H).
  rewrite (count_digits_all _ H).
  replace (digitpart_ok (String c r) false) with true; [reflexivity|].
  cbn [digitpart_ok]. rewrite Hc. symmetry. apply digitpart_ok_all.
  cbn [all_chars] in H. apply andb_true_iff in H. exact (proj2 H).
Qed.

Lemma app_empty (s : string) : s ++ "" = s.
Proof. induction s as [|c s IH]; [reflexivity|]. cbn [append]. rewrite IH. reflexivity. Qed.

(** [float] of a string of digits, times a whole multiplier, and back
    to [int]. *)
Lemma whole_number_through_float (d : string) (mult : Z) :
  d <> "" -> all_chars is_digit d = true ->
  (0 < mult < 2 ^ 53)%Z ->
  (digits_val d 0 * mult < 2 ^ 53)%Z ->
  match float_of_str d with
  | inl (ValueError _) => inr None
  | inl e => inl e
  | inr val =>
      match int_of_float (float_mul val (float_of_int mult)) with
      | inl e => inl e
      | inr n => inr (Some n)
      end
  end = (inr (Some (digits_val d 0 * mult)%Z) : exn + option Z).
Proof.
  intros N H Hm Hb. rewrite (float_of_digits d N H).
  pose proof (digits_val_nonneg d 0 (Z.le_refl 0)) as P.
  assert (Hmult : holds (float_of_int mult) mult)
    by (apply float_of_int_holds; exact Hm).
  unfold round_dec.
  destruct (digits_val d 0) as [|p|p] eqn:E; try lia.
  - destruct Hmult as (m & k & -> & _). reflexivity.
  - cbn [Z.leb Z.compare]. change (10 ^ 0)%Z with 1%Z. rewrite Z.mul_1_r.
    change (binary_normalize prec emax (Zpos p) 0 false)
      with (float_of_int (Zpos p)).
    rewrite (int_of_float_holds _ (Zpos p * mult)); [reflexivity|].
    apply float_mul_holds; try lia; [|exact Hmult].
    apply float_of_int_holds. nia.
Qed.

(** X2: A size written as a whole number, with or without one of the
    suffixes K, M and G in either case, is converted exactly: the result
    is the number times the multiplier of the suffix, as long as that
    is below [2^53] bytes. *)
Theorem whole_sizes_are_exact (d suffix : string) (mult : Z) :
  d <> "" ->
  all_chars is_digit d = true ->
  size_unit suffix = Some mult ->
  (digits_val d 0 * mult < 2 ^ 53)%Z ->
  _parse_size_to_bytes (d ++ suffix) = inr (Some (digits_val d 0 * mult)%Z).
Proof.
  intros N H U Hb.
  assert (Sp : all_chars (fun c => negb (isspace c)) d = true).
  { apply (all_chars_impl is_digit); [|exact H].
    intros c Hc. rewrite (digit_not_space c Hc). reflexivity. }
  assert (Cases : (suffix = "" /\ mult = 1%Z) \/
                  ((suffix = "K" \/ suffix = "k") /\ mult = 1024%Z) \/
                  ((suffix = "M" \/ suffix = "m") /\ mult = (1024 ^ 2)%Z) \/
                  ((suffix = "G" \/ suffix = "g") /\ mult = (1024 ^ 3)%Z)).
  { unfold size_unit in U.
    destruct (String.eqb suffix "") eqn:E0;
      [apply String.eqb_eq in E0; left; split; congruence|].
    destruct (String.eqb suffix "K" || String.eqb suffix "k") eqn:E1.
    { right; left. split; [|congruence].
      apply orb_true_iff in E1. destruct E1 as [E1|E1];
        apply String.eqb_eq in E1; auto. }
    destruct (String.eqb suffix "M" || String.eqb suffix "m") eqn:E2.
    { right; right; left. split; [|congruence].
      apply orb_true_iff in E2. destruct E2 as [E2|E2];
        apply String.eqb_eq in E2; auto. }
    destruct (String.eqb suffix "G" || String.eqb suffix "g") eqn:E3;
      [|discriminate U].
    right; right; right. split; [|congruence].
    apply orb_true_iff in E3. destruct E3 as [E3|E3];
      apply String.eqb_eq in E3; auto. }
  unfold _parse_size_to_bytes.
  assert (St : strip (d ++ suffix) = d ++ suffix).
  { apply strip_id. rewrite all_chars_app, Sp.
    destruct Cases as [(-> & _)|[([-> | ->] & _)|[([-> | ->] & _)|([-> | ->] & _)]]];
      reflexivity. }
  rewrite St, upper_app, (upper_digits d H).
  destruct Cases as [(-> & ->)|[(Sx & ->)|[(Sx & ->)|(Sx & ->)]]].
  - cbn [upper]. rewrite !app_empty.
    rewrite !(digits_end_in_no_letter d _ H) by reflexivity.
    apply whole_number_through_float; auto. split; reflexivity.
  - replace (upper suffix) with "K" by (destruct Sx as [-> | ->]; reflexivity).
    rewrite !endswith_char. cbn [Ascii.eqb Bool.eqb andb]. rewrite drop_last_app.
    apply whole_number_through_float; auto. split; reflexivity.
  - replace (upper suffix) with "M" by (destruct Sx as [-> | ->]; reflexivity).
    rewrite !endswith_char. cbn [Ascii.eqb Bool.eqb andb]. rewrite drop_last_app.
    apply whole_number_through_float; auto. split; reflexivity.
  - replace (upper suffix) with "G" by (destruct Sx as [-> | ->]; reflexivity).
    rewrite !endswith_char. cbn [Ascii.eqb Bool.eqb andb]. rewrite drop_last_app.
    apply whole_number_through_float; auto. split; reflexivity.
Qed.

(** Three terabytes, written [3072g]. *)
Lemma whole_sizes_witness :
  _parse_size_to_bytes ("3072" ++ "g") = inr (Some (3072 * 1024 ^ 3)%Z).
Proof.
  apply (whole_sizes_are_exact "3072" "g" (1024 ^ 3)).
  - discriminate.
  - reflexivity.
  - reflexivity.
  - vm_compute. reflexivity.
Defined.

(** A text without a number: ["tenG"]. *)
Lemma size_without_number_witness : _parse_size_to_bytes "tenG" = inr None.
Proof.
  apply (size_without_number "tenG"
           (ValueError (BadFloatLiteral "TENG")) (ValueError (BadFloatLiteral "TEN")));
    vm_compute; reflexivity.
Defined.

(* ===================================================================== *)
(** * What the helpers find                                              *)
(* ===================================================================== *)

Section Helpers.
Variable self : SecureContainerApp.
Variable W : Type.
Variable h : handler W.

(** X4: [_detect_open_mappers] returns the entries of its listing of
    [/dev/mapper] whose names end in [_mapper], in listing order: the
    test against [control] never decides, and [control] is never
    returned.  Without the directory it returns the empty list and lists
    nothing.  It starts no child process and shows no box. *)
Theorem detect_open_mappers_result (w : W) :
  let r := exec h _detect_open_mappers w in
  exists l,
    result r = Returned l /\
    l = filter (fun m => endswith m "_mapper") (mapper_listing (trace r)) /\
    ~ In "control" l /\
    spawned (trace r) = [] /\
    dialogs (trace r) = [] /\
    ((exists entries,
        trace r = [io_isdir "/dev/mapper" true; io_listdir "/dev/mapper" entries])
     \/ (trace r = [io_isdir "/dev/mapper" false] /\ l = [])).
Proof.
  cbv zeta. unfold _detect_open_mappers.
  symex h.
  all: eexists; split; [reflexivity|].
  all: unfold dialogs; cbn [record mapper_listing String.eqb Ascii.eqb Bool.eqb
                            spawned filter is_dialog].
  all: negbs; subst.
  - repeat split; auto.
  - split; [|split; [|repeat split; eauto]].
    + apply filter_ext_in. intros m _.
      destruct (String.eqb m "control") eqn:E; [|apply andb_true_r].
      apply String.eqb_eq in E. subst m. reflexivity.
    + intros I. apply filter_In in I. destruct I as [_ I]. discriminate I.
Qed.

End Helpers.

(** Code-point order is transitive. *)
Lemma ascii_compare_lt_trans (a b c : ascii) :
  Ascii.compare a b = Lt -> Ascii.compare b c = Lt -> Ascii.compare a c = Lt.
Proof.
  unfold Ascii.compare. rewrite !N.compare_lt_iff. lia.
Qed.

Lemma string_compare_lt_trans (s1 s2 s3 : string) :
  String.compare s1 s2 = Lt -> String.compare s2 s3 = Lt ->
  String.compare s1 s3 = Lt.
Proof.
  revert s2 s3. induction s1 as [|a s1 IH]; intros [|b s2] [|c s3];
    cbn [String.compare]; try discriminate; auto.
  destruct (Ascii.compare a b) eqn:E1; try discriminate;
    destruct (Ascii.compare b c) eqn:E2; try discriminate; intros H1 H2.
  - apply Ascii.compare_eq_iff in E1, E2. subst.
    replace (Ascii.compare c c) with Eq; [eapply IH; eassumption|].
    unfold Ascii.compare. symmetry. apply N.compare_refl.
  - apply Ascii.compare_eq_iff in E1. subst. rewrite E2. reflexivity.
  - apply Ascii.compare_eq_iff in E2. subst. rewrite E1. reflexivity.
  - rewrite (ascii_compare_lt_trans _ _ _ E1 E2). reflexivity.
Qed.

Lemma le_str_trans (a b c : string) : le_str a b -> le_str b c -> le_str a c.
Proof.
  unfold le_str, String.leb. intros H1 H2.
  destruct (String.compare a b) eqn:E1; try discriminate;
    destruct (String.compare b c) eqn:E2; try discriminate.
  - apply String.compare_eq_iff in E1. subst. rewrite E2. reflexivity.
  - apply String.compare_eq_iff in E1. subst. rewrite E2. reflexivity.
  - apply String.compare_eq_iff in E2. subst. rewrite E1. reflexivity.
  - rewrite (string_compare_lt_trans _ _ _ E1 E2). reflexivity.
Qed.

(** [sorted] rearranges its argument, in ascending order. *)
Lemma insert_sorted_perm (x : string) (l : list string) :
  Permutation.Permutation (x :: l) (insert_sorted x l).
Proof.
  induction l as [|y l IH]; cbn [insert_sorted]; [apply Permutation.Permutation_refl|].
  destruct (String.leb x y); [apply Permutation.Permutation_refl|].
  eapply Permutation.perm_trans; [apply Permutation.perm_swap|].
  apply Permutation.perm_skip, IH.
Qed.

Lemma sorted_perm (l : list string) : Permutation.Permutation l (sorted l).
Proof.
  induction l as [|x l IH]; [apply Permutation.perm_nil|].
  cbn [sorted fold_right].
  eapply Permutation.perm_trans; [apply Permutation.perm_skip, IH|].
  apply insert_sorted_perm.
Qed.

Lemma insert_sorted_sorted (x : string) (l : list string) :
  Sorted.StronglySorted le_str l ->
  Sorted.StronglySorted le_str (insert_sorted x l).
Proof.
  induction 1 as [|y l S IH F]; cbn [insert_sorted].
  - repeat constructor.
  - destruct (String.leb x y) eqn:E.
    + constructor; [constructor; assumption|].
      constructor; [exact E|].
      eapply Forall_impl; [|exact F]. intros z Hz.
      eapply le_str_trans; [exact E | exact Hz].
    + constructor; [exact IH|].
      apply (Permutation.Permutation_Forall (insert_sorted_perm x l)).
      constructor; [|exact F].
      destruct (String.leb_total x y) as [T|T]; [congruence | exact T].
Qed.

Lemma sorted_sorted (l : list string) : Sorted.StronglySorted le_str (sorted l).
Proof.
  induction l as [|x l IH]; [constructor|].
  apply insert_sorted_sorted, IH.
Qed.

Section Files.
Variable self : SecureContainerApp.
Variable W : Type.
Variable h : handler W.

(** X5: [_get_container_files] returns, in ascending code-point order, the
    entries of its listing of the container directory that end in
    [.img] or [.luks], each as often as it was listed; without the
    directory it returns the empty list and lists nothing. *)
Theorem container_files_sorted_and_complete (w : W) :
  let r := exec h (_get_container_files self) w in
  exists l,
    result r = Returned l /\
    Sorted.StronglySorted le_str l /\
    spawned (trace r) = [] /\
    ((trace r = [io_isdir (container_dir self) false] /\ l = []) \/
     exists all_files,
       trace r = [io_isdir (container_dir self) true;
                  io_listdir (container_dir self) all_files] /\
       Permutation.Permutation l (filter is_container_file all_files) /\
       forall f, In f l <-> In f all_files /\ is_container_file f = true).
Proof.
  cbv zeta. unfold _get_container_files.
  symex h.
  all: negbs; subst; eexists; (split; [reflexivity|]).
  - split; [constructor|]. split; [reflexivity|]. left. auto.
  - split; [apply sorted_sorted|]. split; [reflexivity|]. right.
    eexists. split; [reflexivity|].
    split; [apply Permutation.Permutation_sym, sorted_perm|].
    intros f. rewrite <- filter_In.
    split; apply Permutation.Permutation_in;
      [apply Permutation.Permutation_sym|]; apply sorted_perm.
Qed.

(** X6: [list_containers] only looks and tells: it starts no child process
    and opens no dialog besides message boxes, and every information box
    is titled "Containers Found" and shows the entries of the listing
    that end in [.img] or [.luks], one per line in listing order, or
    "No container files found." when there is none. *)
Theorem list_containers_shows_the_listing (w : W) :
  let t := trace (exec h (list_containers self) w) in
  spawned t = [] /\
  forallb (fun e => is_silent e || is_dialog e) t = true /\
  forall title msg,
    In (io_showinfo title msg) t ->
    title = "Containers Found" /\
    exists all_files,
      In (io_listdir (container_dir self) all_files) t /\
      msg = match filter is_container_file all_files with
            | [] => "No container files found."
            | containers => join nl containers
            end.
Proof.
  cbv zeta. unfold list_containers, _verify_container_dir_on_partition.
  symex h.
  all: cbn [record spawned forallb is_silent is_dialog orb andb In].
  all: repeat (split; [reflexivity|]).
  all: intros title msg Hin;
    repeat (destruct Hin as [Hin|Hin]; [try discriminate Hin|]);
    try contradiction.
  all: injection Hin as <- <-; (split; [reflexivity|]).
  all: eexists; (split; [in_list|]).
  all: unfold is_container_file;
    match goal with H : filter _ _ = _ |- _ => rewrite H end; reflexivity.
Qed.

End Files.

(* ===================================================================== *)
(** * A directory under the mount point                                  *)
(* ===================================================================== *)

(** The common prefix of a list and one of its extensions is the list. *)
Lemma common_prefix_app (a b : list string) : common_prefix a (a ++ b) = a.
Proof.
  induction a as [|x a IH]; [destruct b; reflexivity|].
  cbn [app common_prefix]. rewrite String.eqb_refl, IH. reflexivity.
Qed.

(** [commonpath] of an absolute path and one of its descendants. *)
Lemma commonpath_of_descendant (cs more : list string) :
  Forall (fun x => has_char "/" x = false /\ is_component x = true)
         (cs ++ more) ->
  commonpath2 ("/" ++ join "/" cs) ("/" ++ join "/" (cs ++ more))
  = Some ("/" ++ join "/" cs).
Proof.
  intros F.
  assert (Fc : Forall (fun x => has_char "/" x = false /\ is_component x = true) cs).
  { apply Forall_forall. intros x Hx.
    apply (proj1 (Forall_forall _ _) F). apply in_or_app. left. exact Hx. }
  unfold commonpath2, startswith.
  cbn [append prefix]. rewrite !prefix_nil.
  destruct (ascii_dec "/" "/") as [_|N]; [|contradiction N; reflexivity].
  cbn [Bool.eqb].
  pose proof (components_of_joined true cs Fc) as C1.
  pose proof (components_of_joined true _ F) as C2.
  cbn [append] in C1, C2. rewrite C1, C2, common_prefix_app. reflexivity.
Qed.

Lemma any_commonpath_complete (l : list string) (real mnt : string) :
  (forall m, In m l -> startswith m "/" = true) ->
  startswith real "/" = true ->
  In mnt l ->
  commonpath2 mnt real = Some mnt ->
  any_commonpath l real = inr true.
Proof.
  intros Ha Hr. induction l as [|m l IH]; intros I C; [destruct I|].
  cbn [any_commonpath].
  destruct (commonpath2 m real) as [c|] eqn:Cm.
  - destruct (String.eqb c m) eqn:E; [reflexivity|].
    destruct I as [->|I].
    + rewrite C in Cm. injection Cm as <-. rewrite String.eqb_refl in E.
      discriminate E.
    + apply IH; [|exact I | exact C].
      intros m' Hm'. apply Ha. right. exact Hm'.
  - unfold commonpath2 in Cm. rewrite (Ha m (or_introl eq_refl)), Hr in Cm.
    discriminate Cm.
Qed.

Section Acceptance.
Variable self : SecureContainerApp.
Variable W : Type.
Variable h : handler W.

(** X7: The validation accepts a container directory whose real path lies
    under a mount point of the configured device: when the real path is
    [/c1/.../cn/d1/.../dk], the mount table gives [/c1/.../cn] for the
    device and every mount point it gives for the device is absolute,
    the validation answers [True] and shows no box. *)
Theorem validation_accepts_a_directory_under_the_mount_point
    (w : W) (lines : list string) (cs more : list string) :
  let r := exec h (_verify_container_dir_on_partition self) w in
  Forall (fun x => has_char "/" x = false /\ is_component x = true)
         (cs ++ more) ->
  In (io_lines "/proc/mounts" lines) (trace r) ->
  In (io_realpath (container_dir self) ("/" ++ join "/" (cs ++ more))) (trace r) ->
  In ("/" ++ join "/" cs) (mountpoints_of (partition_device self) lines) ->
  (forall m, In m (mountpoints_of (partition_device self) lines) ->
             startswith m "/" = true) ->
  result r = Returned true /\ dialogs (trace r) = [].
Proof.
  cbv zeta. intros F Hl Hr Hm Ha.
  assert (T : any_commonpath (mountpoints_of (partition_device self) lines)
                ("/" ++ join "/" (cs ++ more)) = inr true).
  { apply (any_commonpath_complete _ _ ("/" ++ join "/" cs));
      [exact Ha | | exact Hm | apply commonpath_of_descendant, F].
    unfold startswith. cbn [append prefix]. rewrite prefix_nil.
    destruct (ascii_dec "/" "/") as [_|N]; [reflexivity|].
    contradiction N. reflexivity. }
  cbn [append] in T.
  revert Hl Hr. unfold _verify_container_dir_on_partition.
  symex h.
  all: cbn [record In]; intros Hl Hr.
  all: repeat (destruct Hl as [Hl|Hl]; [try discriminate Hl|]);
    try contradiction.
  all: repeat (destruct Hr as [Hr|Hr]; [try discriminate Hr|]);
    try contradiction.
  all: injection Hl as ->; injection Hr as ->.
  all: negbs; subst.
  all: try (match goal with
            | H : mountpoints_of _ _ = [] |- _ => rewrite H in Hm; destruct Hm
            end).
  all: match goal with
       | H : mountpoints_of _ _ = _ :: _ |- _ => rewrite <- H in *
       end.
  all: try congruence.
  all: split; reflexivity.
Qed.

End Acceptance.

(** The container directory of the concrete runs, under [/mnt/data]. *)
Lemma validation_acceptance_witness :
  result (play calm (_verify_container_dir_on_partition alice_app) locked_world)
  = Returned true.
Proof.
  apply (validation_accepts_a_directory_under_the_mount_point alice_app _
           (Sim.step (Sim.script_of calm)) locked_world
           (map Sim.mount_line (Sim.mounts locked_world))
           ["mnt"; "data"] ["containers"]).
  - repeat constructor.
  - vm_compute. auto.
  - vm_compute. auto.
  - vm_compute. auto.
  - vm_compute. intros m [<-|[]]. reflexivity.
Defined.

(** The same run, read the other way. *)
Lemma validation_passes_witness :
  let r := play calm (_verify_container_dir_on_partition alice_app) locked_world in
  exists lines real mnt rest,
    In (io_lines "/proc/mounts" lines) (trace r) /\
    In (io_realpath (container_dir alice_app) real) (trace r) /\
    In mnt (mountpoints_of (partition_device alice_app) lines) /\
    components real = (components mnt ++ rest)%list.
Proof.
  cbv zeta.
  apply (validation_passes_under_mount_point alice_app _
           (Sim.step (Sim.script_of calm)) locked_world).
  vm_compute. reflexivity.
Defined.

(* ===================================================================== *)
(** * The free-space comparison                                          *)
(* ===================================================================== *)

Section Space.
Variable str_exn : exn -> string.
Variable W : Type.
Variable h : handler W.

(** The check once [df] has given a usable answer, by what [int] makes
    of the fourth column. *)
Lemma free_space_comparison
    (directory size_str : string) (w : W) (cp : CompletedProcess) :
  let r := exec h (_check_free_space str_exn directory size_str) w in
  In (io_spawn (df_argv directory) None true cp) (trace r) ->
  df_unusable cp = false ->
  exists n,
    _parse_size_to_bytes size_str = inr (Some n) /\
    match int_of_str (nth 3 (df_cols cp) "") with
    | inr available =>
        result r = Returned (n <=? available)%Z /\
        dialogs (trace r)
        = (if (n <=? available)%Z then []
           else [io_showerror "Error"
                   ("Not enough free space." ++ nl ++ "Requested: " ++ size_str
                    ++ nl ++ "Available: " ++ str_int available ++ " bytes.")])
    | inl e =>
        result r = Returned true /\
        dialogs (trace r) = [] /\
        In (io_logging WARNING ("Could not parse free space: " ++ str_exn e))
           (trace r)
    end.
Proof.
  cbv zeta. unfold _check_free_space.
  symex h.
  all: intros Hin U; cbn [record In] in Hin;
    repeat (destruct Hin as [Hin|Hin]; [try discriminate Hin|]);
    try contradiction.
  all: injection Hin as <-.
  all: unfold df_unusable, df_cols, df_lines in *.
  all: negbs.
  all: repeat match goal with
         | H : (_ =? _)%Z = _ |- _ => rewrite H in U
         | H : (_ <? _)%nat = _ |- _ => rewrite H in U
         end; cbn [negb orb] in U; try discriminate U.
  all: eexists; (split; [reflexivity|]).
  all: match goal with
       | H : int_of_str _ = _ |- _ => rewrite H
       end.
  all: unfold dialogs; cbn [filter is_dialog record].
  all: try match goal with
         | H : (?a <? ?n)%Z = true |- _ =>
             let L := fresh "L" in
             assert (L : (n <=? a)%Z = false)
               by (apply Z.leb_gt, Z.ltb_lt; exact H);
             rewrite L
         | H : (?a <? ?n)%Z = false |- _ =>
             let L := fresh "L" in
             assert (L : (n <=? a)%Z = true)
               by (apply Z.leb_le, Z.ltb_ge; exact H);
             rewrite L
         end.
  all: repeat split; in_list.
Qed.

(** X9: When [df] gives a usable answer, the free-space check compares: it
    answers [False], with a box that shows both numbers, exactly when
    the requested size exceeds the fourth column as [int] reads it; a
    fourth column that [int] refuses is logged as a warning and the
    check answers [True].  A column of digits is read as its value when
    it has at most 4300 digits, and refused when it has more. *)
Theorem free_space_check_compares_with_available
    (directory size_str : string) (w : W) (cp : CompletedProcess) :
  let r := exec h (_check_free_space str_exn directory size_str) w in
  let col := nth 3 (df_cols cp) "" in
  In (io_spawn (df_argv directory) None true cp) (trace r) ->
  df_unusable cp = false ->
  (exists n,
    _parse_size_to_bytes size_str = inr (Some n) /\
    match int_of_str col with
    | inr available =>
        result r = Returned (n <=? available)%Z /\
        dialogs (trace r)
        = (if (n <=? available)%Z then []
           else [io_showerror "Error"
                   ("Not enough free space." ++ nl ++ "Requested: " ++ size_str
                    ++ nl ++ "Available: " ++ str_int available ++ " bytes.")])
    | inl e =>
        result r = Returned true /\
        dialogs (trace r) = [] /\
        In (io_logging WARNING ("Could not parse free space: " ++ str_exn e))
           (trace r)
    end) /\
  (col <> "" -> all_chars is_digit col = true ->
   int_of_str col
   = if (Z.of_nat (String.length col) <=? 4300)%Z
     then inr (digits_val col 0)
     else inl (ValueError (DigitLimit col))).
Proof.
  cbv zeta. intros Hin U. split.
  - exact (free_space_comparison directory size_str w cp Hin U).
  - intros N D. rewrite (int_of_digits _ N D). unfold max_str_digits.
    destruct (Z.ltb_spec 4300 (Z.of_nat (String.length (nth 3 (df_cols cp) ""))));
      destruct (Z.leb_spec (Z.of_nat (String.length (nth 3 (df_cols cp) ""))) 4300);
      try lia; reflexivity.
Qed.

End Space.

(** [df] reports 5 GB available and 8 GiB are asked for. *)
Lemma free_space_comparison_witness :
  let r := play calm (_check_free_space plain_str_exn "/mnt/data/containers" "8G")
                locked_world in
  result r = Returned false /\
  dialogs (trace r)
  = [io_showerror "Error"
       ("Not enough free space." ++ nl ++ "Requested: 8G" ++ nl
        ++ "Available: 5000000000 bytes.")].
Proof.
  cbv zeta. unfold play.
  destruct (free_space_check_compares_with_available plain_str_exn _
              (Sim.step (Sim.script_of calm)) "/mnt/data/containers" "8G"
              locked_world {| returncode := 0; stdout := df_report |})
    as ((n & P & M) & D).
  - vm_compute. auto.
  - vm_compute. reflexivity.
  - rewrite D in M by (vm_compute; first [discriminate | reflexivity]).
    vm_compute in P. injection P as <-.
    exact M.
Defined.

(* ===================================================================== *)
(** * The three operations, case by case                                 *)
(* ===================================================================== *)

Section MountRuns.
Variable str_exn : exn -> string.
Variable self : SecureContainerApp.
Variable W : Type.
Variable h : handler W.

(** [mount_container], in every environment: what it starts, on what,
    and what each child process is given. *)
Lemma mount_cases (w : W) :
  let t := trace (exec h (mount_container str_exn self) w) in
  (spawned t = [] /\ fed t = [] /\ reports_success t = false) \/
  exists cfile pass,
    let m := fst (splitext cfile) ++ "_mapper" in
    let path := path_join (container_dir self) cfile in
    selection t = Some cfile /\
    passphrase_given t = Some pass /\
    agreed t = true /\
    mem m (mappers_seen (after_selection t)) = false /\
    (forall mp o, Sim.faithful mp o t -> ~ In m (fst o)) /\
    ((attempt [open_argv path m; mount_argv self m] (spawned t) /\
      fed t = firstn (length (spawned t))
                [(open_argv path m, Some (pass ++ nl)); (mount_argv self m, None)] /\
      reports_success t = false) \/
     exists p rc,
       spawned t = [(open_argv path m, 0%Z); (mount_argv self m, 0%Z);
                    (chown_argv self p, rc)] /\
       fed t = [(open_argv path m, Some (pass ++ nl)); (mount_argv self m, None);
                (chown_argv self p, None)] /\
       reports_success t = (rc =? 0)%Z).
Proof.
  cbv zeta.
  unfold mount_container, _verify_container_dir_on_partition,
    _get_container_files, _detect_open_mappers.
  symex h.
  all: negbs; subst.
  all: cbn [spawned fed record reports_success existsb String.eqb Ascii.eqb
            Bool.eqb orb].
  all: try (left; repeat split; reflexivity).
  all: right; eexists _, _;
    cbn [selection passphrase_given agreed after_selection];
    (split; [reflexivity|]); (split; [reflexivity|]); (split; [reflexivity|]).
  all: (split; [unfold mappers_seen;
                cbn [mapper_listing String.eqb Ascii.eqb Bool.eqb filter];
                assumption|]).
  all: (split; [intros mp o F; cbn [Sim.faithful record] in F; sim_facts;
                try discriminate; subst;
                match goal with
                | H : mem _ (filter _ _) = false |- _ =>
                    apply unseen_mapper_absent in H; cbn [In] in H; tauto
                end|]).
  all: statuses;
    repeat match goal with
      | H : returncode _ = 0%Z |- _ => rewrite !H; clear H
      end.
  all: try (left; split; [repeat apply attempt_next;
                          first [apply attempt_done
                                | apply attempt_stop; assumption]
                         | split; reflexivity]; fail).
  all: right; eexists _, _; split; [reflexivity|]; split; [reflexivity|].
  all: try reflexivity.
  all: symmetry; apply Z.eqb_neq; assumption.
Qed.

End MountRuns.

(** Observers on two records put end to end. *)
Lemma fed_app (t1 t2 : list io) : fed (t1 ++ t2)%list = (fed t1 ++ fed t2)%list.
Proof.
  induction t1 as [|e t1 IH]; [reflexivity|].
  destruct e; cbn [fed app]; rewrite IH; reflexivity.
Qed.

Lemma existence_app (t1 t2 : list io) :
  existence (t1 ++ t2)%list = (existence t1 ++ existence t2)%list.
Proof.
  induction t1 as [|e t1 IH]; [reflexivity|].
  destruct e; cbn [existence app]; rewrite IH; reflexivity.
Qed.

Lemma silent_app (t1 t2 : list io) :
  silent t1 = true ->
  agreed (t1 ++ t2)%list = agreed t2 /\
  after_question (t1 ++ t2)%list = after_question t2 /\
  typed (t1 ++ t2)%list = typed t2 /\
  passphrase_given (t1 ++ t2)%list = passphrase_given t2 /\
  selection (t1 ++ t2)%list = selection t2 /\
  reports_success (t1 ++ t2)%list = reports_success t2.
Proof.
  induction t1 as [|e t1 IH]; intros H; [repeat split|].
  cbn [silent forallb] in H. apply andb_true_iff in H. destruct H as [He H].
  specialize (IH H).
  destruct e; try discriminate He;
    cbn [app agreed after_question typed passphrase_given selection
         reports_success existsb orb]; exact IH.
Qed.

Section Quiet.
Variable str_exn : exn -> string.
Variable self : SecureContainerApp.
Variable W : Type.
Variable h : handler W.

Lemma verify_silent (w : W) :
  let t := trace (exec h (_verify_container_dir_on_partition self) w) in
  silent t = true /\ fed t = [] /\
  exists b, existence t = [(container_dir self, b)].
Proof.
  cbv zeta. unfold _verify_container_dir_on_partition.
  symex h.
  all: cbn [record silent forallb is_silent andb fed existence].
  all: repeat split; eexists; reflexivity.
Qed.

Lemma free_space_silent (directory size_str : string) (w : W) :
  let t := trace (exec h (_check_free_space str_exn directory size_str) w) in
  silent t = true /\ existence t = [] /\
  fed t = map (fun c => (fst c, None)) (spawned t).
Proof.
  cbv zeta. unfold _check_free_space.
  symex h.
  all: cbn [record silent forallb is_silent andb fed existence spawned map fst].
  all: repeat split.
Qed.

End Quiet.

Section UnmountRuns.
Variable str_exn : exn -> string.
Variable self : SecureContainerApp.
Variable W : Type.
Variable h : handler W.

(** [unmount_container], in every environment. *)
Lemma unmount_cases (w : W) :
  let t := trace (exec h (unmount_container str_exn self) w) in
  (spawned t = [] /\ reports_success t = false) \/
  exists m,
    selection t = Some m /\
    agreed t = true /\
    attempt [unmount_argv self m; close_argv m] (spawned t) /\
    fed t = map (fun c => (fst c, None)) (spawned t) /\
    (reports_success t = true ->
     spawned t = [(unmount_argv self m, 0%Z); (close_argv m, 0%Z)]).
Proof.
  cbv zeta. unfold unmount_container, _detect_open_mappers.
  symex h.
  all: negbs; subst.
  all: cbn [spawned fed record reports_success existsb String.eqb Ascii.eqb
            Bool.eqb orb map fst].
  all: try (left; repeat split; reflexivity).
  all: right; eexists; cbn [selection agreed];
    (split; [reflexivity|]); (split; [reflexivity|]).
  all: statuses;
    repeat match goal with
      | H : returncode _ = 0%Z |- _ => rewrite !H; clear H
      end.
  all: split; [repeat apply attempt_next;
               first [apply attempt_done | apply attempt_stop; assumption]|].
  all: split; [reflexivity|]; intros S; try discriminate S; reflexivity.
Qed.

End UnmountRuns.

Lemma agreed_silent (t1 t2 : list io) :
  silent t1 = true -> agreed (t1 ++ t2)%list = agreed t2.
Proof. intros H. apply (silent_app t1 t2 H). Qed.

Lemma after_question_silent (t1 t2 : list io) :
  silent t1 = true -> after_question (t1 ++ t2)%list = after_question t2.
Proof. intros H. apply (silent_app t1 t2 H). Qed.

Lemma typed_silent (t1 t2 : list io) :
  silent t1 = true -> typed (t1 ++ t2)%list = typed t2.
Proof. intros H. apply (silent_app t1 t2 H). Qed.

Lemma passphrase_silent (t1 t2 : list io) :
  silent t1 = true -> passphrase_given (t1 ++ t2)%list = passphrase_given t2.
Proof. intros H. apply (silent_app t1 t2 H). Qed.

Lemma success_silent (t1 t2 : list io) :
  silent t1 = true -> reports_success (t1 ++ t2)%list = reports_success t2.
Proof. intros H. apply (silent_app t1 t2 H). Qed.

Lemma silent_nil_facts (t : list io) :
  silent t = true ->
  agreed t = false /\ after_question t = [] /\ typed t = [] /\
  passphrase_given t = None /\ reports_success t = false.
Proof.
  intros H. destruct (silent_app t [] H) as (A & B & C & D & _ & E).
  rewrite app_nil_r in *. auto.
Qed.

Section CreationRuns.
Variable str_exn : exn -> string.
Variable self : SecureContainerApp.
Variable W : Type.
Variable h : handler W.

Ltac read_record Vsil Fsil Vs Vfed Vex Fex :=
  rewrite ?spawned_app, ?fed_app, ?existence_app, ?Vs, ?Vfed, ?Vex, ?Fex;
  rewrite ?agreed_silent, ?after_question_silent, ?typed_silent,
    ?passphrase_silent, ?success_silent by first [exact Vsil | exact Fsil];
  cbn [app spawned fed existence agreed after_question typed passphrase_given
       reports_success existsb orb record String.eqb Ascii.eqb Bool.eqb map fst].

Lemma create_run (w : W) :
  let r := exec h (create_container str_exn self) w in
  let t := trace r in
  (exists pre,
     spawned t = (pre ++ spawned (after_question t))%list /\
     fed t = (map (fun c => (fst c, None)) pre ++ fed (after_question t))%list /\
     (pre = [] \/ exists rc, pre = [(df_argv (container_dir self), rc)])) /\
  (forall b p,
     existence t = [(container_dir self, b); (p, true)] ->
     spawned t = [] /\
     exists n,
       nth_error (typed t) 0 = Some (Some n) /\
       p = path_join (container_dir self) (strip n ++ ".img") /\
       In (io_showerror "Error" ("Container file already exists:" ++ nl ++ p)) t) /\
  ((spawned (after_question t) = [] /\ fed (after_question t) = [] /\
    reports_success t = false /\ agreed t = false) \/
   exists n s pass b,
     let name := strip n in
     let size_str := strip s in
     let path := path_join (container_dir self) (name ++ ".img") in
     typed t = [Some n; Some s] /\
     passphrase_given t = Some pass /\
     agreed t = true /\
     existence t = [(container_dir self, b); (path, false)] /\
     attempt (create_commands name size_str path) (spawned (after_question t)) /\
     fed (after_question t)
     = firstn (length (spawned (after_question t)))
              (create_feed name size_str path pass) /\
     (reports_success t = true ->
      spawned (after_question t)
      = map (fun c => (c, 0%Z)) (create_commands name size_str path)) /\
     result r = Returned tt /\
     ((reports_success t = true /\
       dialogs (after_question t)
       = [io_showinfo "Success" ("Created container:" ++ nl ++ path)]) \/
      (reports_success t = false /\
       exists err,
         dialogs (after_question t) = [io_showerror "Error" err] /\
         In (io_logging ERROR err) (after_question t) /\
         exists c rc, In (c, rc) (spawned (after_question t)) /\ rc <> 0%Z))).
Proof.
  cbv zeta. unfold create_container.
  destruct (verify_cases self W h w) as (_ & _ & Vs & _).
  destruct (verify_silent self W h w) as (Vsil & Vfed & (b0 & Vex)).
  rewrite exec_bind.
  set (rv := exec h (_verify_container_dir_on_partition self) w) in *.
  destruct (silent_nil_facts _ Vsil) as (Va & Vn & Vt & Vp & Vr).
  destruct (result rv) as [[|]|e]; cbn [result final trace negb].
  all: cycle 1.
  - cbn [exec trace]. rewrite app_nil_r, Vn, Vs, Vfed, Vex, Vr, Va.
    split; [exists []; auto|].
    split; [intros b p E; discriminate E | left; auto 8].
  - rewrite Vn, Vs, Vfed, Vex, Vr, Va.
    split; [exists []; auto|].
    split; [intros b p E; discriminate E | left; auto 8].
  - symex h.
    all: negbs; subst.
    all: repeat match goal with
           | H : option_map strip ?x = Some _ |- _ =>
               destruct x; cbn [option_map] in H;
               [injection H as H; rewrite <- ?H; clear H | discriminate H]
           end.
    all: read_record Vsil Vsil Vs Vfed Vex Vex.
    all: try (split; [exists []; auto|];
              split; [intros b p E; discriminate E | left; auto 8]; fail).
    { (* the file exists already *)
      split; [exists []; auto|]. split; [|left; auto 8].
      intros b p E. injection E as <- <-. split; [reflexivity|].
      eexists. split; [reflexivity|]. split; [reflexivity|].
      apply in_or_app. right. in_list. }
    rewrite exec_bind.
    match goal with
    | |- context [exec h (_check_free_space str_exn ?d ?sz) ?w1] =>
        destruct (free_space_cases str_exn W h d sz w1) as (_ & Fs & _);
        destruct (free_space_silent str_exn W h d sz w1) as (Fsil & Fex & Ffed);
        set (rf := exec h (_check_free_space str_exn d sz) w1) in *
    end.
    destruct (silent_nil_facts _ Fsil) as (Fa & Fn & Ft & Fp & Fr).
    assert (Fpre : spawned (trace rf) = [] \/
                   exists rc, spawned (trace rf) = [(df_argv (container_dir self), rc)]).
    { destruct Fs as [->|[cp ->]]; eauto. }
    clear Fs.
    destruct (result rf) as [[|]|e] eqn:Er; cbn [result final trace negb].
    + symex h.
      all: negbs; subst.
      all: read_record Vsil Fsil Vs Vfed Vex Fex.
      all: read_record Vsil Fsil Vs Vfed Vex Fex.
      all: (split; [exists (spawned (trace rf)); split; [reflexivity|];
                    split; [rewrite Ffed; reflexivity | exact Fpre]|]).
      all: (split; [intros b p E; exfalso; congruence|]).
      all: try (left; repeat split; reflexivity).
      all: right; eexists _, _, _, _;
        (split; [reflexivity|]); (split; [reflexivity|]);
        (split; [reflexivity|]); (split; [reflexivity|]).
      all: statuses;
        repeat match goal with
          | H : returncode _ = 0%Z |- _ => rewrite !H; clear H
          end.
      all: (split; [unfold create_commands; repeat apply attempt_next;
                    first [apply attempt_done | apply attempt_stop; assumption]|]).
      all: (split; [reflexivity|]).
      all: (split; [intros S; try discriminate S; reflexivity|]).
      all: repeat match goal with u : unit |- _ => destruct u end.
      all: (split; [reflexivity|]).
      all: unfold dialogs; cbn [filter is_dialog].
      all: first
        [ left; split; reflexivity
        | right; split; [reflexivity|]; eexists; split; [reflexivity|];
          split; [in_list|]; eexists _, _; split; [|eassumption]; in_list ].
    + cbn [exec trace].
      read_record Vsil Fsil Vs Vfed Vex Fex.
      read_record Vsil Fsil Vs Vfed Vex Fex.
      rewrite ?app_nil_r, ?Fn, ?Fr, ?Fa.
      split; [exists (spawned (trace rf)); rewrite app_nil_r; split; [reflexivity|];
              split; [rewrite Ffed, app_nil_r; reflexivity | exact Fpre]|].
      split; [intros b p E; exfalso; congruence | left; auto 8].
    + read_record Vsil Fsil Vs Vfed Vex Fex.
      read_record Vsil Fsil Vs Vfed Vex Fex.
      unfold reports_success in Fr.
      rewrite ?app_nil_r, ?Fn, ?Fr, ?Fa. cbn [spawned fed].
      split; [exists (spawned (trace rf)); rewrite app_nil_r; split; [reflexivity|];
              split; [rewrite Ffed, app_nil_r; reflexivity | exact Fpre]|].
      split; [intros b p E; exfalso; congruence | left; auto 8].
Qed.

End CreationRuns.

Section Outcomes.
Variable str_exn : exn -> string.
Variable self : SecureContainerApp.
Variable W : Type.
Variable h : handler W.

(** What [mount_container] tells the user once the question is
    answered with Yes. *)
Lemma mount_outcome (w : W) :
  let r := exec h (mount_container str_exn self) w in
  let t := trace r in
  agreed t = true ->
  result r = Returned tt /\
  ((reports_success t = true /\
    exists msg, dialogs (after_question t) = [io_showinfo "Success" msg]) \/
   (reports_success t = false /\
    exists out,
      dialogs (after_question t)
      = [io_showwarning "Mount Path Not Found"
           ("Mount likely succeeded, but couldn't parse path from:" ++ nl ++ out)] /\
      forall c rc, In (c, rc) (spawned t) -> rc = 0%Z) \/
   (reports_success t = false /\
    exists err,
      dialogs (after_question t) = [io_showerror "Error" err] /\
      In (io_logging ERROR err) (after_question t) /\
      exists c rc, In (c, rc) (spawned t) /\ rc <> 0%Z)).
Proof.
  cbv zeta.
  unfold mount_container, _verify_container_dir_on_partition,
    _get_container_files, _detect_open_mappers.
  symex h.
  all: cbn [agreed record]; intros A; try discriminate A.
  all: negbs; subst; try discriminate.
  all: unfold dialogs;
    cbn [after_question filter is_dialog reports_success existsb String.eqb
         Ascii.eqb Bool.eqb orb spawned].
  all: repeat match goal with u : unit |- _ => destruct u end.
  all: (split; [reflexivity|]).
  all: statuses.
  all: first
    [ left; split; [reflexivity|]; eexists; reflexivity
    | right; left; split; [reflexivity|]; eexists; split; [reflexivity|];
      intros c rc Hin; cbn [In] in Hin;
      repeat (destruct Hin as [Hin|Hin]; [injection Hin as _ <-; assumption|]);
      destruct Hin
    | right; right; split; [reflexivity|]; eexists; split; [reflexivity|];
      split; [in_list|]; eexists _, _; split; [|eassumption]; in_list ].
Qed.

(** What [unmount_container] tells the user once the question is
    answered with Yes. *)
Lemma unmount_outcome (w : W) :
  let r := exec h (unmount_container str_exn self) w in
  let t := trace r in
  agreed t = true ->
  result r = Returned tt /\
  ((reports_success t = true /\
    exists msg, dialogs (after_question t) = [io_showinfo "Success" msg]) \/
   (reports_success t = false /\
    exists err,
      dialogs (after_question t) = [io_showerror "Error" err] /\
      In (io_logging ERROR err) (after_question t) /\
      exists c rc, In (c, rc) (spawned t) /\ rc <> 0%Z)).
Proof.
  cbv zeta. unfold unmount_container, _detect_open_mappers.
  symex h.
  all: cbn [agreed record]; intros A; try discriminate A.
  all: negbs; subst; try discriminate.
  all: unfold dialogs;
    cbn [after_question filter is_dialog reports_success existsb String.eqb
         Ascii.eqb Bool.eqb orb spawned].
  all: repeat match goal with u : unit |- _ => destruct u end.
  all: (split; [reflexivity|]).
  all: statuses.
  all: first
    [ left; split; [reflexivity|]; eexists; reflexivity
    | right; split; [reflexivity|]; eexists; split; [reflexivity|];
      split; [in_list|]; eexists _, _; split; [|eassumption]; in_list ].
Qed.

End Outcomes.

Section Pickers.
Variable str_exn : exn -> string.
Variable self : SecureContainerApp.
Variable W : Type.
Variable h : handler W.

(** X10: The two selection dialogs offer what was found, and are not shown
    when nothing was found: [mount_container] offers the container files
    of the listing of the container directory, sorted, and
    [unmount_container] the open mappers of the listing of
    [/dev/mapper], in listing order. *)
Theorem pickers_offer_what_was_listed (w : W) :
  (let t := trace (exec h (mount_container str_exn self) w) in
   forall title options,
     In (title, options) (offered t) ->
     title = "Select Container to Mount" /\
     options <> [] /\
     exists all_files,
       In (io_listdir (container_dir self) all_files) t /\
       options = sorted (filter is_container_file all_files)) /\
  (let t := trace (exec h (unmount_container str_exn self) w) in
   forall title options,
     In (title, options) (offered t) ->
     title = "Select Container to Unmount" /\
     options <> [] /\
     options = mappers_seen t).
Proof.
  cbv zeta. split.
  - unfold mount_container, _verify_container_dir_on_partition,
      _get_container_files, _detect_open_mappers.
    symex h.
    all: cbn [offered record In]; intros title options Hin;
      try contradiction.
    all: destruct Hin as [Hin|[]]; injection Hin as <- <-.
    all: (split; [reflexivity|]); (split; [discriminate|]).
    all: eexists; (split; [in_list|]).
    all: unfold is_container_file; symmetry; assumption.
  - unfold unmount_container, _detect_open_mappers.
    symex h.
    all: cbn [offered record In]; intros title options Hin;
      try contradiction.
    all: destruct Hin as [Hin|[]]; injection Hin as <- <-.
    all: (split; [reflexivity|]); (split; [discriminate|]).
    all: unfold mappers_seen;
      cbn [mapper_listing String.eqb Ascii.eqb Bool.eqb];
      symmetry; assumption.
Qed.

End Pickers.

Section Confirmation.
Variable str_exn : exn -> string.
Variable self : SecureContainerApp.
Variable W : Type.
Variable h : handler W.

(** X11: A confirmation that is declined, or never reached, ends the
    operation before anything is changed: [mount_container] and
    [unmount_container] have started no child process at all, and
    [create_container] at most the [df] query of its free-space check. *)
Theorem declined_confirmation_starts_nothing (w : W) :
  (let t := trace (exec h (create_container str_exn self) w) in
   agreed t = false ->
   spawned t = [] \/ exists rc, spawned t = [(df_argv (container_dir self), rc)]) /\
  (let t := trace (exec h (mount_container str_exn self) w) in
   agreed t = false -> spawned t = []) /\
  (let t := trace (exec h (unmount_container str_exn self) w) in
   agreed t = false -> spawned t = []).
Proof.
  cbv zeta. split; [|split].
  - intros A.
    destruct (create_run str_exn self W h w)
      as ((pre & E & _ & P) & _ & [(N & _)|(n & s & pass & b & _ & _ & A' & _)]).
    + rewrite E, N, app_nil_r. exact P.
    + congruence.
  - intros A.
    destruct (mount_cases str_exn self W h w)
      as [(N & _)|(cfile & pass & _ & _ & A' & _)]; [exact N | congruence].
  - intros A.
    destruct (unmount_cases str_exn self W h w)
      as [(N & _)|(m & _ & A' & _)]; [exact N | congruence].
Qed.

End Confirmation.

(** The user fills in every dialog of the three operations and then
    answers No. *)
Lemma declined_confirmation_witness :
  spawned (trace (play fresh_disk (create_container plain_str_exn alice_app)
                       locked_world))
  = [(df_argv "/mnt/data/containers", 0%Z)] /\
  spawned (trace (play fresh_disk (mount_container plain_str_exn alice_app)
                       locked_world)) = [] /\
  spawned (trace (play fresh_disk (unmount_container plain_str_exn alice_app)
                       mounted_world)) = [].
Proof.
  split; [vm_compute; reflexivity|]. split.
  - apply (proj1 (proj2 (declined_confirmation_starts_nothing plain_str_exn
                           alice_app _ (Sim.step (Sim.script_of fresh_disk))
                           locked_world))).
    vm_compute. reflexivity.
  - apply (proj2 (proj2 (declined_confirmation_starts_nothing plain_str_exn
                           alice_app _ (Sim.step (Sim.script_of fresh_disk))
                           mounted_world))).
    vm_compute. reflexivity.
Defined.

(** A sequence that stops at the first failure issues only commands of
    the list it was given. *)
Lemma attempt_in (cmds : list (list string)) (sp : list (list string * Z)) :
  attempt cmds sp -> forall c rc, In (c, rc) sp -> In c cmds.
Proof.
  induction 1 as [|c cs sp A IH|c cs rc N]; intros c' rc' Hin.
  - destruct Hin.
  - destruct Hin as [E|Hin]; [injection E as <- _; left; reflexivity|].
    right. eapply IH, Hin.
  - destruct Hin as [E|[]]. injection E as <- _. left. reflexivity.
Qed.

Section Naming.
Variable str_exn : exn -> string.
Variable self : SecureContainerApp.
Variable W : Type.
Variable h : handler W.

(** X12: The mapper of a container file is named after the stem of the file:
    when [name.img] or [name.luks] is selected, where [name] holds no
    slash and is not made of periods only, [mount_container] refuses if
    [name_mapper] is listed as open, and otherwise starts nothing but
    [cryptsetup open] of the file under the name [name_mapper] (the
    name [create_container] opens a container [name] under), the mount
    of [/dev/mapper/name_mapper], and a [chown]. *)
Theorem mount_names_the_mapper_after_the_stem (w : W) (name e : string) :
  let t := trace (exec h (mount_container str_exn self) w) in
  let m := name ++ "_mapper" in
  has_char "/" name = false ->
  all_dots name = false ->
  e = "img" \/ e = "luks" ->
  selection t = Some (name ++ "." ++ e) ->
  (mem m (mappers_seen (after_selection t)) = true ->
   commands t = [] /\
   In (io_showwarning "Already Open"
         ("Container '" ++ name ++ "' is already open. Unmount it first.")) t) /\
  (forall c,
     In c (commands t) ->
     c = open_argv (path_join (container_dir self) (name ++ "." ++ e)) m \/
     c = mount_argv self m \/
     exists p, c = chown_argv self p) /\
  (forall size_str,
     In (open_argv (path_join (container_dir self) (name ++ ".img")) m)
        (create_commands name size_str
           (path_join (container_dir self) (name ++ ".img")))).
Proof.
  cbv zeta. intros Hn Hd He Hsel.
  assert (S : fst (splitext (name ++ "." ++ e)) = name).
  { rewrite splitext_stem; [rewrite Hd; reflexivity | exact Hn | |];
      destruct He as [->| ->]; reflexivity. }
  split; [|split].
  - intros Hmem.
    destruct (mount_refuses str_exn self W h w (name ++ "." ++ e) Hsel)
      as (_ & C & T).
    { rewrite S. exact Hmem. }
    split; [exact C|].
    assert (I : In (io_showwarning "Already Open"
                      ("Container '" ++ name ++ "' is already open. Unmount it first."))
                   (after_selection
                      (trace (exec h (mount_container str_exn self) w)))).
    { rewrite T, S. in_list. }
    revert I. generalize (trace (exec h (mount_container str_exn self) w)).
    intros t. induction t as [|x t IH]; [intros []|].
    destruct x; cbn [after_selection]; intros I;
      first [right; exact I | right; apply IH, I].
  - intros c Hin. unfold commands in Hin. apply in_map_iff in Hin.
    destruct Hin as ((c' & rc) & <- & Hin). cbn [fst].
    destruct (mount_cases str_exn self W h w)
      as [(N & _)|(cfile & pass & Hs & _ & _ & _ & _ &
                   [(A & _)|(p & rc' & E & _)])].
    + rewrite N in Hin. destruct Hin.
    + rewrite Hsel in Hs. injection Hs as <-.
      change (name ++ String "." e) with (name ++ "." ++ e) in A.
      rewrite S in A.
      apply (attempt_in _ _ A) in Hin. cbn [In] in Hin.
      destruct Hin as [<-|[<-|[]]]; auto.
    + rewrite Hsel in Hs. injection Hs as <-.
      change (name ++ String "." e) with (name ++ "." ++ e) in E.
      rewrite S in E.
      rewrite E in Hin. cbn [In] in Hin.
      destruct Hin as [Hin|[Hin|[Hin|[]]]]; injection Hin as <- _; eauto.
  - intros size_str. unfold create_commands, open_argv. in_list.
Qed.

End Naming.

(** [vault.img] is selected while [vault_mapper] is open. *)
Lemma mount_names_the_mapper_witness :
  commands (trace (play calm (mount_container plain_str_exn alice_app)
                        mounted_world)) = [].
Proof.
  apply (mount_names_the_mapper_after_the_stem plain_str_exn alice_app _
           (Sim.step (Sim.script_of calm)) mounted_world "vault" "img");
    try reflexivity; [left; reflexivity | vm_compute; reflexivity..].
Defined.

Section Refusal.
Variable str_exn : exn -> string.
Variable self : SecureContainerApp.
Variable W : Type.
Variable h : handler W.

(** X13: [create_container] does not touch a container file that exists: when
    its existence test on the new file is answered positively it shows
    the error box and starts no child process. *)
Theorem existing_container_is_not_overwritten (w : W) (b : bool) (p : string) :
  let t := trace (exec h (create_container str_exn self) w) in
  existence t = [(container_dir self, b); (p, true)] ->
  spawned t = [] /\
  exists n,
    nth_error (typed t) 0 = Some (Some n) /\
    p = path_join (container_dir self) (strip n ++ ".img") /\
    In (io_showerror "Error" ("Container file already exists:" ++ nl ++ p)) t.
Proof.
  cbv zeta. intros E.
  exact (proj1 (proj2 (create_run str_exn self W h w)) b p E).
Qed.

End Refusal.

(** [vault.img] is there already. *)
Lemma existing_container_witness :
  spawned (trace (play occupied (create_container plain_str_exn alice_app)
                       locked_world)) = [].
Proof.
  apply (existing_container_is_not_overwritten plain_str_exn alice_app _
           (Sim.step (Sim.script_of occupied)) locked_world true
           "/mnt/data/containers/vault.img").
  vm_compute. reflexivity.
Defined.

Lemma in_firstn {A : Type} (x : A) (n : nat) (l : list A) :
  In x (firstn n l) -> In x l.
Proof.
  revert l. induction n as [|n IH]; intros [|y l] H; try contradiction.
  cbn [firstn In] in H |- *. destruct H as [H|H]; [left; exact H | right; apply IH, H].
Qed.

Section Secrets.
Variable str_exn : exn -> string.
Variable self : SecureContainerApp.
Variable W : Type.
Variable h : handler W.

(** X14: Of the child processes of [create_container] and
    [mount_container], those started as [cryptsetup open] or
    [cryptsetup -q luksFormat] are given the passphrase the dialog
    returned, followed by a newline, on their standard input, and every
    other one is given nothing.  A run that ends on its Success box fed
    its commands exactly so: the six of a creation, and the open, the
    mount and the chown of a mount. *)
Theorem passphrase_goes_to_cryptsetup_stdin (w : W) :
  (let t := trace (exec h (create_container str_exn self) w) in
   (forall argv input,
      In (argv, input) (fed t) ->
      if takes_passphrase argv
      then exists pass,
             passphrase_given t = Some pass /\ input = Some (pass ++ nl)
      else input = None) /\
   (reports_success t = true ->
    exists n s pass,
      typed t = [Some n; Some s] /\
      passphrase_given t = Some pass /\
      fed (after_question t)
      = create_feed (strip n) (strip s)
          (path_join (container_dir self) (strip n ++ ".img")) pass)) /\
  (let t := trace (exec h (mount_container str_exn self) w) in
   (forall argv input,
      In (argv, input) (fed t) ->
      if takes_passphrase argv
      then exists pass,
             passphrase_given t = Some pass /\ input = Some (pass ++ nl)
      else input = None) /\
   (reports_success t = true ->
    exists cfile pass p,
      let m := fst (splitext cfile) ++ "_mapper" in
      selection t = Some cfile /\
      passphrase_given t = Some pass /\
      fed t = [(open_argv (path_join (container_dir self) cfile) m,
                Some (pass ++ nl));
               (mount_argv self m, None);
               (chown_argv self p, None)])).
Proof.
  cbv zeta. split; split.
  - intros argv input Hin.
    destruct (create_run str_exn self W h w)
      as ((pre & _ & E & Hpre) & _ &
          [(_ & N & _)|(n & s & pass & b & _ & P & _ & _ & _ & F & _)]);
      rewrite E in Hin; apply in_app_or in Hin; destruct Hin as [Hin|Hin].
    + destruct Hpre as [->|(rc & ->)]; cbn [map In] in Hin; [destruct Hin|].
      destruct Hin as [Hin|[]]. injection Hin as <- <-. reflexivity.
    + rewrite N in Hin. destruct Hin.
    + destruct Hpre as [->|(rc & ->)]; cbn [map In] in Hin; [destruct Hin|].
      destruct Hin as [Hin|[]]. injection Hin as <- <-. reflexivity.
    + rewrite F in Hin. apply in_firstn in Hin.
      unfold create_feed, create_commands in Hin. cbn [combine In] in Hin.
      repeat (destruct Hin as [Hin|Hin]; [injection Hin as <- <-|]);
        try contradiction;
        cbn [takes_passphrase String.eqb Ascii.eqb Bool.eqb andb orb];
        first [reflexivity | exists pass; split; [exact P | reflexivity]].
  - intros S.
    destruct (create_run str_exn self W h w)
      as (_ & _ & [(_ & _ & N & _)|(n & s & pass & b & T & P & _ & _ & _ & F & C & _)]).
    + rewrite N in S. discriminate S.
    + exists n, s, pass. split; [exact T|]. split; [exact P|].
      rewrite F, (C S). reflexivity.
  - intros argv input Hin.
    destruct (mount_cases str_exn self W h w)
      as [(_ & N & _)|(cfile & pass & _ & P & _ & _ & _ &
                       [(_ & F & _)|(p & rc & _ & F & _)])];
      rewrite ?N, ?F in Hin; try apply in_firstn in Hin; cbn [In] in Hin.
    + destruct Hin.
    + repeat (destruct Hin as [Hin|Hin]; [injection Hin as <- <-|]);
        try contradiction;
        cbn [takes_passphrase open_argv mount_argv chown_argv String.eqb
             Ascii.eqb Bool.eqb andb orb];
        first [reflexivity | exists pass; split; [exact P | reflexivity]].
    + repeat (destruct Hin as [Hin|Hin]; [injection Hin as <- <-|]);
        try contradiction;
        cbn [takes_passphrase open_argv mount_argv chown_argv String.eqb
             Ascii.eqb Bool.eqb andb orb];
        first [reflexivity | exists pass; split; [exact P | reflexivity]].
  - intros S.
    destruct (mount_cases str_exn self W h w)
      as [(_ & _ & N)|(cfile & pass & Sel & P & _ & _ & _ &
                       [(_ & _ & N)|(p & rc & _ & F & _)])].
    + rewrite N in S. discriminate S.
    + rewrite N in S. discriminate S.
    + exists cfile, pass, p. auto.
Qed.

End Secrets.

(** A creation in which every command succeeds. *)
Lemma passphrase_feed_witness :
  fed (after_question
         (trace (play calm (create_container plain_str_exn alice_app)
                      locked_world)))
  = create_feed "vault" "100M" "/mnt/data/containers/vault.img" "correct horse".
Proof.
  unfold play.
  destruct (passphrase_goes_to_cryptsetup_stdin plain_str_exn alice_app _
              (Sim.step (Sim.script_of calm)) locked_world)
    as ((_ & C) & _).
  destruct C as (n & s & pass & T & P & F); [vm_compute; reflexivity|].
  rewrite F. vm_compute in T, P.
  injection T as <- <-. injection P as <-. reflexivity.
Defined.

(** ** Another passphrase *)

(** The observers that do not look at what is secret. *)
Lemma redacted_observers (t : list io) :
  spawned (map redact t) = spawned t /\
  logged (map redact t) = logged t /\
  dialogs (map redact t) = dialogs t.
Proof.
  unfold logged, dialogs.
  induction t as [|e t (IH1 & IH2 & IH3)]; [auto|].
  destruct e; cbn [map redact spawned filter is_logging is_dialog];
    rewrite ?IH1, ?IH2, ?IH3; auto.
Qed.

Section Blind.
Variable W : Type.
Variable h : handler W.
Variable g : string -> string.
Hypothesis deaf :
  forall argv i i' capture w,
    h _ (spawn argv (Some i) capture) w = h _ (spawn argv (Some i') capture) w.

(** Related programs, run in [h] and in [h] with the passphrase retyped,
    leave the same record but for what is secret. *)
Lemma related_exec {A : Type} (p q : prog A) :
  related g p q ->
  forall w,
    map redact (trace (exec (retyped g h) q w)) = map redact (trace (exec h p w)) /\
    result (exec (retyped g h) q w) = result (exec h p w) /\
    final (exec (retyped g h) q w) = final (exec h p w) /\
    passphrase_given (trace (exec (retyped g h) q w))
    = option_map g (passphrase_given (trace (exec h p w))).
Proof.
  induction 1 as [a|e|X ev k k' O _ IH|title confirm k k' _ IH
                 |argv i i' capture k k' _ IH]; intros w.
  - cbn. auto.
  - cbn. auto.
  - cbn [exec].
    assert (E : retyped g h X ev w = h X ev w).
    { unfold retyped. destruct ev; try reflexivity. discriminate O. }
    rewrite E. destruct (h X ev w) as [x w'].
    destruct (IH x w') as (T & R & F & P).
    cbn [after trace result final map]. rewrite T, R, F.
    repeat split.
    destruct ev; try discriminate O; cbn [record passphrase_given]; exact P.
  - cbn [exec retyped].
    destruct (h _ (passphrase_dialog title confirm) w) as [x w'].
    cbn [fst snd].
    destruct (IH x w') as (T & R & F & _).
    cbn [after trace result final map record redact passphrase_given].
    rewrite T, R, F.
    destruct x; auto.
  - cbn [exec retyped]. rewrite (deaf argv i' i capture w).
    destruct (h _ (spawn argv (Some i) capture) w) as [cp w'].
    destruct (IH cp w') as (T & R & F & P).
    cbn [after trace result final map record redact option_map
         passphrase_given].
    rewrite T, R, F. auto.
Qed.

End Blind.

(** A walk along a program and itself, event by event. *)
Ltac walk :=
  repeat
    (cbn [bind catch trigger lift subprocess_run subprocess_check_output
          ask_passphrase _ask_for_string _ask_user_choice option_map
          negb andb orb];
     first
       [ apply related_ret
       | apply related_raise
       | apply related_vis; [reflexivity | intros ?]
       | apply related_fed; intros ?
       | match goal with
         | |- related _ ?p _ =>
             match p with
             | context [lift ?d] => destruct d
             | context [match ?d with _ => _ end] => destruct d
             end
         end ]).

Section Retyping.
Variable str_exn : exn -> string.
Variable self : SecureContainerApp.
Variable g : string -> string.
Hypothesis kept : forall p, is_empty (g p) = is_empty p.

(** [g] keeps the empty passphrase and no other. *)
Lemma retyped_cases (s : string) :
  (s = "" /\ g s = "") \/
  exists c r c' r', s = String c r /\ g s = String c' r'.
Proof.
  pose proof (kept s) as K.
  destruct s as [|c r]; destruct (g _) as [|c' r'] eqn:E;
    try discriminate K; [left; auto | right; eauto 6].
Qed.

(** Each of the two operations is related to itself: past the dialog it
    uses the passphrase on standard input only. *)
Lemma mount_related :
  related g (mount_container str_exn self) (mount_container str_exn self).
Proof.
  unfold mount_container, _verify_container_dir_on_partition,
    _get_container_files, _detect_open_mappers.
  walk.
  all: apply related_pass;
    let pw := fresh "pw" in
    intros [pw|]; cbn [option_map]; [|walk];
    destruct (retyped_cases pw) as [(-> & ->)|(? & ? & ? & ? & -> & ->)];
    walk.
Qed.

Lemma create_related :
  related g (create_container str_exn self) (create_container str_exn self).
Proof.
  unfold create_container, _verify_container_dir_on_partition,
    _check_free_space.
  walk.
  all: apply related_pass;
    let pw := fresh "pw" in
    intros [pw|]; cbn [option_map]; [|walk];
    destruct (retyped_cases pw) as [(-> & ->)|(? & ? & ? & ? & -> & ->)];
    walk.
Qed.

Variable W : Type.
Variable h : handler W.

(** X25: In an environment where the answer to a child process does not
    depend on its standard input, typing another passphrase, empty only
    if the first is, changes nothing in a run of [create_container] or
    [mount_container] but the passphrase the dialog returns and the
    standard input of the child processes: the command lines with their
    exit statuses, the log lines, the boxes, the result and the final
    state are the same, and so is the whole record once the passphrase
    and the standard inputs are blanked. *)
Theorem passphrase_changes_only_what_is_fed (w : W) :
  (forall argv i i' capture w',
     h _ (spawn argv (Some i) capture) w'
     = h _ (spawn argv (Some i') capture) w') ->
  (let r := exec h (create_container str_exn self) w in
   let r' := exec (retyped g h) (create_container str_exn self) w in
   passphrase_given (trace r') = option_map g (passphrase_given (trace r)) /\
   map redact (trace r') = map redact (trace r) /\
   spawned (trace r') = spawned (trace r) /\
   logged (trace r') = logged (trace r) /\
   dialogs (trace r') = dialogs (trace r) /\
   result r' = result r /\
   final r' = final r) /\
  (let r := exec h (mount_container str_exn self) w in
   let r' := exec (retyped g h) (mount_container str_exn self) w in
   passphrase_given (trace r') = option_map g (passphrase_given (trace r)) /\
   map redact (trace r') = map redact (trace r) /\
   spawned (trace r') = spawned (trace r) /\
   logged (trace r') = logged (trace r) /\
   dialogs (trace r') = dialogs (trace r) /\
   result r' = result r /\
   final r' = final r).
Proof.
  intros deaf. cbv zeta. split.
  - destruct (related_exec W h g deaf _ _ create_related w) as (T & R & F & P).
    destruct (redacted_observers
                (trace (exec (retyped g h) (create_container str_exn self) w)))
      as (S1 & L1 & D1).
    destruct (redacted_observers (trace (exec h (create_container str_exn self) w)))
      as (S2 & L2 & D2).
    rewrite <- S1, <- L1, <- D1, <- S2, <- L2, <- D2, T. auto 8.
  - destruct (related_exec W h g deaf _ _ mount_related w) as (T & R & F & P).
    destruct (redacted_observers
                (trace (exec (retyped g h) (mount_container str_exn self) w)))
      as (S1 & L1 & D1).
    destruct (redacted_observers (trace (exec h (mount_container str_exn self) w)))
      as (S2 & L2 & D2).
    rewrite <- S1, <- L1, <- D1, <- S2, <- L2, <- D2, T. auto 8.
Qed.

End Retyping.

(** The session of [calm] with another passphrase typed: the same
    commands, log lines and boxes. *)
Lemma retyped_passphrase_witness :
  let h := Sim.step (Sim.script_of calm) in
  let r := exec h (create_container plain_str_exn alice_app) locked_world in
  let r' := exec (retyped other_words h)
                 (create_container plain_str_exn alice_app) locked_world in
  passphrase_given (trace r) = Some "correct horse" /\
  passphrase_given (trace r') = Some "battery staple" /\
  spawned (trace r') = spawned (trace r) /\
  logged (trace r') = logged (trace r) /\
  dialogs (trace r') = dialogs (trace r).
Proof.
  cbv zeta.
  destruct (passphrase_changes_only_what_is_fed plain_str_exn alice_app
              other_words (fun p => match p with "" => eq_refl | _ => eq_refl end)
              _ (Sim.step (Sim.script_of calm)) locked_world
              (fun _ _ _ _ _ => eq_refl))
    as ((P & _ & S & L & D & _) & _).
  split; [vm_compute; reflexivity|].
  split; [rewrite P; vm_compute; reflexivity|].
  auto.
Defined.

Section Reporting.
Variable str_exn : exn -> string.
Variable self : SecureContainerApp.
Variable W : Type.
Variable h : handler W.

(** X15: Once the user has confirmed, each of the three operations returns
    and tells how it ended with exactly one box: its Success box; or an
    Error box, whose text is also logged as an error, when a command
    exited non-zero; or, for [mount_container] when every command
    succeeded but the mount point could not be read off the output, the
    "Mount Path Not Found" warning. *)
Theorem confirmed_operations_report_their_outcome (w : W) :
  (let r := exec h (create_container str_exn self) w in
   let t := trace r in
   agreed t = true ->
   result r = Returned tt /\
   ((reports_success t = true /\
     exists msg, dialogs (after_question t) = [io_showinfo "Success" msg]) \/
    (reports_success t = false /\
     exists err,
       dialogs (after_question t) = [io_showerror "Error" err] /\
       In (io_logging ERROR err) (after_question t) /\
       exists c rc, In (c, rc) (spawned (after_question t)) /\ rc <> 0%Z))) /\
  (let r := exec h (mount_container str_exn self) w in
   let t := trace r in
   agreed t = true ->
   result r = Returned tt /\
   ((reports_success t = true /\
     exists msg, dialogs (after_question t) = [io_showinfo "Success" msg]) \/
    (reports_success t = false /\
     exists out,
       dialogs (after_question t)
       = [io_showwarning "Mount Path Not Found"
            ("Mount likely succeeded, but couldn't parse path from:" ++ nl ++ out)] /\
       forall c rc, In (c, rc) (spawned t) -> rc = 0%Z) \/
    (reports_success t = false /\
     exists err,
       dialogs (after_question t) = [io_showerror "Error" err] /\
       In (io_logging ERROR err) (after_question t) /\
       exists c rc, In (c, rc) (spawned t) /\ rc <> 0%Z))) /\
  (let r := exec h (unmount_container str_exn self) w in
   let t := trace r in
   agreed t = true ->
   result r = Returned tt /\
   ((reports_success t = true /\
     exists msg, dialogs (after_question t) = [io_showinfo "Success" msg]) \/
    (reports_success t = false /\
     exists err,
       dialogs (after_question t) = [io_showerror "Error" err] /\
       In (io_logging ERROR err) (after_question t) /\
       exists c rc, In (c, rc) (spawned t) /\ rc <> 0%Z))).
Proof.
  split; [|split; [apply mount_outcome | apply unmount_outcome]].
  cbv zeta. intros A.
  destruct (create_run str_exn self W h w)
    as (_ & _ & [(_ & _ & _ & A')|(n & s & pass & b & _ & _ & _ & _ & _ & _ & _ &
                                    R & [(S & D)|(S & D)])]).
  - congruence.
  - split; [exact R|]. left. split; [exact S|]. eexists. exact D.
  - split; [exact R|]. right. split; [exact S | exact D].
Qed.

End Reporting.

(** [mkfs.ext4] fails during a creation the user confirmed. *)
Lemma outcome_witness :
  let r := play (failing (head_is "mkfs.ext4") 1 calm)
                (create_container plain_str_exn alice_app) locked_world in
  result r = Returned tt /\
  ((reports_success (trace r) = true /\
    exists msg,
      dialogs (after_question (trace r)) = [io_showinfo "Success" msg]) \/
   (reports_success (trace r) = false /\
    exists err,
      dialogs (after_question (trace r)) = [io_showerror "Error" err] /\
      In (io_logging ERROR err) (after_question (trace r)) /\
      exists c rc,
        In (c, rc) (spawned (after_question (trace r))) /\ rc <> 0%Z)).
Proof.
  cbv zeta.
  apply (proj1 (confirmed_operations_report_their_outcome plain_str_exn
                  alice_app _
                  (Sim.step (Sim.script_of (failing (head_is "mkfs.ext4") 1 calm)))
                  locked_world)).
  vm_compute. reflexivity.
Defined.

(* ===================================================================== *)
(** * The tables after an operation                                      *)
(* ===================================================================== *)

Lemma remove_mapper_last (m : string) (ms : list string) :
  Sim.remove_mapper m (ms ++ [m]) = Sim.remove_mapper m ms.
Proof.
  unfold Sim.remove_mapper. rewrite filter_app. cbn [filter].
  rewrite String.eqb_refl. apply app_nil_r.
Qed.

Lemma remove_mapper_absent (m : string) (ms : list string) :
  ~ In m ms -> Sim.remove_mapper m ms = ms.
Proof.
  intros NI. apply forallb_filter_id, forallb_forall. intros x Hx.
  apply negb_true_iff, String.eqb_neq. intros ->. exact (NI Hx).
Qed.

(** The free-space query changes neither table. *)
Lemma df_changes_nothing (mp : string -> string) (d : string)
    (pre : list (list string * Z)) (o : list string * list (string * string)) :
  pre = [] \/ (exists rc, pre = [(df_argv d, rc)]) ->
  fold_left (Sim.apply mp) pre o = o.
Proof.
  intros [->|[rc ->]]; [reflexivity|].
  unfold Sim.apply, Sim.effect, df_argv.
  cbn [fold_left fst snd Sim.classify String.eqb Ascii.eqb Bool.eqb andb].
  destruct o. destruct (rc =? 0)%Z; reflexivity.
Qed.

(** The two outcomes of a sequence of two commands. *)
Lemma attempt_two (c1 c2 : list string) (sp : list (list string * Z)) :
  attempt [c1; c2] sp ->
  (exists rc, rc <> 0%Z /\ sp = [(c1, rc)]) \/
  (exists rc, sp = [(c1, 0%Z); (c2, rc)]).
Proof.
  intros A. inversion A as [|c cs sp1 A1|c cs rc N]; subst.
  - right. inversion A1 as [|c cs sp2 A2|c cs rc N]; subst.
    + inversion A2; subst. eexists. reflexivity.
    + eexists. reflexivity.
  - left. eexists. split; [exact N | reflexivity].
Qed.

Section SimulatedRuns.
Variable str_exn : exn -> string.
Variable self : SecureContainerApp.

(** X16: In the simulated system, a creation that ends on its Success box has
    run the six commands, each with status zero, on the name and size
    typed (stripped); the mount table is as before, and no mapper of the
    new container's name is open afterwards, so that the tables are
    those of before when that name was free. *)
Theorem successful_creation_closes_its_mapper (s : Sim.script) (w : Sim.world) :
  let r := exec (Sim.step s) (create_container str_exn self) w in
  let t := trace r in
  reports_success t = true ->
  exists n sz,
    let name := strip n in
    let path := path_join (container_dir self) (name ++ ".img") in
    typed t = [Some n; Some sz] /\
    spawned (after_question t)
    = map (fun c => (c, 0%Z)) (create_commands name (strip sz) path) /\
    Sim.mounts (final r) = Sim.mounts w /\
    Sim.mappers (final r) = Sim.remove_mapper (name ++ "_mapper") (Sim.mappers w) /\
    (~ In (name ++ "_mapper") (Sim.mappers w) ->
     Sim.observed (final r) = Sim.observed w).
Proof.
  cbv zeta. intros OK.
  destruct (create_run str_exn self _ (Sim.step s) w)
    as ((pre & Esp & _ & Hpre) & _ &
        [(_ & _ & N & _)|(n & sz & pass & b & T & _ & _ & _ & _ & _ & S & _)]);
    [congruence|].
  specialize (S OK). exists n, sz. split; [exact T|]. split; [exact S|].
  assert (O : Sim.observed
                (final (exec (Sim.step s) (create_container str_exn self) w))
              = (Sim.remove_mapper (strip n ++ "_mapper") (Sim.mappers w),
                 Sim.mounts w)).
  { rewrite sim_frame, Esp, S, fold_left_app.
    rewrite (df_changes_nothing _ _ _ _ Hpre).
    unfold create_commands, Sim.observed, Sim.apply, Sim.effect.
    cbn [map fold_left fst snd Z.eqb Sim.classify String.eqb Ascii.eqb
         Bool.eqb andb].
    rewrite remove_mapper_last. reflexivity. }
  split; [exact (f_equal snd O)|]. split; [exact (f_equal fst O)|].
  intros NI. rewrite O, (remove_mapper_absent _ _ NI). reflexivity.
Qed.

(** X17: In the simulated system, when unlocking succeeds and the mount
    fails, [mount_container] stops there: it issues no [cryptsetup
    close], so the container, which was locked, is left unlocked and not
    mounted. *)
Theorem failed_mount_leaves_the_mapper_open (s : Sim.script) (w : Sim.world)
    (cfile : string) (rc : Z) :
  let r := exec (Sim.step s) (mount_container str_exn self) w in
  let t := trace r in
  let m := fst (splitext cfile) ++ "_mapper" in
  selection t = Some cfile ->
  In (mount_argv self m, rc) (spawned t) ->
  rc <> 0%Z ->
  spawned t = [(open_argv (path_join (container_dir self) cfile) m, 0%Z);
               (mount_argv self m, rc)] /\
  ~ In m (Sim.mappers w) /\
  Sim.mappers (final r) = (Sim.mappers w ++ [m])%list /\
  Sim.mounts (final r) = Sim.mounts w.
Proof.
  cbv zeta. intros Hsel Hin Hrc.
  destruct (mount_cases str_exn self _ (Sim.step s) w)
    as [(N & _)|(cfile' & pass & Hs & _ & _ & _ & Fr &
                 [(A & _)|(p & rc' & E & _)])].
  - rewrite N in Hin. destruct Hin.
  - rewrite Hsel in Hs. injection Hs as <-.
    assert (E : spawned (trace (exec (Sim.step s) (mount_container str_exn self) w))
                = [(open_argv (path_join (container_dir self) cfile)
                      (fst (splitext cfile) ++ "_mapper"), 0%Z);
                   (mount_argv self (fst (splitext cfile) ++ "_mapper"), rc)]).
    { apply attempt_two in A. destruct A as [(rc1 & _ & E1)|(rc1 & E1)];
        rewrite E1 in Hin |- *; cbn [In] in Hin.
      - destruct Hin as [Hin|[]]. discriminate Hin.
      - destruct Hin as [Hin|[Hin|[]]]; [discriminate Hin|].
        injection Hin as <-. reflexivity. }
    split; [exact E|]. split; [exact (Fr _ _ (sim_faithful s _ w))|].
    assert (O : Sim.observed
                  (final (exec (Sim.step s) (mount_container str_exn self) w))
                = ((Sim.mappers w ++ [(fst (splitext cfile) ++ "_mapper")%string])%list,
                   Sim.mounts w)).
    { rewrite sim_frame, E.
      unfold Sim.observed, Sim.apply, Sim.effect, open_argv, mount_argv.
      cbn [fold_left fst snd Z.eqb Sim.classify String.eqb Ascii.eqb
           Bool.eqb andb].
      apply Z.eqb_neq in Hrc. rewrite Hrc. reflexivity. }
    split; [exact (f_equal fst O) | exact (f_equal snd O)].
  - rewrite Hsel in Hs. injection Hs as <-. rewrite E in Hin.
    cbn [In] in Hin.
    destruct Hin as [Hin|[Hin|[Hin|[]]]]; try discriminate Hin.
    injection Hin as <-. contradiction Hrc. reflexivity.
Qed.

End SimulatedRuns.

(** A creation in which every command succeeds, played on the locked
    world: the tables are as before. *)
Lemma successful_creation_witness :
  Sim.observed (final (play calm (create_container plain_str_exn alice_app)
                            locked_world))
  = Sim.observed locked_world.
Proof.
  destruct (successful_creation_closes_its_mapper plain_str_exn alice_app
              (Sim.script_of calm) locked_world) as (n & sz & _ & _ & _ & _ & R);
    [vm_compute; reflexivity|].
  apply R. intros [].
Defined.

(** A mount whose [udisksctl] step exits with 32: the mapper stays. *)
Lemma failed_mount_witness :
  Sim.mappers (final (play (failing (head_is "sudo") 32 calm)
                           (mount_container plain_str_exn alice_app)
                           locked_world))
  = ["vault_mapper"].
Proof.
  apply (failed_mount_leaves_the_mapper_open plain_str_exn alice_app
           (Sim.script_of (failing (head_is "sudo") 32 calm)) locked_world
           "vault.img" 32).
  - vm_compute. reflexivity.
  - vm_compute. auto.
  - discriminate.
Defined.

Section FailedUnmount.
Variable str_exn : exn -> string.
Variable self : SecureContainerApp.

(** X18: In the simulated system, an unmount that fails ends
    [unmount_container] with both tables as they were: the mapper is not
    closed under a file system that is still mounted.  When the unmount
    succeeds and the close fails, the mount is gone and the mapper is
    still open. *)
Theorem failed_unmount_closes_nothing (s : Sim.script) (w : Sim.world)
    (m : string) (rc : Z) :
  let r := exec (Sim.step s) (unmount_container str_exn self) w in
  let t := trace r in
  selection t = Some m ->
  rc <> 0%Z ->
  (In (unmount_argv self m, rc) (spawned t) ->
   spawned t = [(unmount_argv self m, rc)] /\
   Sim.observed (final r) = Sim.observed w) /\
  (In (close_argv m, rc) (spawned t) ->
   spawned t = [(unmount_argv self m, 0%Z); (close_argv m, rc)] /\
   Sim.mappers (final r) = Sim.mappers w /\
   Sim.mounts (final r) = Sim.remove_mounts ("/dev/mapper/" ++ m) (Sim.mounts w)).
Proof.
  cbv zeta. intros Hsel Hrc.
  assert (Z : (rc =? 0)%Z = false) by (apply Z.eqb_neq; exact Hrc).
  destruct (unmount_cases str_exn self _ (Sim.step s) w)
    as [(N & _)|(m' & Hs & _ & A & _)].
  { rewrite N. split; intros []. }
  rewrite Hsel in Hs. injection Hs as <-.
  apply attempt_two in A.
  pose proof (sim_frame s (unmount_container str_exn self) w) as O.
  split; intros Hin;
    destruct A as [(rc1 & _ & E)|(rc1 & E)]; rewrite E in Hin, O |- *;
    cbn [In] in Hin.
  - destruct Hin as [Hin|[]]. injection Hin as <-.
    split; [reflexivity|]. rewrite O.
    unfold Sim.apply. cbn [fold_left snd]. rewrite Z. reflexivity.
  - destruct Hin as [Hin|[Hin|[]]]; [|discriminate Hin].
    injection Hin as <-. contradiction Hrc. reflexivity.
  - destruct Hin as [Hin|[]]. discriminate Hin.
  - destruct Hin as [Hin|[Hin|[]]]; [discriminate Hin|].
    injection Hin as <-. split; [reflexivity|].
    unfold Sim.observed, Sim.apply, Sim.effect, unmount_argv, close_argv in O.
    cbn [fold_left fst snd Z.eqb Sim.classify String.eqb Ascii.eqb Bool.eqb
         andb] in O.
    rewrite Z in O.
    split; [exact (f_equal fst O) | exact (f_equal snd O)].
Qed.

End FailedUnmount.

(** [vault_mapper] is busy: [udisksctl unmount] exits with status 1. *)
Lemma failed_unmount_witness :
  Sim.observed (final (play (failing (head_is "sudo") 1 calm)
                            (unmount_container plain_str_exn alice_app)
                            mounted_world))
  = Sim.observed mounted_world.
Proof.
  apply (proj1 (failed_unmount_closes_nothing plain_str_exn alice_app
                  (Sim.script_of (failing (head_is "sudo") 1 calm))
                  mounted_world "vault_mapper" 1 eq_refl
                  (fun H => Z.neq_succ_diag_l 0 H))).
  vm_compute. auto.
Defined.

(** ** Mounts stay on open mappers *)

Lemma consistent_open (m : string) (ms : list string) (mt : list (string * string)) :
  consistent (ms, mt) -> consistent ((ms ++ [m])%list, mt).
Proof.
  intros C x p H. apply in_or_app. left. exact (C x p H).
Qed.

Lemma consistent_mount (m p : string) (ms : list string)
    (mt : list (string * string)) :
  In m ms -> consistent (ms, mt) ->
  consistent (ms, (mt ++ [(("/dev/mapper/" ++ m)%string, p)])%list).
Proof.
  intros I C x q H. cbn [fst snd] in *. apply in_app_or in H.
  destruct H as [H|[H|[]]]; [exact (C x q H)|].
  injection H as E _. subst. exact I.
Qed.

Lemma consistent_unmount (d : string) (ms : list string)
    (mt : list (string * string)) :
  consistent (ms, mt) -> consistent (ms, Sim.remove_mounts d mt).
Proof.
  intros C x q H. cbn [fst snd] in *. apply filter_In in H. exact (C x q (proj1 H)).
Qed.

Lemma consistent_close (m : string) (ms : list string)
    (mt : list (string * string)) :
  consistent (ms, mt) ->
  consistent (Sim.remove_mapper m ms, Sim.remove_mounts ("/dev/mapper/" ++ m) mt).
Proof.
  intros C x q H. cbn [fst snd] in *. apply filter_In in H.
  destruct H as [H N]. cbn [fst] in N.
  apply filter_In. split; [exact (C x q H)|].
  apply negb_true_iff, String.eqb_neq. intros ->.
  rewrite String.eqb_refl in N. discriminate N.
Qed.

Section Consistency.
Variable str_exn : exn -> string.
Variable self : SecureContainerApp.

(** X19: In the simulated system, [mount_container] and [unmount_container]
    keep every mount record on an open mapper: a mount is added only
    after its mapper was opened, and a mapper is closed only after its
    mounts were removed. *)
Theorem mount_and_unmount_keep_mounts_on_open_mappers
    (s : Sim.script) (w : Sim.world) :
  consistent (Sim.observed w) ->
  consistent (Sim.observed
                (final (exec (Sim.step s) (mount_container str_exn self) w))) /\
  consistent (Sim.observed
                (final (exec (Sim.step s) (unmount_container str_exn self) w))).
Proof.
  intros C. unfold Sim.observed in C. split; rewrite sim_frame.
  - destruct (mount_cases str_exn self _ (Sim.step s) w)
      as [(N & _)|(cfile & pass & _ & _ & _ & _ & _ &
                   [(A & _)|(p & rc & E & _)])].
    + rewrite N. exact C.
    + apply attempt_two in A. destruct A as [(rc & _ & ->)|(rc & ->)];
        unfold Sim.observed, Sim.apply, Sim.effect, open_argv, mount_argv;
        cbn [fold_left fst snd Z.eqb Sim.classify String.eqb Ascii.eqb
             Bool.eqb andb];
        destruct (rc =? 0)%Z; auto using consistent_open.
      apply consistent_mount; [apply in_or_app; right; left; reflexivity|].
      apply consistent_open, C.
    + rewrite E.
      unfold Sim.observed, Sim.apply, Sim.effect, open_argv, mount_argv,
        chown_argv;
        cbn [fold_left fst snd Z.eqb Sim.classify String.eqb Ascii.eqb
             Bool.eqb andb].
      assert (C' : consistent
                     ((Sim.mappers w ++ [(fst (splitext cfile) ++ "_mapper")%string])%list,
                      (Sim.mounts w
                       ++ [(("/dev/mapper/" ++ fst (splitext cfile) ++ "_mapper")%string,
                            Sim.mount_point s
                              ("/dev/mapper/" ++ fst (splitext cfile) ++ "_mapper")%string)])%list)).
      { apply consistent_mount; [apply in_or_app; right; left; reflexivity|].
        apply consistent_open, C. }
      destruct (rc =? 0)%Z; exact C'.
  - destruct (unmount_cases str_exn self _ (Sim.step s) w)
      as [(N & _)|(m & _ & _ & A & _)].
    + rewrite N. exact C.
    + apply attempt_two in A. destruct A as [(rc & _ & ->)|(rc & ->)];
        unfold Sim.observed, Sim.apply, Sim.effect, unmount_argv, close_argv;
        cbn [fold_left fst snd Z.eqb Sim.classify String.eqb Ascii.eqb
             Bool.eqb andb];
        destruct (rc =? 0)%Z; auto using consistent_unmount, consistent_close.
Qed.

End Consistency.

(** [vault.img] is mounted from the locked state. *)
Lemma consistency_witness :
  consistent (Sim.observed
                (final (play calm (mount_container plain_str_exn alice_app)
                             locked_world))).
Proof.
  apply (mount_and_unmount_keep_mounts_on_open_mappers plain_str_exn alice_app
           (Sim.script_of calm) locked_world).
  intros m p [H|[]]. discriminate H.
Defined.

(** ** What a sweep leaves behind *)

Lemma all_zero (sp : list (list string * Z)) :
  (forall c rc, In (c, rc) sp -> rc = 0%Z) ->
  sp = map (fun c => (c, 0%Z)) (map fst sp).
Proof.
  induction sp as [|[c rc] sp IH]; intros H; [reflexivity|].
  cbn [map fst]. rewrite (H c rc (or_introl eq_refl)), <- IH; [reflexivity|].
  intros c' rc' I. apply (H c' rc'). right. exact I.
Qed.

Lemma mem_filter (P : string -> bool) (x : string) (l : list string) :
  In x l -> mem x (filter P l) = P x.
Proof.
  intros I. destruct (P x) eqn:E.
  - destruct (mem x (filter P l)) eqn:M; [reflexivity|].
    apply mem_false_not_in in M. contradiction M. apply filter_In. auto.
  - destruct (mem x (filter P l)) eqn:M; [|reflexivity].
    apply mem_true_in, filter_In in M. destruct M. congruence.
Qed.

Section Sweeps.
Variable self : SecureContainerApp.

(** The effect of a sweep in which every command exits with status
    zero. *)
Lemma sweep_effect (mp : string -> string) (l : list string)
    (ms : list string) (mt : list (string * string)) :
  fold_left (Sim.apply mp)
            (map (fun c => (c, 0%Z)) (flat_map (sweep_argv self) l)) (ms, mt)
  = (filter (fun x => negb (mem x l)) ms,
     filter (fun r => negb (existsb (fun m => String.eqb (fst r) ("/dev/mapper/" ++ m)) l))
            mt).
Proof.
  revert ms mt. induction l as [|m l IH]; intros ms mt.
  - cbn. f_equal; symmetry; apply forallb_filter_id, forallb_forall; reflexivity.
  - cbn [flat_map sweep_argv app map fold_left].
    unfold Sim.apply at 2 3, Sim.effect, unmount_argv, close_argv.
    cbn [fst snd Z.eqb Sim.classify String.eqb Ascii.eqb Bool.eqb andb].
    rewrite IH. unfold Sim.remove_mapper, Sim.remove_mounts.
    f_equal.
    + clear. induction ms as [|x ms IHms]; [reflexivity|].
      cbn [filter mem existsb].
      rewrite (String.eqb_sym x m).
      destruct (String.eqb m x); cbn [negb orb filter]; rewrite IHms;
        reflexivity.
    + clear. induction mt as [|r mt IHmt]; [reflexivity|].
      cbn [filter existsb].
      destruct (String.eqb (fst r) ("/dev/mapper/" ++ m));
        cbn [negb orb filter]; rewrite IHmt; reflexivity.
Qed.

(** What a simulated run of [_detect_open_mappers] finds. *)
Lemma sim_detect (s : Sim.script) (w : Sim.world) :
  result (exec (Sim.step s) _detect_open_mappers w)
    = Returned (filter is_open_mapper (Sim.mappers w)) /\
  trace (exec (Sim.step s) _detect_open_mappers w)
    = [io_isdir "/dev/mapper" true;
       io_listdir "/dev/mapper" ("control" :: Sim.mappers w)].
Proof.
  unfold _detect_open_mappers.
  cbn [exec bind trigger Sim.step after result final trace record
       String.eqb Ascii.eqb Bool.eqb negb].
  split; reflexivity.
Qed.

Lemma sim_mappers_seen {A : Type} (s : Sim.script) (w : Sim.world)
    (k : list string -> prog A) :
  mappers_seen (trace (exec (Sim.step s) (bind _detect_open_mappers k) w))
  = filter is_open_mapper (Sim.mappers w).
Proof.
  rewrite exec_bind. destruct (sim_detect s w) as (R & T).
  rewrite R. cbn [trace]. rewrite T. reflexivity.
Qed.

(** X20: In the simulated system, a sweep the user agreed to and in which
    every command exits with status zero closes every mapper whose name
    ends in [_mapper] and removes the mounts of their devices; the other
    mappers and mounts are left as they were. *)
Theorem successful_sweep_closes_every_leftover (s : Sim.script) (w : Sim.world) :
  let swept := filter is_open_mapper (Sim.mappers w) in
  let tidy := (filter (fun m => negb (is_open_mapper m)) (Sim.mappers w),
               filter (fun r => negb (existsb (fun m => String.eqb (fst r)
                                                          ("/dev/mapper/" ++ m))
                                              swept))
                      (Sim.mounts w)) in
  (let r := exec (Sim.step s) (_startup_cleanup_check self) w in
   agreed (trace r) = true ->
   (forall c rc, In (c, rc) (spawned (trace r)) -> rc = 0%Z) ->
   Sim.observed (final r) = tidy) /\
  (let r := exec (Sim.step s) (_on_exit self) w in
   agreed (trace r) = true ->
   (forall c rc, In (c, rc) (spawned (trace r)) -> rc = 0%Z) ->
   Sim.observed (final r) = tidy).
Proof.
  cbv zeta.
  assert (K : forall sp,
             map fst sp = flat_map (sweep_argv self)
                            (filter is_open_mapper (Sim.mappers w)) ->
             (forall c rc, In (c, rc) sp -> rc = 0%Z) ->
             fold_left (Sim.apply (Sim.mount_point s)) sp (Sim.observed w)
             = (filter (fun m => negb (is_open_mapper m)) (Sim.mappers w),
                filter (fun r => negb (existsb
                                         (fun m => String.eqb (fst r)
                                                     ("/dev/mapper/" ++ m))
                                         (filter is_open_mapper (Sim.mappers w))))
                       (Sim.mounts w))).
  { intros sp E Z. rewrite (all_zero sp Z), E. unfold Sim.observed.
    rewrite sweep_effect. f_equal.
    apply filter_ext_in. intros x I. rewrite (mem_filter _ _ _ I). reflexivity. }
  split; intros A Z; rewrite sim_frame; apply K; try exact Z.
  - destruct (startup_sweep self _ (Sim.step s) w) as (_ & C & _).
    unfold commands in C. rewrite C, A.
    unfold _startup_cleanup_check. rewrite sim_mappers_seen. reflexivity.
  - destruct (exit_sweep self _ (Sim.step s) w) as (_ & C & _).
    unfold commands in C. rewrite C, A.
    unfold _on_exit.
    change (bind (bind _detect_open_mappers ?k) ?k') with
      (bind _detect_open_mappers (fun x => bind (k x) k')).
    rewrite sim_mappers_seen. reflexivity.
Qed.

End Sweeps.

(** Two leftover mappers, one of them mounted, and every command
    succeeds. *)
Lemma successful_sweep_witness :
  Sim.observed (final (play calm (_startup_cleanup_check alice_app)
                            leftover_world))
  = ([], [("/dev/sdb1", "/mnt/data")]).
Proof.
  apply (proj1 (successful_sweep_closes_every_leftover alice_app
                  (Sim.script_of calm) leftover_world)).
  - vm_compute. reflexivity.
  - vm_compute. intros c rc H.
    repeat (destruct H as [H|H]; [injection H as _ <-; reflexivity|]).
    destruct H.
Defined.

(* ===================================================================== *)
(** * Starting and leaving                                               *)
(* ===================================================================== *)

Section Leaving.
Variable self : SecureContainerApp.
Variable W : Type.
Variable h : handler W.

(** A cleanup loop shows no box. *)
Lemma sweep_loop_dialogs (log_prefix : string) (l : list string) (w : W) :
  dialogs (trace (exec h (for_each l (sweep_one self log_prefix)) w)) = [].
Proof.
  revert w. induction l as [|m l IH]; intros w; [reflexivity|].
  cbn [for_each]. rewrite exec_bind.
  destruct (sweep_one_run self W h log_prefix m w) as (cp1 & cp2 & w' & E).
  rewrite E. cbn [result final trace]. unfold dialogs in *.
  cbn [app filter is_dialog]. apply IH.
Qed.

(** X21: Closing the window always ends the application: whatever the sweep
    found, whatever the user answered and however the commands exited,
    [_on_exit] returns, and the last two things it does are to log the
    exit and to destroy the window. *)
Theorem exit_always_destroys_the_window (w : W) :
  let r := exec h (_on_exit self) w in
  result r = Returned tt /\
  dialogs (trace r) = [] /\
  exists t0,
    trace r = (t0 ++ [io_logging INFO "Exiting application (V5).";
                      io_destroy])%list.
Proof.
  cbv zeta. unfold _on_exit, _detect_open_mappers.
  repeat exec_step h; unfold dialogs; cbn [filter is_dialog record];
    repeat match goal with u : unit |- _ => destruct u end.
  all: try (split; [reflexivity|]; split; [reflexivity|];
            match goal with
            | |- exists t0, ?t = _ =>
                let n := eval cbv in (length t - 2)%nat in
                exists (firstn n t); reflexivity
            end).
  rewrite exec_bind.
  destruct (sweep_loop self W h "Auto-closed leftover mapper " (s :: l) w2)
    as (E1 & _).
  rewrite E1. cbn [result final trace].
  repeat exec_step h.
  repeat match goal with u : unit |- _ => destruct u end.
  cbn [result trace]. split; [reflexivity|].
  rewrite filter_app.
  change (filter is_dialog (trace ?r)) with (dialogs (trace r)).
  rewrite sweep_loop_dialogs. split; [reflexivity|].
  cbn [after trace record].
  eexists (_ :: _ :: _ :: _). cbn [app]. reflexivity.
Qed.

(** The startup sweep shows no box. *)
Lemma startup_dialogs (w : W) :
  dialogs (trace (exec h (_startup_cleanup_check self) w)) = [].
Proof.
  unfold _startup_cleanup_check, _detect_open_mappers.
  repeat exec_step h; unfold dialogs; cbn [filter is_dialog record];
    try reflexivity.
  apply sweep_loop_dialogs.
Qed.

(** X22: Starting without root privileges only adds a warning box: the
    application logs its start and goes on to the startup sweep, which
    starts child processes only when the user agrees. *)
Theorem startup_only_warns_without_root (euid : Z) (w : W) :
  let r := exec h (__init__ self euid) w in
  result r = Returned tt /\
  dialogs (trace r)
  = (if (euid =? 0)%Z then []
     else [io_showwarning "Privilege Warning"
             "Please run this script as root (sudo) for cryptsetup operations."]) /\
  hd_error (logged (trace r)) = Some (io_logging INFO "App started (V5).") /\
  commands (trace r)
  = (if agreed (trace r)
     then flat_map (sweep_argv self) (mappers_seen (trace r)) else []).
Proof.
  cbv zeta. unfold __init__.
  destruct (euid =? 0)%Z; cbn [negb bind trigger exec].
  all: repeat match goal with
         | |- context [h ?X ?ev ?w] =>
             let x := fresh "x" in
             let w' := fresh "w" in
             destruct (h X ev w) as [x w']
         end.
  all: cbn [after result final trace record].
  all: match goal with
       | |- context [exec h (_startup_cleanup_check self) ?w'] =>
           destruct (startup_sweep self W h w') as (R & C & _);
           pose proof (startup_dialogs w') as D;
           set (r := exec h (_startup_cleanup_check self) w') in *
       end.
  all: unfold dialogs, logged, commands, mappers_seen in *;
    cbn [filter is_dialog is_logging hd_error spawned agreed mapper_listing].
  all: rewrite D; auto.
Qed.

End Leaving.

(* ===================================================================== *)
(** * A session of the passphrase dialog                                 *)
(* ===================================================================== *)

Section DialogSession.
Import PasswordDialog.

Lemma wait_window_gone (d : dialog) (gestures : list gesture) :
  destroyed d = true -> wait_window d gestures = (d, []).
Proof. intros H. destruct gestures; cbn [wait_window]; rewrite H; reflexivity. Qed.

(** While the window is up no passphrase is set, and one is set only by
    an OK that finds the entries in agreement. *)
Lemma passphrase_set_by_ok (gestures : list gesture) (d : dialog) (p : string) :
  destroyed d = false ->
  passphrase d = None ->
  destroyed (fst (wait_window d gestures)) = true ->
  passphrase (fst (wait_window d gestures)) = Some p ->
  exists before rest,
    gestures = (before ++ Press_ok :: rest)%list /\
    destroyed (fst (wait_window d before)) = false /\
    entry_pass (fst (wait_window d before)) = p /\
    (confirm d = true -> entry_confirm (fst (wait_window d before)) = p).
Proof.
  revert d. induction gestures as [|g gs IH]; intros d Hd Hp.
  - cbn [wait_window]. rewrite Hd. cbn [fst]. congruence.
  - cbn [wait_window]. rewrite Hd.
    assert (Next : forall d1 shown,
              react d g = (d1, shown) ->
              destroyed d1 = false -> passphrase d1 = None ->
              confirm d1 = confirm d ->
              destroyed (fst (wait_window d1 gs)) = true ->
              passphrase (fst (wait_window d1 gs)) = Some p ->
              exists before rest,
                g :: gs = (before ++ Press_ok :: rest)%list /\
                destroyed (fst (wait_window d before)) = false /\
                entry_pass (fst (wait_window d before)) = p /\
                (confirm d = true ->
                 entry_confirm (fst (wait_window d before)) = p)).
    { intros d1 shown R Hd1 Hp1 Hc H1 H2.
      destruct (IH d1 Hd1 Hp1 H1 H2) as (before & rest & E & B1 & B2 & B3).
      exists (g :: before), rest. rewrite E. split; [reflexivity|].
      cbn [wait_window]. rewrite Hd, R.
      destruct (wait_window d1 before) as [d2 shown']. cbn [fst] in *.
      rewrite <- Hc. auto. }
    destruct g; cbn [react].
    + destruct (wait_window _ gs) as [d2 shown'] eqn:E. cbn [fst].
      intros H1 H2. eapply Next; [reflexivity | exact Hd | exact Hp | reflexivity
                                 | rewrite E; exact H1 | rewrite E; exact H2].
    + destruct (wait_window _ gs) as [d2 shown'] eqn:E. cbn [fst].
      intros H1 H2. eapply Next; [reflexivity | exact Hd | exact Hp | reflexivity
                                 | rewrite E; exact H1 | rewrite E; exact H2].
    + unfold _on_ok.
      destruct (confirm d) eqn:Hc;
        [destruct (negb (String.eqb (entry_pass d) (entry_confirm d))) eqn:Hq|].
      * destruct (wait_window d gs) as [d2 shown'] eqn:E. cbn [fst].
        intros H1 H2.
        eapply (Next d); [unfold react, _on_ok; rewrite Hc, Hq; reflexivity
                         | exact Hd | exact Hp | exact Hc
                         | rewrite E; exact H1 | rewrite E; exact H2].
      * rewrite wait_window_gone by reflexivity.
        cbn [app fst destroyed passphrase]. intros _ H2. injection H2 as <-.
        exists [], gs. split; [reflexivity|].
        cbn [wait_window]. rewrite Hd. cbn [fst].
        apply negb_false_iff, String.eqb_eq in Hq. auto.
      * rewrite wait_window_gone by reflexivity.
        cbn [app fst destroyed passphrase]. intros _ H2. injection H2 as <-.
        exists [], gs. split; [reflexivity|].
        cbn [wait_window]. rewrite Hd. cbn [fst].
        split; [exact Hd|]. split; [reflexivity|]. discriminate.
    + unfold _on_cancel. rewrite wait_window_gone by reflexivity.
      cbn [fst destroyed passphrase]. discriminate.
    + rewrite wait_window_gone by reflexivity.
      cbn [fst destroyed passphrase]. rewrite Hp. discriminate.
Qed.

(** X23: Whatever the user does, a passphrase comes back from the dialog
    only through an OK pressed while the dialog was still up, that found
    the passphrase in the first entry and, when a confirmation is asked
    for, in the second entry too. *)
Theorem passphrase_is_what_ok_found (c : bool) (gestures : list gesture)
    (p : string) :
  ask_passphrase c gestures = Some (Some p) ->
  exists before rest,
    gestures = (before ++ Press_ok :: rest)%list /\
    ask_passphrase c before = None /\
    entry_pass (fst (wait_window (__init__ c) before)) = p /\
    (c = true -> entry_confirm (fst (wait_window (__init__ c) before)) = p).
Proof.
  unfold ask_passphrase. intros H.
  destruct (wait_window (__init__ c) gestures) as [d shown] eqn:E.
  destruct (destroyed d) eqn:D; [|discriminate H]. injection H as H.
  destruct (passphrase_set_by_ok gestures (__init__ c) p)
    as (before & rest & G & B1 & B2 & B3);
    try reflexivity; try (rewrite E; assumption).
  exists before, rest. split; [exact G|].
  destruct (wait_window (__init__ c) before) as [d' shown']. cbn [fst] in *.
  rewrite B1. auto.
Qed.

End DialogSession.

(** The user mistypes the confirmation once. *)
Lemma passphrase_dialog_witness :
  exists before rest,
    [PasswordDialog.Type_passphrase "correct horse";
     PasswordDialog.Type_confirmation "correct hrose";
     PasswordDialog.Press_ok;
     PasswordDialog.Type_confirmation "correct horse";
     PasswordDialog.Press_ok]
    = (before ++ PasswordDialog.Press_ok :: rest)%list /\
    PasswordDialog.ask_passphrase true before = None /\
    PasswordDialog.entry_pass
      (fst (PasswordDialog.wait_window (PasswordDialog.__init__ true) before))
    = "correct horse" /\
    (true = true ->
     PasswordDialog.entry_confirm
       (fst (PasswordDialog.wait_window (PasswordDialog.__init__ true) before))
     = "correct horse").
Proof.
  apply (passphrase_is_what_ok_found true).
  vm_compute. reflexivity.
Defined.
